(** * PSP media metadata writer: a shallow embedding of [psp_metadata_writer.py]

    Definitions, in the order of the source file:

    - [Text]: characters, [int()], the [:02d] format, [Path.stem] and
      [Path.with_suffix];
    - [Re]: the fragment of Python's [re] used by the seven patterns of
      [extract_episode_number], as a backtracking matcher;
    - [Episode]: the seven patterns and [extract_episode_number];
    - [Fs]: the directory, the external transcoder, what the system can
      refuse and the exceptions the script meets, as a state-and-exception
      monad;
    - [Writer]: [find_cover_image], [convert_to_psp_thumbnail],
      [add_metadata_to_video], [create_psp_thumbnail_file], the two batch
      variants and [cleanup_for_psp];
    - [Shape]: what each rule of the extractor looks for, said without the
      matcher;
    - [Run]: the worlds a batch goes through, written out, for a run that
      returns and for one that an exception ends;
    - [Tags]: the format of the tags of the extractor;
    - [Batch]: words for the statements on cleanup, on sidecars and on
      the videos after a run;
    - [Console]: the three questions, the constructor, [run] and [main],
      as a second state-and-exception monad over the terminal and the disk.

    The theorems follow: the matcher against [Shape], the extractor and
    its tags, paths, the writer against [Run], the properties of a batch,
    and the console.

    Filenames are Python [str] values whose code points are below 256: a
    Rocq [string].  On that range [\d] is exactly [0-9], [\s] is the
    set of [is_space] below, and [re.IGNORECASE] identifies exactly the
    ASCII letter pairs. *)

From Stdlib Require Import NArith Ascii String DecimalString DecimalN DecimalPos
  DecimalFacts.
From stdpp Require Import gmap strings list fin_maps.

Local Open Scope string_scope.

(* ===================================================================== *)
(** ** Characters, numbers and paths *)
(* ===================================================================== *)

Module Text.

Definition code (c : ascii) : N := N_of_ascii c.

(** [\d] on code points below 256. *)
Definition is_digit (c : ascii) : bool :=
  ((48 <=? code c) && (code c <=? 57))%N.

(** [\s] on code points below 256: tab, LF, VT, FF, CR, the four
    separators FS GS RS US, space, NEL and the no-break space. *)
Definition is_space (c : ascii) : bool :=
  (((9 <=? code c) && (code c <=? 13)) || ((28 <=? code c) && (code c <=? 32))
   || (code c =? 133) || (code c =? 160))%N.

(** Case folding as [re.IGNORECASE] does it below 256, for the ASCII
    letters a pattern of this program contains. *)
Definition lower (c : ascii) : ascii :=
  if ((65 <=? code c) && (code c <=? 90))%N then ascii_of_N (code c + 32) else c.

Definition digit_value (c : ascii) : N := (code c - 48)%N.

(** [int(s)] for a string of decimal digits.  A file name is far shorter
    than the number of digits at which [int] gives up. *)
Fixpoint int_acc (acc : N) (s : string) : N :=
  match s with
  | EmptyString => acc
  | String c s' => int_acc (10 * acc + digit_value c)%N s'
  end.

Definition int (s : string) : N := int_acc 0 s.

(** [str(n)] for a natural number. *)
Definition str (n : N) : string := NilEmpty.string_of_uint (N.to_uint n).

(** [f"{n:02d}"]: the decimal digits of [n], padded with zeros on the left
    to a width of at least two. *)
Definition fmt02d (n : N) : string :=
  let s := str n in
  if (String.length s <? 2)%nat
  then String.concat "" (replicate (2 - String.length s) "0") +:+ s
  else s.

Fixpoint all_chars (p : ascii → bool) (s : string) : bool :=
  match s with
  | EmptyString => true
  | String c s' => p c && all_chars p s'
  end.

Fixpoint any_char (p : ascii → bool) (s : string) : bool :=
  match s with
  | EmptyString => false
  | String c s' => p c || any_char p s'
  end.

(** A non-empty run of decimal digits. *)
Definition is_number (s : string) : bool :=
  negb (String.eqb s "") && all_chars is_digit s.

(** The next character, if any, satisfies [p]. *)
Definition starts_with (p : ascii → bool) (s : string) : bool :=
  match s with
  | EmptyString => false
  | String c _ => p c
  end.

(** [name.rfind('.')]: the index of the last dot, if there is one. *)
Fixpoint rfind_dot (s : string) : option nat :=
  match s with
  | EmptyString => None
  | String c s' =>
      match rfind_dot s' with
      | Some i => Some (S i)
      | None => if Ascii.eqb c "." then Some 0%nat else None
      end
  end.

(** [PurePath.suffix] and [PurePath.stem] of a final path component:
    the last dot splits the name unless it is its first or its last
    character. *)
Definition split_suffix (name : string) : string * string :=
  match rfind_dot name with
  | Some i =>
      if ((0 <? i) && (i <? String.length name - 1))%nat
      then (substring 0 i name, substring i (String.length name - i) name)
      else (name, "")
  | None => (name, "")
  end.

Definition stem (name : string) : string := fst (split_suffix name).
Definition suffix (name : string) : string := snd (split_suffix name).

(** [PurePath.with_suffix]: the old suffix, when there is one, is cut off
    and the new one appended. *)
Definition with_suffix (name new_suffix : string) : string :=
  stem name +:+ new_suffix.

End Text.

(* ===================================================================== *)
(** ** The regular expressions of the episode extractor *)
(* ===================================================================== *)

Module Re.
Import Text.

(** One-character matchers. *)
Inductive cclass :=
| Lit (c : ascii)   (* a literal character *)
| Digit             (* \d *)
| Space.            (* \s *)

(** The syntax the seven patterns need.  Repetition is applied to a
    character class only, as in [\d+] and [\s*]; groups are not nested. *)
Inductive regex :=
| Chr (a : cclass)
| Plus (a : cclass)          (* a+ , greedy *)
| Star (a : cclass)          (* a* , greedy *)
| Group (r : regex)          (* ( r ) *)
| Cat (r1 r2 : regex)
| Bol.                       (* ^ *)

Infix "+>" := Cat (at level 60, right associativity).

(** A literal word, character by character. *)
Fixpoint word (w : string) (tail : regex) : regex :=
  match w with
  | EmptyString => tail
  | String c w' => Chr (Lit c) +> word w' tail
  end.

Definition cmatch (ignorecase : bool) (a : cclass) (c : ascii) : bool :=
  match a with
  | Lit l => if ignorecase then Ascii.eqb (lower l) (lower c) else Ascii.eqb l c
  | Digit => is_digit c
  | Space => is_space c
  end.

Record match_object := Match { m_start : nat; m_end : nat; groups : list string }.

(** [m.group(i)] for [i >= 1]. *)
Definition group (m : match_object) (i : nat) : string :=
  nth (i - 1) (groups m) "".

Section Matcher.
Context {R : Type}.
Variable ignorecase : bool.

(** Greedy repetition of a class: consume as long as possible, and give
    characters back one at a time while the rest of the pattern fails. *)
Fixpoint many (a : cclass) (pos : nat) (s : string)
    (k : nat → string → option R) : option R :=
  match s with
  | String c s' =>
      if cmatch ignorecase a c then
        match many a (S pos) s' k with
        | Some r => Some r
        | None => k pos s
        end
      else k pos s
  | EmptyString => k pos s
  end.

(** Backtracking match of [r] at position [pos], where [s] is the rest
    of the subject; [k] is the rest of the pattern. *)
Fixpoint bt (r : regex) (pos : nat) (s : string) (caps : list string)
    (k : nat → string → list string → option R) : option R :=
  match r with
  | Chr a =>
      match s with
      | String c s' => if cmatch ignorecase a c then k (S pos) s' caps else None
      | EmptyString => None
      end
  | Plus a =>
      match s with
      | String c s' =>
          if cmatch ignorecase a c then many a (S pos) s' (λ p t, k p t caps) else None
      | EmptyString => None
      end
  | Star a => many a pos s (λ p t, k p t caps)
  | Group r1 =>
      bt r1 pos s caps (λ p t caps', k p t (caps' ++ [substring 0 (p - pos) s])%list)
  | Cat r1 r2 =>
      bt r1 pos s caps (λ p t caps', bt r2 p t caps' k)
  | Bol => if (pos =? 0)%nat then k pos s caps else None
  end.
End Matcher.

(** [re.match]-like attempt at one position. *)
Definition match_at (ignorecase : bool) (r : regex) (pos : nat) (s : string)
  : option match_object :=
  bt ignorecase r pos s [] (λ p _ caps, Some (Match pos p caps)).

(** [re.search]: the first position, from the left, where the pattern
    matches. *)
Fixpoint search_from (ignorecase : bool) (r : regex) (pos : nat) (s : string)
  : option match_object :=
  match match_at ignorecase r pos s with
  | Some m => Some m
  | None =>
      match s with
      | EmptyString => None
      | String _ s' => search_from ignorecase r (S pos) s'
      end
  end.

Inductive flag := NOFLAG | IGNORECASE.

Definition search (r : regex) (s : string) (f : flag) : option match_object :=
  search_from (match f with IGNORECASE => true | NOFLAG => false end) r 0 s.

End Re.

(* ===================================================================== *)
(** ** extract_episode_number *)
(* ===================================================================== *)

Module Episode.
Import Text Re.

(** r'S(\d+)E(\d+)' *)
Definition pat_s_e : regex :=
  Chr (Lit "S") +> Group (Plus Digit) +> Chr (Lit "E") +> Group (Plus Digit).
(** r'(\d+)x(\d+)' *)
Definition pat_s_x_e : regex :=
  Group (Plus Digit) +> Chr (Lit "x") +> Group (Plus Digit).
(** r'EP(\d+)' *)
Definition pat_ep : regex := word "EP" (Group (Plus Digit)).
(** r'^(\d+)-' *)
Definition pat_dash : regex := Bol +> Group (Plus Digit) +> Chr (Lit "-").
(** r'Episode\s*(\d+)' *)
Definition pat_episode : regex := word "Episode" (Star Space +> Group (Plus Digit)).
(** r'Ep\s*(\d+)' *)
Definition pat_ep_short : regex := word "Ep" (Star Space +> Group (Plus Digit)).
(** r'(\d+)' *)
Definition pat_number : regex := Group (Plus Digit).

Definition extract_episode_number (filename : string) : option string :=
  match search pat_s_e filename IGNORECASE with
  | Some s_e_match =>
      let season_num := int (group s_e_match 1) in
      let episode_num := int (group s_e_match 2) in
      Some ("S" +:+ fmt02d season_num +:+ "E" +:+ fmt02d episode_num)
  | None =>
  match search pat_s_x_e filename IGNORECASE with
  | Some s_x_e_match =>
      let season_num := int (group s_x_e_match 1) in
      let episode_num := int (group s_x_e_match 2) in
      Some ("S" +:+ fmt02d season_num +:+ "E" +:+ fmt02d episode_num)
  | None =>
  match search pat_ep filename IGNORECASE with
  | Some ep_match =>
      let episode_num := int (group ep_match 1) in
      Some ("S01E" +:+ fmt02d episode_num)
  | None =>
  match search pat_dash filename NOFLAG with
  | Some dash_match =>
      let episode_num := int (group dash_match 1) in
      Some ("S01E" +:+ fmt02d episode_num)
  | None =>
  match search pat_episode filename IGNORECASE with
  | Some episode_match =>
      let episode_num := int (group episode_match 1) in
      Some ("E" +:+ fmt02d episode_num)
  | None =>
  match search pat_ep_short filename IGNORECASE with
  | Some ep_short_match =>
      let episode_num := int (group ep_short_match 1) in
      Some ("E" +:+ fmt02d episode_num)
  | None =>
  match search pat_number filename NOFLAG with
  | Some number_match =>
      let episode_num := int (group number_match 1) in
      Some ("E" +:+ fmt02d episode_num)
  | None => None
  end end end end end end end.

End Episode.

(* ===================================================================== *)
(** ** The directory, the transcoder and exceptions *)
(* ===================================================================== *)

Module Fs.

(** One directory: file name to file content.  Names are compared as
    they are spelt. *)
Abbreviation directory := (gmap string string).

(** What the script prints, one constructor for each [print]. *)
Inductive message :=
| ProcessingMovies | ProcessingTvShow (show_name : string)
| FoundCoverImage (name : string) | CoverConverted | CoverConvertFailed | NoCoverImage
| FoundMp4Files (n : nat) | Processing (name : string) | Episode (tag : string)
| MetadataAdded (name : string) | MetadataFailed (name : string)
| ThumbnailCreated (name : string) | ThumbnailFailed (name : string)
| ErrorConvertingImage | ErrorAddingMetadata (name : string) | ErrorCreatingThm (name : string)
| CleaningUp | Removed (name : string) | FailedToRemove (name : string)
| CleanedUp (removed_count : nat) | NowCompatible | NothingToCleanUp.

(** [OSError] stands for itself and its subclasses ([FileNotFoundError],
    [PermissionError], [IsADirectoryError]); [ValueError] is what
    [subprocess.run] raises for an argument with an embedded NUL. *)
Inductive exn := CalledProcessError | OSError | ValueError.

(** What one run of the transcoder does: it ends with status 0 and has
    written its output file, or it ends with status 0 and there is no
    output file, or it ends with another status and may have left a part
    of the output. *)
Inductive process_result :=
| Exit0 (output : string)
| Exit0NoOutput
| ExitNonZero (partial : option string).

(** The environment of a run: what the transcoder does with a command
    line in a given directory, and what the system refuses.  A copy, a
    delete and a rename can each be refused, whether the script has a
    handler at that place or not: [copy2_fails] for [shutil.copy2],
    [unlink_fails] for [Path.unlink], [rename_fails] for the rename of
    [shutil.move].  The transcoder itself is present: the constructor of
    the class leaves the program otherwise.  [scandir] is the order in
    which the system lists a directory. *)
Record env := Env {
  ffmpeg : directory → list string → process_result;
  copy2_fails : string → string → bool;
  unlink_fails : string → bool;
  scandir : directory → list string;
  rename_fails : string → string → bool;
}.

(** The directory, what was printed, and the command lines handed to
    [subprocess.run], in the order of the calls. *)
Record world := World {
  files : directory;
  stdout : list message;
  spawned : list (list string);
}.

Definition set_files (f : directory → directory) (w : world) : world :=
  World (f (files w)) (stdout w) (spawned w).

(** State and exceptions. *)
Definition M (A : Type) : Type := world → (A + exn) * world.

#[export] Instance M_ret : MRet M := λ A (a : A) w, (inl a, w).
#[export] Instance M_bind : MBind M := λ A B (k : A → M B) (m : M A) w,
  match m w with
  | (inl a, w') => k a w'
  | (inr ex, w') => (inr ex, w')
  end.

(** [try: body / except <those for which the handler is defined>]. *)
Definition try_except {A} (body : M A) (handler : exn → option (M A)) : M A :=
  λ w, match body w with
       | (inl a, w') => (inl a, w')
       | (inr ex, w') =>
           match handler ex with
           | Some h => h w'
           | None => (inr ex, w')
           end
       end.

Definition print (msg : message) : M unit :=
  λ w, (inl (), World (files w) (stdout w ++ [msg])%list (spawned w)).

(** [Path.exists]. *)
Definition path_exists (path : string) : M bool :=
  λ w, (inl (bool_decide (is_Some (files w !! path))), w).

(** An argument of the command line holds a NUL character. *)
Definition embedded_null (cmd : list string) : bool :=
  existsb (Text.any_char (Ascii.eqb "000")) cmd.

(** What the transcoder leaves at its output path. *)
Definition transcoded (result : process_result) (output_path : string) (dir : directory)
  : directory :=
  match result with
  | Exit0 out => <[output_path := out]> dir
  | ExitNonZero (Some part) => <[output_path := part]> dir
  | Exit0NoOutput | ExitNonZero None => dir
  end.

(** [subprocess.run(cmd, check=True, capture_output=True)] for a
    transcoder command line: the output file is its last argument.  A
    command line with an embedded NUL is refused with [ValueError] before
    any process is started; a status other than 0 raises
    [CalledProcessError]. *)
Definition subprocess_run (e : env) (cmd : list string) : M unit :=
  λ w,
    let output_path := List.last cmd "" in
    let result := ffmpeg e (files w) cmd in
    let w := World (files w) (stdout w) (spawned w ++ [cmd])%list in
    if embedded_null cmd then (inr ValueError, w)
    else
      match result with
      | Exit0 _ | Exit0NoOutput => (inl (), set_files (transcoded result output_path) w)
      | ExitNonZero _ =>
          (inr CalledProcessError, set_files (transcoded result output_path) w)
      end.

(** [shutil.copy2(src, dst)]. *)
Definition shutil_copy2 (e : env) (src dst : string) : M unit :=
  λ w, match files w !! src with
       | Some c => if copy2_fails e src dst then (inr OSError, w)
                   else (inl (), set_files (insert dst c) w)
       | None => (inr OSError, w)
       end.

(** [Path.unlink]; [fault] tells whether the operating system refuses. *)
Definition unlink (fault : bool) (path : string) : M unit :=
  λ w, match files w !! path with
       | Some _ => if fault then (inr OSError, w)
                   else (inl (), set_files (delete path) w)
       | None => (inr OSError, w)
       end.

(** [shutil.move(src, dst)] for a file, inside one directory: a rename
    that replaces [dst]; when the system refuses the rename, [shutil.move]
    copies the file with [copy2] and removes the source. *)
Definition shutil_move (e : env) (src dst : string) : M unit :=
  λ w, match files w !! src with
       | Some c =>
           if rename_fails e src dst
           then (shutil_copy2 e src dst ;; unlink (unlink_fails e src) src) w
           else (inl (), set_files (λ fs, delete src (<[dst := c]> fs)) w)
       | None => (inr OSError, w)
       end.

(** [for x in xs: body]. *)
Fixpoint for_each {A} (xs : list A) (body : A → M unit) : M unit :=
  match xs with
  | [] => mret ()
  | x :: xs' => body x ;; for_each xs' body
  end.

Definition ends_with (suffix_ s : string) : bool :=
  (String.length suffix_ <=? String.length s)%nat
  && String.eqb (substring (String.length s - String.length suffix_)
                           (String.length suffix_) s) suffix_.

(** [list(directory.glob("*.mp4"))], in the order of the listing. *)
Definition glob_mp4 (e : env) : M (list string) :=
  λ w, (inl (filter (λ n, ends_with ".mp4" n = true ∧ is_Some (files w !! n))
               (scandir e (files w))), w).

End Fs.

(* ===================================================================== *)
(** ** PSPMetadataWriter *)
(* ===================================================================== *)

Module Writer.
Import Text Episode Fs.

(** A [Dict[str, str]] in insertion order. *)
Abbreviation dict := (list (string * string)).

(** [d[key] = value]. *)
Fixpoint dict_set (d : dict) (key value : string) : dict :=
  match d with
  | [] => [(key, value)]
  | (k, v) :: d' =>
      if String.eqb k key then (k, value) :: d' else (k, v) :: dict_set d' key value
  end.

Definition cover_patterns : list string :=
  [ "cover.jpg"; "cover.jpeg"; "cover.png"; "cover.bmp"; "cover.gif";
    "Cover.jpg"; "Cover.jpeg"; "Cover.png"; "Cover.bmp"; "Cover.gif";
    "COVER.jpg"; "COVER.jpeg"; "COVER.png"; "COVER.bmp"; "COVER.gif" ].

Fixpoint first_existing (dir : directory) (patterns : list string) : option string :=
  match patterns with
  | [] => None
  | pattern :: rest =>
      if bool_decide (is_Some (dir !! pattern)) then Some pattern
      else first_existing dir rest
  end.

Definition find_cover_image : M (option string) :=
  λ w, (inl (first_existing (files w) cover_patterns), w).

Definition convert_to_psp_thumbnail (e : env) (image_path output_path : string) : M bool :=
  try_except
    (let cmd := ["ffmpeg"; "-i"; image_path; "-vf"; "scale=160:120"; "-q:v"; "2"; "-y";
                 output_path] in
     subprocess_run e cmd ;;
     mret true)
    (λ ex, match ex with
           | CalledProcessError => Some (print ErrorConvertingImage ;; mret false)
           | _ => None
           end).

(** The command line built by [add_metadata_to_video]. *)
Definition metadata_command (video_path : string) (metadata : dict) (temp_path : string)
  : list string :=
  let cmd := ["ffmpeg"; "-i"; video_path; "-c"; "copy"] in
  let cmd :=
    (cmd ++ concat (map (λ kv, ["-metadata"; fst kv +:+ "=" +:+ snd kv]) metadata))%list in
  (cmd ++ ["-y"; temp_path])%list.

(** The handler is for [CalledProcessError] alone: what [shutil.move]
    raises, what [subprocess.run] raises besides, and what [unlink] raises
    inside the handler leave the function as exceptions. *)
Definition add_metadata_to_video (e : env) (video_path : string) (metadata : dict) : M bool :=
  let temp_path := with_suffix video_path ".temp.mp4" in
  try_except
    (subprocess_run e (metadata_command video_path metadata temp_path) ;;
     shutil_move e temp_path video_path ;;
     mret true)
    (λ ex, match ex with
           | CalledProcessError =>
               Some (print (ErrorAddingMetadata video_path) ;;
                     found ← path_exists temp_path;
                     (if found : bool
                      then unlink (unlink_fails e temp_path) temp_path
                      else mret ()) ;;
                     mret false)
           | _ => None
           end).

Definition create_psp_thumbnail_file (e : env) (video_path thumbnail_path : string) : M bool :=
  try_except
    (let thm_path := with_suffix video_path ".THM" in
     shutil_copy2 e thumbnail_path thm_path ;;
     mret true)
    (λ _, Some (print (ErrorCreatingThm video_path) ;; mret false)).

Definition files_to_remove : list string :=
  [ "thumbnail.jpg";
    "cover.jpg"; "cover.jpeg"; "cover.png"; "cover.bmp"; "cover.gif";
    "Cover.jpg"; "Cover.jpeg"; "Cover.png"; "Cover.bmp"; "Cover.gif";
    "COVER.jpg"; "COVER.jpeg"; "COVER.png"; "COVER.bmp"; "COVER.gif" ].

(** The loop of [cleanup_for_psp], threading [removed_count]. *)
Fixpoint cleanup_loop (e : env) (names : list string) (removed_count : nat) : M nat :=
  match names with
  | [] => mret removed_count
  | filename :: rest =>
      found ← path_exists filename;
      removed_count ←
        (if found : bool then
           try_except
             (unlink (unlink_fails e filename) filename ;;
              print (Removed filename) ;;
              mret (removed_count + 1))
             (λ _, Some (print (FailedToRemove filename) ;; mret removed_count))
         else mret removed_count);
      cleanup_loop e rest removed_count
  end.

Definition cleanup_for_psp (e : env) : M unit :=
  print CleaningUp ;;
  removed_count ← cleanup_loop e files_to_remove 0;
  if (0 <? removed_count)%nat
  then print (CleanedUp removed_count) ;; print NowCompatible
  else print NothingToCleanUp.

(** The thumbnail a sidecar is copied from: [thumbnail_path and
    thumbnail_path.exists()]. *)
Definition sidecar (e : env) (video_file : string) (thumbnail_path : option string) : M unit :=
  match thumbnail_path with
  | Some thumbnail =>
      found ← path_exists thumbnail;
      if found : bool then
        ok ← create_psp_thumbnail_file e video_file thumbnail;
        if ok : bool then print (ThumbnailCreated video_file)
        else print (ThumbnailFailed video_file)
      else mret ()
  | None => mret ()
  end.

Definition movie_metadata (video_file : string) : dict :=
  [("title", stem video_file); ("album", "Movies")].

(** The body of the loop of [process_movies]. *)
Definition process_movie (e : env) (thumbnail_path : option string) (video_file : string)
  : M unit :=
  print (Processing video_file) ;;
  let metadata := movie_metadata video_file in
  ok ← add_metadata_to_video e video_file metadata;
  if ok : bool then
    print (MetadataAdded video_file) ;;
    sidecar e video_file thumbnail_path
  else print (MetadataFailed video_file).

(** The cover and thumbnail stage both variants start with. *)
Definition prepare_thumbnail (e : env) : M (option string) :=
  cover_image ← find_cover_image;
  match cover_image with
  | Some cover =>
      print (FoundCoverImage cover) ;;
      let thumbnail_path := "thumbnail.jpg" in
      ok ← convert_to_psp_thumbnail e cover thumbnail_path;
      if ok : bool then print CoverConverted ;; mret (Some thumbnail_path)
      else print CoverConvertFailed ;; mret None
  | None => print NoCoverImage ;; mret None
  end.

Definition process_movies (e : env) : M unit :=
  print ProcessingMovies ;;
  thumbnail_path ← prepare_thumbnail e;
  mp4_files ← glob_mp4 e;
  print (FoundMp4Files (length mp4_files)) ;;
  for_each mp4_files (process_movie e thumbnail_path) ;;
  cleanup_for_psp e.

(** Truth value of an [Optional[str]]: [None] and the empty string are
    false. *)
Definition truthy (o : option string) : bool :=
  match o with
  | Some s => negb (String.eqb s "")
  | None => false
  end.

(** [metadata] as [process_tv_show] builds it. *)
Definition tv_metadata (show_name video_file : string) : dict :=
  let episode_number := extract_episode_number (stem video_file) in
  let episode_title := stem video_file in
  let metadata := [("title", episode_title); ("album", show_name); ("show", show_name)] in
  if truthy episode_number
  then dict_set metadata "episode_id" (default "" episode_number)
  else metadata.

(** The body of the loop of [process_tv_show]. *)
Definition process_episode (e : env) (show_name : string) (thumbnail_path : option string)
    (video_file : string) : M unit :=
  print (Processing video_file) ;;
  let episode_number := extract_episode_number (stem video_file) in
  let metadata := tv_metadata show_name video_file in
  (if truthy episode_number then print (Episode (default "" episode_number)) else mret ()) ;;
  ok ← add_metadata_to_video e video_file metadata;
  if ok : bool then
    print (MetadataAdded video_file) ;;
    sidecar e video_file thumbnail_path
  else print (MetadataFailed video_file).

Definition process_tv_show (e : env) (show_name : string) : M unit :=
  print (ProcessingTvShow show_name) ;;
  thumbnail_path ← prepare_thumbnail e;
  mp4_files ← glob_mp4 e;
  print (FoundMp4Files (length mp4_files)) ;;
  for_each mp4_files (process_episode e show_name thumbnail_path) ;;
  cleanup_for_psp e.

End Writer.

(* ===================================================================== *)
(** ** The rules of the extractor, in words *)
(* ===================================================================== *)

Module Shape.
Import Text Re Episode.

(** The longest prefix of [s] in the class [f], and what follows it. *)
Fixpoint take_while (f : ascii → bool) (s : string) : string :=
  match s with
  | String c s' => if f c then String c (take_while f s') else ""
  | EmptyString => ""
  end.

Fixpoint drop_while (f : ascii → bool) (s : string) : string :=
  match s with
  | String c s' => if f c then drop_while f s' else s
  | EmptyString => ""
  end.

(** The rest of the pattern cannot start where the class still matches. *)
Definition rejects {R} (ic : bool) (a : cclass)
    (k : nat → string → list string → option R) : Prop :=
  ∀ p t c, starts_with (cmatch ic a) t = true → k p t c = None.

(** The rest of the pattern accepts whatever is left. *)
Definition accepts_all {R} (k : nat → string → list string → option R) : Prop :=
  ∀ p t c, is_Some (k p t c).

(** The letter [l] in either case. *)
Definition lit_ci (l c : ascii) : bool := Ascii.eqb (lower l) (lower c).

Abbreviation digits_of := (take_while is_digit).
Abbreviation after_digits := (drop_while is_digit).

(** The seven patterns at one position, written as plain case analysis:
    the groups when the pattern matches where [s] begins. *)
Definition number_at (s : string) : option (list string) :=
  if starts_with is_digit s then Some [digits_of s] else None.

Definition s_e_at (s : string) : option (list string) :=
  match s with
  | String c s1 =>
      match after_digits s1 with
      | String e r2 =>
          if lit_ci "S" c && starts_with is_digit s1 && lit_ci "E" e && starts_with is_digit r2
          then Some [digits_of s1; digits_of r2] else None
      | EmptyString => None
      end
  | EmptyString => None
  end.

Definition s_x_e_at (s : string) : option (list string) :=
  match after_digits s with
  | String x r2 =>
      if starts_with is_digit s && lit_ci "x" x && starts_with is_digit r2
      then Some [digits_of s; digits_of r2] else None
  | EmptyString => None
  end.

Definition ep_at (s : string) : option (list string) :=
  match s with
  | String e (String p s1) =>
      if lit_ci "E" e && lit_ci "P" p && starts_with is_digit s1
      then Some [digits_of s1] else None
  | _ => None
  end.

Definition dash_at (s : string) : option (list string) :=
  match after_digits s with
  | String d _ =>
      if starts_with is_digit s && Ascii.eqb "-" d then Some [digits_of s] else None
  | EmptyString => None
  end.

(** A literal word, compared case-insensitively, in front of [s]. *)
Fixpoint word_ci (w s : string) : option string :=
  match w with
  | EmptyString => Some s
  | String l w' =>
      match s with
      | String c s' => if lit_ci l c then word_ci w' s' else None
      | EmptyString => None
      end
  end.

(** word, blanks, number: the shape of the patterns 5 and 6. *)
Definition word_blank_number_at (w s : string) : option (list string) :=
  match word_ci w s with
  | Some t => number_at (drop_while is_space t)
  | None => None
  end.

(** The first suffix of [s], from the left, on which [f] gives a result. *)
Fixpoint first_suffix {A} (f : string → option A) (s : string) : option A :=
  match f s with
  | Some x => Some x
  | None => match s with
            | EmptyString => None
            | String _ s' => first_suffix f s'
            end
  end.

(** What the rules look for.  [shape t g post]: the text [t] begins with
    an occurrence of the rule whose groups are [g] and which is followed
    by [post]. *)
Definition s_e_shape (t : string) (g : list string) (post : string) : Prop :=
  ∃ cs d1 ce d2, t = String cs (d1 +:+ String ce (d2 +:+ post))
    ∧ lower cs = "s"%char ∧ is_number d1 = true
    ∧ lower ce = "e"%char ∧ is_number d2 = true ∧ g = [d1; d2].

Definition s_x_e_shape (t : string) (g : list string) (post : string) : Prop :=
  ∃ d1 cx d2, t = d1 +:+ String cx (d2 +:+ post)
    ∧ is_number d1 = true ∧ lower cx = "x"%char ∧ is_number d2 = true ∧ g = [d1; d2].

Definition ep_shape (t : string) (g : list string) (post : string) : Prop :=
  ∃ ce cp d, t = String ce (String cp (d +:+ post))
    ∧ lower ce = "e"%char ∧ lower cp = "p"%char ∧ is_number d = true ∧ g = [d].

Fixpoint lower_str (s : string) : string :=
  match s with
  | EmptyString => EmptyString
  | String c s' => String (lower c) (lower_str s')
  end.

(** The word [w] in any case, blanks, a number. *)
Definition word_blank_number_shape (w : string)
    (t : string) (g : list string) (post : string) : Prop :=
  ∃ w' ws d, t = w' +:+ (ws +:+ (d +:+ post))
    ∧ lower_str w' = lower_str w ∧ all_chars is_space ws = true
    ∧ is_number d = true ∧ g = [d].

Definition number_shape (t : string) (g : list string) (post : string) : Prop :=
  ∃ d, t = d +:+ post ∧ is_number d = true ∧ g = [d].

(** The whole filename starts with a number and a dash. *)
Definition dash_shape (f : string) (g : list string) : Prop :=
  ∃ d rest, f = d +:+ String "-" rest ∧ is_number d = true ∧ g = [d].

Definition shape := string → list string → string → Prop.

(** The rule occurs somewhere in [f]. *)
Definition contains (sh : shape) (f : string) : Prop :=
  ∃ pre t g post, f = pre +:+ t ∧ sh t g post.

(** [g] are the groups of the leftmost occurrence in [f], its last number
    taken as long as it goes. *)
Definition leftmost (sh : shape) (f : string) (g : list string) : Prop :=
  ∃ pre t post, f = pre +:+ t ∧ sh t g post ∧ starts_with is_digit post = false
    ∧ ∀ pre1 t1, f = pre1 +:+ t1 → String.length pre1 < String.length pre →
        ¬ ∃ g1 post1, sh t1 g1 post1.

(** The tags the extractor formats from the groups of a match. *)
Definition season_episode_tag (g : list string) : string :=
  "S" +:+ fmt02d (int (nth 0 g "")) +:+ "E" +:+ fmt02d (int (nth 1 g "")).
Definition season_one_tag (g : list string) : string :=
  "S01E" +:+ fmt02d (int (nth 0 g "")).
Definition episode_tag (g : list string) : string :=
  "E" +:+ fmt02d (int (nth 0 g "")).

(** The seven rules as searches over the suffixes of the filename. *)
Definition rule1 (f : string) := first_suffix s_e_at f.
Definition rule2 (f : string) := first_suffix s_x_e_at f.
Definition rule3 (f : string) := first_suffix ep_at f.
Definition rule4 (f : string) := dash_at f.
Definition rule5 (f : string) := first_suffix (word_blank_number_at "Episode") f.
Definition rule6 (f : string) := first_suffix (word_blank_number_at "Ep") f.
Definition rule7 (f : string) := first_suffix number_at f.

(** Every rule needs a number. *)
Definition needs_number (sh : shape) : Prop :=
  ∀ t g post, sh t g post → any_char is_digit t = true.

End Shape.

(* ===================================================================== *)
(** ** The worlds a run goes through *)
(* ===================================================================== *)

Module Run.
Import Text Episode Fs Writer.

(** The temporary path and the sidecar path of a video. *)
Definition temp_of (video_file : string) : string := with_suffix video_file ".temp.mp4".
Definition thm_of (video_file : string) : string := with_suffix video_file ".THM".

Definition tag_command (video_file : string) (metadata : dict) : list string :=
  metadata_command video_file metadata (temp_of video_file).

Definition say (msgs : list message) (w : world) : world :=
  World (files w) (stdout w ++ msgs) (spawned w).

(** The directory after [shutil.move src dst], and whether the call
    raised. *)
Definition moved (e : env) (src dst : string) (dir : directory) : directory :=
  match dir !! src with
  | Some c =>
      if rename_fails e src dst
      then if copy2_fails e src dst then dir
           else if unlink_fails e src then <[dst := c]> dir
           else delete src (<[dst := c]> dir)
      else delete src (<[dst := c]> dir)
  | None => dir
  end.

Definition move_raises (e : env) (src dst : string) (dir : directory) : bool :=
  match dir !! src with
  | Some _ => rename_fails e src dst && (copy2_fails e src dst || unlink_fails e src)
  | None => true
  end.

(** The result of [add_metadata_to_video], and the world after it,
    whether it returned or raised. *)
Definition tag_result (e : env) (video_file : string) (metadata : dict) (w : world)
  : bool + exn :=
  let cmd := tag_command video_file metadata in
  let result := ffmpeg e (files w) cmd in
  let dir := transcoded result (temp_of video_file) (files w) in
  if embedded_null cmd then inr ValueError
  else
    match result with
    | Exit0 _ | Exit0NoOutput =>
        if move_raises e (temp_of video_file) video_file dir then inr OSError else inl true
    | ExitNonZero _ =>
        if bool_decide (is_Some (dir !! temp_of video_file))
           && unlink_fails e (temp_of video_file)
        then inr OSError else inl false
    end.

Definition tagged (e : env) (video_file : string) (metadata : dict) (w : world) : world :=
  let cmd := tag_command video_file metadata in
  let result := ffmpeg e (files w) cmd in
  let dir := transcoded result (temp_of video_file) (files w) in
  if embedded_null cmd then World (files w) (stdout w) (spawned w ++ [cmd])
  else
    match result with
    | Exit0 _ | Exit0NoOutput =>
        World (moved e (temp_of video_file) video_file dir) (stdout w) (spawned w ++ [cmd])
    | ExitNonZero _ =>
        World (if unlink_fails e (temp_of video_file) then dir
               else delete (temp_of video_file) dir)
          (stdout w ++ [ErrorAddingMetadata video_file]) (spawned w ++ [cmd])
    end.

(** The world after the sidecar step. *)
Definition with_sidecar (e : env) (video_file : string) (thumbnail_path : option string)
    (w : world) : world :=
  match thumbnail_path with
  | Some thumbnail =>
      match files w !! thumbnail with
      | Some c =>
          if copy2_fails e thumbnail (thm_of video_file)
          then say [ErrorCreatingThm video_file; ThumbnailFailed video_file] w
          else World (<[thm_of video_file := c]> (files w))
                 (stdout w ++ [ThumbnailCreated video_file]) (spawned w)
      | None => w
      end
  | None => w
  end.

(** The world after tagging and, when that worked, the sidecar; the
    turn raises what the tagger raised. *)
Definition finished (e : env) (thumbnail_path : option string) (video_file : string)
    (metadata : dict) (w : world) : world :=
  let w1 := tagged e video_file metadata w in
  match tag_result e video_file metadata w with
  | inl true => with_sidecar e video_file thumbnail_path (say [MetadataAdded video_file] w1)
  | inl false => say [MetadataFailed video_file] w1
  | inr _ => w1
  end.

Definition finish_result (e : env) (video_file : string) (metadata : dict) (w : world)
  : unit + exn :=
  match tag_result e video_file metadata w with
  | inl _ => inl ()
  | inr ex => inr ex
  end.

(** One turn of a batch loop: the video is announced, then tagged with
    [metadata video]. *)
Definition step (e : env) (thumbnail_path : option string)
    (metadata : string → dict) (announce : string → list message)
    (w : world) (video : string) : world :=
  finished e thumbnail_path video (metadata video) (say (announce video) w).

Definition step_result (e : env) (metadata : string → dict)
    (announce : string → list message) (w : world) (video : string) : unit + exn :=
  finish_result e video (metadata video) (say (announce video) w).

(** The loop [for video_file in mp4_files] ends with the first turn that
    raises: its result, and the videos it got to. *)
Fixpoint loop_result (result : world → string → unit + exn) (step : world → string → world)
    (videos : list string) (w : world) : unit + exn :=
  match videos with
  | [] => inl ()
  | video :: rest =>
      match result w video with
      | inl _ => loop_result result step rest (step w video)
      | inr ex => inr ex
      end
  end.

Fixpoint reached (result : world → string → unit + exn) (step : world → string → world)
    (videos : list string) (w : world) : list string :=
  match videos with
  | [] => []
  | video :: rest =>
      video :: match result w video with
               | inl _ => reached result step rest (step w video)
               | inr _ => []
               end
  end.

Definition episode_announce (video_file : string) : list message :=
  if truthy (extract_episode_number (stem video_file))
  then [Processing video_file;
        Episode (default "" (extract_episode_number (stem video_file)))]
  else [Processing video_file].

Definition movie_step (e : env) (thumbnail_path : option string) : world → string → world :=
  step e thumbnail_path movie_metadata (λ video_file, [Processing video_file]).

Definition episode_step (e : env) (show_name : string) (thumbnail_path : option string)
  : world → string → world :=
  step e thumbnail_path (tv_metadata show_name) episode_announce.

(** The count and the world after the loop of [cleanup_for_psp]. *)
Fixpoint swept (e : env) (names : list string) (removed_count : nat) (w : world)
  : nat * world :=
  match names with
  | [] => (removed_count, w)
  | filename :: rest =>
      match files w !! filename with
      | Some _ =>
          if unlink_fails e filename
          then swept e rest removed_count (say [FailedToRemove filename] w)
          else swept e rest (removed_count + 1)
                 (World (delete filename (files w)) (stdout w ++ [Removed filename])
                    (spawned w))
      | None => swept e rest removed_count w
      end
  end.

Definition cleaned (e : env) (w : world) : world :=
  let r := swept e files_to_remove 0 (say [CleaningUp] w) in
  if (0 <? fst r)%nat then say [CleanedUp (fst r); NowCompatible] (snd r)
  else say [NothingToCleanUp] (snd r).

Definition thumbnail_command (cover : string) : list string :=
  ["ffmpeg"; "-i"; cover; "-vf"; "scale=160:120"; "-q:v"; "2"; "-y"; "thumbnail.jpg"].

(** The thumbnail path and the world after the cover stage. *)
Definition prepared (e : env) (w : world) : option string * world :=
  match first_existing (files w) cover_patterns with
  | Some cover =>
      match ffmpeg e (files w) (thumbnail_command cover) with
      | Exit0 out =>
          (Some "thumbnail.jpg",
           World (<["thumbnail.jpg" := out]> (files w))
             (stdout w ++ [FoundCoverImage cover; CoverConverted])
             (spawned w ++ [thumbnail_command cover]))
      | Exit0NoOutput =>
          (Some "thumbnail.jpg",
           World (files w)
             (stdout w ++ [FoundCoverImage cover; CoverConverted])
             (spawned w ++ [thumbnail_command cover]))
      | ExitNonZero partial =>
          (None,
           World (match partial with
                  | Some part => <["thumbnail.jpg" := part]> (files w)
                  | None => files w
                  end)
             (stdout w ++ [FoundCoverImage cover; ErrorConvertingImage; CoverConvertFailed])
             (spawned w ++ [thumbnail_command cover]))
      end
  | None => (None, say [NoCoverImage] w)
  end.

Definition listing (e : env) (w : world) : list string :=
  filter (λ n, ends_with ".mp4" n = true ∧ is_Some (files w !! n)) (scandir e (files w)).

(** The result of a whole run of either variant, and the world after
    it: the cover stage, the loop, and cleanup when the loop has not
    raised. *)
Definition batch_done (e : env) (metadata : string → dict)
    (announce : string → list message) (first_message : message) (w : world)
  : (unit + exn) * world :=
  let p := prepared e (say [first_message] w) in
  let mp4_files := listing e (snd p) in
  let w_loop := say [FoundMp4Files (length mp4_files)] (snd p) in
  let result := step_result e metadata announce in
  let turn := step e (fst p) metadata announce in
  let w_end := fold_left turn (reached result turn mp4_files w_loop) w_loop in
  match loop_result result turn mp4_files w_loop with
  | inl _ => (inl (), cleaned e w_end)
  | inr ex => (inr ex, w_end)
  end.

Definition movies_done (e : env) : world → (unit + exn) * world :=
  batch_done e movie_metadata (λ video_file, [Processing video_file]) ProcessingMovies.

Definition tv_show_done (e : env) (show_name : string) : world → (unit + exn) * world :=
  batch_done e (tv_metadata show_name) episode_announce (ProcessingTvShow show_name).

(** A system that does not fail on its own account: a transcoder that
    ends with status 0 has written its output file, no rename is refused,
    and the temporary file of a video can be removed. *)
Definition quiet (e : env) : Prop :=
  (∀ dir cmd, ffmpeg e dir cmd ≠ Exit0NoOutput)
  ∧ (∀ src dst, rename_fails e src dst = false)
  ∧ (∀ video_file, unlink_fails e (with_suffix video_file ".temp.mp4") = false).

(** A string without NUL: a file name of a real directory, a show name
    typed at a keyboard. *)
Definition no_null (s : string) : bool := negb (any_char (Ascii.eqb "000") s).

(** Isolation, for a loop body that tags [video] with [metadata video]:
    the loop over any list of videos ends normally, has called the
    transcoder once for each video, in order, and each video is treated on
    its own terms whatever happened to those before it. *)
Definition isolated (e : env) (thumbnail_path : option string)
    (body : string → M unit) (metadata : string → dict) : Prop :=
  ∀ (videos : list string) (w : world),
    (∀ v, v ∈ videos → no_null v = true) →
    fst (for_each videos body w) = inl ()
    ∧ spawned (snd (for_each videos body w))
      = (spawned w
         ++ map (λ v, metadata_command v (metadata v) (with_suffix v ".temp.mp4")) videos)%list
    ∧ ∀ before video after, videos = (before ++ video :: after)%list →
        let w1 := snd (for_each before body w) in
        let w2 := snd (body video w1) in
        let temp := with_suffix video ".temp.mp4" in
        let thm := with_suffix video ".THM" in
        snd (for_each videos body w) = snd (for_each after body w2)
        ∧ Processing video ∈ stdout w2
        ∧ (∀ out,
             ffmpeg e (files w1) (metadata_command video (metadata video) temp) = Exit0 out →
             MetadataAdded video ∈ stdout w2
             ∧ (thm ≠ video → files w2 !! video = Some out)
             ∧ ∀ thumbnail c,
                 thumbnail_path = Some thumbnail →
                 <[video := out]> (delete temp (files w1)) !! thumbnail = Some c →
                 copy2_fails e thumbnail thm = false →
                 files w2 !! thm = Some c ∧ ThumbnailCreated video ∈ stdout w2)
        ∧ (∀ partial,
             ffmpeg e (files w1) (metadata_command video (metadata video) temp)
             = ExitNonZero partial →
             MetadataFailed video ∈ stdout w2
             ∧ files w2 !! video = files w1 !! video).

End Run.

(* ===================================================================== *)
(** ** The format of a tag *)
(* ===================================================================== *)

Module Tags.
Import Text Shape.

(** What [:02d] writes: two digits, or more than two that do not begin
    with a zero. *)
Definition padded (d : string) : bool :=
  all_chars is_digit d
  && ((String.length d =? 2)%nat
      || ((2 <? String.length d)%nat && negb (starts_with (Ascii.eqb "0") d))).

(** S<padded>E<padded> or E<padded>. *)
Definition is_tag (tag : string) : bool :=
  match tag with
  | String c r =>
      if Ascii.eqb c "S" then
        padded (digits_of r)
        && match after_digits r with
           | String e r2 => Ascii.eqb e "E" && padded r2
           | EmptyString => false
           end
      else Ascii.eqb c "E" && padded r
  | EmptyString => false
  end.

(** The letter [l], in either case, occurs in [f]. *)
Definition has_letter (l : ascii) (f : string) : bool :=
  any_char (λ c, Ascii.eqb (lower c) l) f.

End Tags.

(* ===================================================================== *)
(** ** Words for the statements on a batch *)
(* ===================================================================== *)

Module Batch.
Import Text Fs Writer.

(** What the loop of [cleanup_for_psp] prints for one name. *)
Definition report (e : env) (dir : directory) (filename : string) : list message :=
  match dir !! filename with
  | Some _ => if unlink_fails e filename then [FailedToRemove filename] else [Removed filename]
  | None => []
  end.

(** The names [cleanup_for_psp] finds and is allowed to delete. *)
Definition removable (e : env) (dir : directory) (names : list string) : list string :=
  filter (λ name, is_Some (dir !! name) ∧ unlink_fails e name = false) names.

(** Sidecars, for a loop body that tags [video] with [metadata video]
    while "thumbnail.jpg" holds [thumb]: a video the transcoder accepts at
    its turn has, when the whole run is over, the sidecar <stem>.THM with
    the content of the thumbnail, unless the copy was refused, which is
    reported. *)
Definition sidecars (e : env) (body : string → M unit) (metadata : string → dict)
    (thumb : string) (w_loop : world) (mp4_files : list string) (w_end : world) : Prop :=
  ∀ before video after, mp4_files = (before ++ video :: after)%list →
    let w1 := snd (for_each before body w_loop) in
    ∀ out,
      ffmpeg e (files w1)
        (metadata_command video (metadata video) (with_suffix video ".temp.mp4"))
      = Exit0 out →
      if copy2_fails e "thumbnail.jpg" (with_suffix video ".THM")
      then ThumbnailFailed video ∈ stdout w_end
      else files w_end !! with_suffix video ".THM" = Some thumb
           ∧ ThumbnailCreated video ∈ stdout w_end.

(** The videos after a run, for a loop body that tags [video] with
    [metadata video]: a video of the list holds what the transcoder made of
    it at its turn, or what it held before the run when the transcoder
    failed; a .mp4 file that is not in the list is as it was before the
    run. *)
Definition tagged_or_kept (e : env) (body : string → M unit) (metadata : string → dict)
    (w w_loop : world) (mp4_files : list string) (w_end : world) : Prop :=
  (∀ before video after, mp4_files = (before ++ video :: after)%list →
     let w1 := snd (for_each before body w_loop) in
     let result :=
       ffmpeg e (files w1)
         (metadata_command video (metadata video) (with_suffix video ".temp.mp4")) in
     (∀ out, result = Exit0 out → files w_end !! video = Some out)
     ∧ (∀ partial, result = ExitNonZero partial → files w_end !! video = files w !! video))
  ∧ (∀ name, ends_with ".mp4" name = true → name ∉ mp4_files →
       files w_end !! name = files w !! name).

End Batch.

(* ===================================================================== *)
(** ** The questions, the constructor, run and main *)
(* ===================================================================== *)

Module Console.
Import Text Shape Fs Writer.

(** What [input()] meets: a line of text, or the interrupt key.  When the
    list is used up, the input has ended.  The text has code points below
    256, as the filenames have.  The interrupt key is pressed, if at all,
    while the program waits for an answer. *)
Inductive event := Line (text : string) | Interrupt.

(** The three questions. *)
Inductive prompt := DirectoryPrompt | ContentTypePrompt | ShowNamePrompt.

(** What the interactive part can raise.  [Failed] carries an exception of
    the writer; [FileNotFoundError] is the transcoder that is not
    installed.  [KeyboardInterrupt] and [SystemExit] are no [Exception]s. *)
Inductive raised :=
| Failed (ex : exn)
| EOFError
| FileNotFoundError
| KeyboardInterrupt
| SystemExit (status : nat).

Definition is_Exception (ex : raised) : bool :=
  match ex with
  | KeyboardInterrupt | SystemExit _ => false
  | _ => true
  end.

(** What the interactive part prints, one constructor for each [print]. *)
Inductive notice :=
| FfmpegNotInstalled | PleaseInstall | InstallOnMac | InstallOnLinux
| EnterValidDirectory
| DoesNotExist (directory : string)
| IsNotADirectory (directory : string)
| NoMp4FilesIn (directory : string)
| FoundMp4FilesIn (n : nat) (directory : string)
| InvalidContentType
| EnterValidShowName
| Title | Introduction
| ProcessingComplete | ReadyForPsp
| OperationCancelled
| UnexpectedError (ex : raised).

(** A line of the terminal: a prompt of [input], a line of the
    interactive part, a line of the writer. *)
Inductive line := Asked (p : prompt) | Told (n : notice) | Printed (m : message).

(** A path of the disk leads to a file or to a directory. *)
Inductive node := IsFile | IsDir (content : directory).

(** The outcome of [ffmpeg -version]: status 0, another status, or no such
    program. *)
Inductive probe := Answers | ExitsNonZero | NotFound.

(** The machine: the probe of the transcoder and [os.path.expanduser]. *)
Record host := Host {
  ffmpeg_version : probe;
  expanduser : string → string;
}.

(** A session at the terminal: the input still to come, the lines on the
    terminal, the disk, by path as the user spells it, and the command
    lines of the processes started. *)
Record session := Session {
  stdin : list event;
  terminal : list line;
  disk : gmap string node;
  processes : list (list string);
}.

Definition IO (A : Type) : Type := session → (A + raised) * session.

#[export] Instance IO_ret : MRet IO := λ A (a : A) s, (inl a, s).
#[export] Instance IO_bind : MBind IO := λ A B (k : A → IO B) (m : IO A) s,
  match m s with
  | (inl a, s') => k a s'
  | (inr ex, s') => (inr ex, s')
  end.

(** [try: body / except <those for which the handler is defined>]. *)
Definition try_handle {A} (body : IO A) (handler : raised → option (IO A)) : IO A :=
  λ s, match body s with
       | (inl a, s') => (inl a, s')
       | (inr ex, s') =>
           match handler ex with
           | Some h => h s'
           | None => (inr ex, s')
           end
       end.

Definition tell (n : notice) : IO unit :=
  λ s, (inl (), Session (stdin s) (terminal s ++ [Told n])%list (disk s) (processes s)).

Definition sys_exit {A} (status : nat) : IO A :=
  λ s, (inr (SystemExit status), s).

(** [Path(directory)] on the disk. *)
Definition stat (path : string) : IO (option node) :=
  λ s, (inl (disk s !! path), s).

(** The prompt is shown and the next event is taken. *)
Definition prompted (p : prompt) (rest : list event) (s : session) : session :=
  Session rest (terminal s ++ [Asked p])%list (disk s) (processes s).

(** [while True: text = input(p); body], where the body returns a value
    or goes round again.  Each turn takes one event of the input, on which
    the recursion goes; the bodies below print and look at the disk, they do
    not read.  [input] raises [EOFError] at the end of the input and
    [KeyboardInterrupt] on the interrupt key. *)
Fixpoint asking {A} (p : prompt) (body : string → IO (option A)) (pending : list event)
  : IO A :=
  λ s,
    match pending with
    | [] => (inr EOFError, prompted p [] s)
    | Interrupt :: rest => (inr KeyboardInterrupt, prompted p rest s)
    | Line text :: rest =>
        match body text (prompted p rest s) with
        | (inl (Some a), s') => (inl a, s')
        | (inl None, s') => asking p body rest s'
        | (inr ex, s') => (inr ex, s')
        end
    end.

Definition while_true_input {A} (p : prompt) (body : string → IO (option A)) : IO A :=
  λ s, asking p body (stdin s) s.

(** [str.strip()]: the blanks at both ends are cut off. *)
Fixpoint rstrip (s : string) : string :=
  match s with
  | EmptyString => EmptyString
  | String c s' =>
      match rstrip s' with
      | EmptyString => if is_space c then EmptyString else String c EmptyString
      | r => String c r
      end
  end.

Definition strip (s : string) : string := rstrip (drop_while is_space s).

(** [str.upper()] of a character below 256, as code points: the sharp s
    becomes SS, the micro sign and the y with diaeresis leave the range. *)
Definition upper_char (c : ascii) : list N :=
  let n := code c in
  if ((97 <=? n) && (n <=? 122))%N then [n - 32]%N
  else if (n =? 181)%N then [924%N]
  else if (n =? 223)%N then [83%N; 83%N]
  else if ((224 <=? n) && (n <=? 254) && negb (n =? 247))%N then [n - 32]%N
  else if (n =? 255)%N then [376%N]
  else [n].

Fixpoint upper (s : string) : list N :=
  match s with
  | EmptyString => []
  | String c s' => (upper_char c ++ upper s')%list
  end.

Fixpoint code_points (s : string) : list N :=
  match s with
  | EmptyString => []
  | String c s' => code c :: code_points s'
  end.

(** [text in words], for a text given by its code points. *)
Definition is_in (text : list N) (words : list string) : bool :=
  bool_decide (text ∈ code_points <$> words).

(** What [get_content_type] makes of one answer. *)
Definition content_type_of (text : string) : option string :=
  let content_type := upper (strip text) in
  if is_in content_type ["M"; "MOVIE"] then Some "movie"
  else if is_in content_type ["T"; "TV"; "TV SHOW"; "SHOW"] then Some "tv_show"
  else None.

Definition get_content_type : IO string :=
  while_true_input ContentTypePrompt (λ text,
    match content_type_of text with
    | Some content_type => mret (Some content_type)
    | None => tell InvalidContentType ;; mret None
    end).

Definition get_tv_show_name : IO string :=
  while_true_input ShowNamePrompt (λ text,
    let show_name := strip text in
    if negb (String.eqb show_name "") then mret (Some show_name)
    else tell EnterValidShowName ;; mret None).

(** [list(path.glob("*.mp4"))] for a directory of the disk. *)
Definition glob_mp4_in (e : env) (content : directory) : list string :=
  filter (λ n, ends_with ".mp4" n = true ∧ is_Some (content !! n)) (scandir e content).

Definition get_directory (h : host) (e : env) : IO string :=
  while_true_input DirectoryPrompt (λ text,
    let directory := strip text in
    if String.eqb directory "" then tell EnterValidDirectory ;; mret None
    else
      let directory := expanduser h directory in
      path ← stat directory;
      match path with
      | None => tell (DoesNotExist directory) ;; mret None
      | Some IsFile => tell (IsNotADirectory directory) ;; mret None
      | Some (IsDir content) =>
          let mp4_files := glob_mp4_in e content in
          match mp4_files with
          | [] => tell (NoMp4FilesIn directory) ;; mret None
          | _ => tell (FoundMp4FilesIn (length mp4_files) directory) ;;
                 mret (Some directory)
          end
      end).

(** [subprocess.run(['ffmpeg', '-version'], capture_output=True,
    check=True)]. *)
Definition subprocess_run_version (h : host) : IO unit :=
  λ s,
    let started :=
      Session (stdin s) (terminal s) (disk s) (processes s ++ [["ffmpeg"; "-version"]])%list in
    match ffmpeg_version h with
    | Answers => (inl (), started)
    | ExitsNonZero => (inr (Failed CalledProcessError), started)
    | NotFound => (inr FileNotFoundError, s)
    end.

Definition _check_ffmpeg (h : host) : IO bool :=
  try_handle
    (subprocess_run_version h ;; mret true)
    (λ ex, match ex with
           | Failed CalledProcessError | FileNotFoundError => Some (mret false)
           | _ => None
           end).

(** The constructor; its result is [self.ffmpeg_available]. *)
Definition __init__ (h : host) : IO bool :=
  ffmpeg_available ← _check_ffmpeg h;
  if negb ffmpeg_available then
    tell FfmpegNotInstalled ;; tell PleaseInstall ;; tell InstallOnMac ;;
    tell InstallOnLinux ;; sys_exit 1
  else mret ffmpeg_available.

(** A method of the writer at work in the directory [path].  The writer
    prints and never reads what is on the terminal: its lines are those
    it prints from an empty screen.  At a path that is no directory
    every test for a file fails and the glob is empty.  An exception of
    the writer is an [Exception] for [run].  A command line that
    [subprocess.run] refuses for a NUL starts no process; the others are
    kept as the writer has them, with the files of the directory under
    their names. *)
Definition in_directory {A} (path : string) (m : M A) : IO A :=
  λ s,
    let content := match disk s !! path with Some (IsDir d) => d | _ => ∅ end in
    let r := m (World content [] []) in
    (match fst r with inl a => inl a | inr ex => inr (Failed ex) end,
     Session (stdin s) (terminal s ++ map Printed (stdout (snd r)))%list
       (match disk s !! path with
        | Some (IsDir _) => <[path := IsDir (files (snd r))]> (disk s)
        | _ => disk s
        end)
       (processes s ++ filter (λ cmd, embedded_null cmd = false) (spawned (snd r)))%list).

Definition run (h : host) (e : env) : IO unit :=
  tell Title ;; tell Introduction ;;
  try_handle
    (directory ← get_directory h e;
     content_type ← get_content_type;
     (if String.eqb content_type "movie"
      then in_directory directory (process_movies e)
      else show_name ← get_tv_show_name;
           in_directory directory (process_tv_show e show_name)) ;;
     tell ProcessingComplete ;; tell ReadyForPsp)
    (λ ex, match ex with
           | KeyboardInterrupt => Some (tell OperationCancelled)
           | _ => if is_Exception ex
                  then Some (tell (UnexpectedError ex) ;; sys_exit 1)
                  else None
           end).

(** [main], for a command line without arguments, which the parser
    accepts. *)
Definition main (h : host) (e : env) : IO unit :=
  __init__ h ;; run h e.

(** *** Words for the statements on the console *)

(** Lines added to the terminal. *)
Definition told (lines : list line) (s : session) : session :=
  Session (stdin s) (terminal s ++ lines)%list (disk s) (processes s).

(** How [run] ends after the writer: its closing lines and its result,
    for a writer that returned and for one that raised. *)
Definition closing (result : unit + exn) : list line :=
  match result with
  | inl _ => [Told ProcessingComplete; Told ReadyForPsp]
  | inr ex => [Told (UnexpectedError (Failed ex))]
  end.

Definition exit_of (result : unit + exn) : unit + raised :=
  match result with
  | inl _ => inl ()
  | inr _ => inr (SystemExit 1)
  end.

(** A line of the dialogue, as opposed to a line of the writer. *)
Definition is_dialogue (l : line) : bool :=
  match l with
  | Printed _ => false
  | _ => true
  end.

(** What [get_directory] makes of one line: the directory it returns, if
    it does, and what it prints. *)
Definition directory_answer (h : host) (e : env) (d : gmap string node) (text : string)
  : option string * list notice :=
  let directory := strip text in
  if String.eqb directory "" then (None, [EnterValidDirectory])
  else
    let directory := expanduser h directory in
    match d !! directory with
    | None => (None, [DoesNotExist directory])
    | Some IsFile => (None, [IsNotADirectory directory])
    | Some (IsDir content) =>
        match glob_mp4_in e content with
        | [] => (None, [NoMp4FilesIn directory])
        | mp4_files => (Some directory, [FoundMp4FilesIn (length mp4_files) directory])
        end
    end.

(** The same for [get_content_type] and [get_tv_show_name]. *)
Definition content_type_answer (text : string) : option string * list notice :=
  match content_type_of text with
  | Some content_type => (Some content_type, [])
  | None => (None, [InvalidContentType])
  end.

Definition show_name_answer (text : string) : option string * list notice :=
  if negb (String.eqb (strip text) "") then (Some (strip text), [])
  else (None, [EnterValidShowName]).

(** The lines of one turn of a loop that asks. *)
Definition turn_lines (p : prompt) (answer : string → option string * list notice)
    (text : string) : list line :=
  Asked p :: (Told <$> snd (answer text)).

(** A capital letter of ASCII or a space. *)
Definition is_capital_or_space (c : ascii) : bool :=
  (((65 <=? code c) && (code c <=? 90)) || (code c =? 32))%N.

Fixpoint no_double_s (w : string) : bool :=
  match w with
  | String a w' =>
      negb (Ascii.eqb a "S" && starts_with (Ascii.eqb "S") w') && no_double_s w'
  | EmptyString => true
  end.

(** A word of capital letters and spaces in which no S follows an S. *)
Definition plain_word (w : string) : bool :=
  all_chars is_capital_or_space w && no_double_s w.

End Console.

(* ===================================================================== *)
(** ** The definitions at work *)
(* ===================================================================== *)

Example fmt02d_examples :
  Text.fmt02d 0 = "00" ∧ Text.fmt02d 7 = "07" ∧ Text.fmt02d 10 = "10"
  ∧ Text.fmt02d 123 = "123" ∧ Text.int "007" = 7%N.
Proof. repeat split; reflexivity. Qed.

Example path_examples :
  Text.stem "Show.s1e2.mp4" = "Show.s1e2"
  ∧ Text.with_suffix "Show.s1e2.mp4" ".temp.mp4" = "Show.s1e2.temp.mp4"
  ∧ Text.with_suffix "a.mp4" ".THM" = "a.THM"
  ∧ Text.stem ".mp4" = ".mp4" ∧ Text.stem "name." = "name.".
Proof. repeat split; reflexivity. Qed.

Example search_examples :
  Re.groups <$> Re.search Episode.pat_s_e "zzS12e345x" Re.IGNORECASE = Some ["12"; "345"]
  ∧ Re.m_start <$> Re.search Episode.pat_s_e "zzS12e345x" Re.IGNORECASE = Some 2%nat
  ∧ Re.m_end <$> Re.search Episode.pat_s_e "zzS12e345x" Re.IGNORECASE = Some 9%nat
  ∧ Re.search Episode.pat_dash "a1-" Re.NOFLAG = None.
Proof. repeat split; reflexivity. Qed.

Example extract_episode_number_examples :
  Episode.extract_episode_number "show 3x123 " = Some "S03E123"
  ∧ Episode.extract_episode_number "Episode  12" = Some "E12"
  ∧ Episode.extract_episode_number "Ep 5" = Some "E05"
  ∧ Episode.extract_episode_number "a 1080 b 7" = Some "E1080".
Proof. repeat split; reflexivity. Qed.

(* ===================================================================== *)
(** ** The matcher on the seven patterns *)
(* ===================================================================== *)

Module ReFacts.
Import Text Re Episode Shape.

Lemma sapp_nil_l (s : string) : "" +:+ s = s.
Proof. reflexivity. Qed.

Lemma sapp_cons c (s t : string) : String c s +:+ t = String c (s +:+ t).
Proof. reflexivity. Qed.

Lemma sapp_nil_r (s : string) : s +:+ "" = s.
Proof. induction s as [|c s IH]; [done|]. by rewrite sapp_cons, IH. Qed.

Lemma sapp_assoc (s t u : string) : (s +:+ t) +:+ u = s +:+ (t +:+ u).
Proof. induction s as [|c s IH]; [done|]. by rewrite !sapp_cons, IH. Qed.

Lemma sapp_length (s t : string) :
  String.length (s +:+ t) = String.length s + String.length t.
Proof. induction s as [|c s IH]; [done|]. rewrite sapp_cons. simpl. by rewrite IH. Qed.

Lemma take_drop_while f s : take_while f s +:+ drop_while f s = s.
Proof.
  induction s as [|c s IH]; simpl; [done|].
  destruct (f c); [by rewrite sapp_cons, IH|done].
Qed.

Lemma drop_while_starts f s : starts_with f (drop_while f s) = false.
Proof. induction s as [|c s IH]; simpl; [done|]. destruct (f c) eqn:E; simpl; done. Qed.

Lemma all_take_while f s : all_chars f (take_while f s) = true.
Proof.
  induction s as [|c s IH]; simpl; [done|].
  destruct (f c) eqn:E; simpl; [by rewrite E|done].
Qed.

Lemma substring_prefix w t : substring 0 (String.length w) (w +:+ t) = w.
Proof.
  induction w as [|c w IH]; [by destruct t|]. rewrite sapp_cons. simpl. by rewrite IH.
Qed.

Lemma substring_take_while f s :
  substring 0 (String.length (take_while f s)) s = take_while f s.
Proof. rewrite <- (take_drop_while f s) at 2. apply substring_prefix. Qed.

Section Greedy.
Context {R : Type} (ic : bool).

Lemma many_greedy a pos s (k : nat → string → option R) :
  (∀ p t, starts_with (cmatch ic a) t = true → k p t = None) ∨ (∀ p t, is_Some (k p t)) →
  many ic a pos s k
  = k (pos + String.length (take_while (cmatch ic a) s)) (drop_while (cmatch ic a) s).
Proof.
  intros Hk. revert pos. induction s as [|c s IH]; intros pos; simpl.
  - by rewrite Nat.add_0_r.
  - destruct (cmatch ic a c) eqn:E; simpl; [|by rewrite Nat.add_0_r].
    rewrite IH, Nat.add_succ_r. simpl.
    destruct (k _ _) eqn:Ek; [done|].
    destruct Hk as [Hk|Hk].
    + apply Hk. simpl. done.
    + destruct (Hk (S (pos + String.length (take_while (cmatch ic a) s)))
                   (drop_while (cmatch ic a) s)) as [x Hx]. congruence.
Qed.

Lemma bt_star a pos s caps (k : nat → string → list string → option R) :
  rejects ic a k ∨ accepts_all k →
  bt ic (Star a) pos s caps k
  = k (pos + String.length (take_while (cmatch ic a) s)) (drop_while (cmatch ic a) s) caps.
Proof.
  intros Hk. simpl. rewrite many_greedy; [done|].
  destruct Hk as [Hk|Hk]; [left|right]; intros; apply Hk; done.
Qed.

Lemma bt_plus a pos s caps (k : nat → string → list string → option R) :
  rejects ic a k ∨ accepts_all k →
  bt ic (Plus a) pos s caps k
  = if starts_with (cmatch ic a) s
    then k (pos + String.length (take_while (cmatch ic a) s)) (drop_while (cmatch ic a) s) caps
    else None.
Proof.
  intros Hk. destruct s as [|c s]; simpl; [done|].
  destruct (cmatch ic a c) eqn:E; [|done].
  rewrite many_greedy.
  - simpl. by rewrite Nat.add_succ_r.
  - destruct Hk as [Hk|Hk]; [left|right]; intros; apply Hk; done.
Qed.

Lemma bt_group_plus a pos s caps (k : nat → string → list string → option R) :
  rejects ic a k ∨ accepts_all k →
  bt ic (Group (Plus a)) pos s caps k
  = if starts_with (cmatch ic a) s
    then k (pos + String.length (take_while (cmatch ic a) s)) (drop_while (cmatch ic a) s)
           (caps ++ [take_while (cmatch ic a) s])%list
    else None.
Proof.
  intros Hk. change (bt ic (Group (Plus a)) pos s caps k)
    with (bt ic (Plus a) pos s caps
            (λ p t caps', k p t (caps' ++ [substring 0 (p - pos) s])%list)).
  rewrite bt_plus.
  - destruct (starts_with _ s); [|done].
    replace (pos + String.length (take_while (cmatch ic a) s) - pos)
      with (String.length (take_while (cmatch ic a) s)) by lia.
    by rewrite substring_take_while.
  - destruct Hk as [Hk|Hk]; [left|right]; intros p t c; [intros Ht|]; apply Hk; done.
Qed.
End Greedy.

(** *** Facts on the character classes *)

Ltac by_cases_on c := destruct c as [[] [] [] [] [] [] [] []]; vm_compute; try done.

Lemma lower_digit c : is_digit c = true → lower c = c.
Proof. by_cases_on c. Qed.

Lemma is_digit_lower c : is_digit (lower c) = is_digit c.
Proof. by_cases_on c. Qed.

Lemma space_not_digit c : is_space c = true → is_digit c = false.
Proof. by_cases_on c. Qed.

Lemma digit_not_lit ic l c :
  is_digit l = false → is_digit c = true → cmatch ic (Lit l) c = false.
Proof.
  intros Hl Hc. simpl. destruct ic.
  - apply Ascii.eqb_neq. intros E. rewrite (lower_digit c Hc) in E.
    rewrite <- is_digit_lower, E in Hl. congruence.
  - apply Ascii.eqb_neq. intros ->. congruence.
Qed.

Section Continuations.
Context {R : Type} (ic : bool).
Implicit Types k : nat → string → list string → option R.

Lemma bt_cat r1 r2 pos s caps k :
  bt ic (r1 +> r2) pos s caps k = bt ic r1 pos s caps (λ p t c, bt ic r2 p t c k).
Proof. reflexivity. Qed.

Lemma bt_chr a pos s caps k :
  bt ic (Chr a) pos s caps k
  = match s with
    | String c s' => if cmatch ic a c then k (S pos) s' caps else None
    | EmptyString => None
    end.
Proof. reflexivity. Qed.

Lemma bt_bol pos s caps k :
  bt ic Bol pos s caps k = if (pos =? 0)%nat then k pos s caps else None.
Proof. reflexivity. Qed.

Lemma rejects_chr a b k :
  (∀ c, cmatch ic a c = true → cmatch ic b c = false) →
  rejects ic a (λ p t c, bt ic (Chr b) p t c k).
Proof.
  intros H p [|c t] caps; simpl; [done|]. intros Hc. by rewrite (H c Hc).
Qed.

Lemma rejects_chr_cat a b r k :
  (∀ c, cmatch ic a c = true → cmatch ic b c = false) →
  rejects ic a (λ p t c, bt ic (Chr b +> r) p t c k).
Proof.
  intros H p [|c t] caps; simpl; [done|]. intros Hc. by rewrite (H c Hc).
Qed.

Lemma rejects_group_plus a b k :
  (∀ c, cmatch ic a c = true → cmatch ic b c = false) →
  rejects ic a (λ p t c, bt ic (Group (Plus b)) p t c k).
Proof.
  intros H p [|c t] caps; simpl; [done|]. intros Hc. by rewrite (H c Hc).
Qed.
End Continuations.

Lemma accepts_all_final pos :
  accepts_all (λ p (_ : string) caps, Some (Match pos p caps)).
Proof. intros p t c. eauto. Qed.

(** *** The seven patterns, one position at a time

    Each pattern has a single way to match at a given position: what
    follows a repetition never starts with a character of the repeated
    class. *)

Ltac fold_classes :=
  repeat match goal with
  | |- context [cmatch ?i Digit] => change (cmatch i Digit) with is_digit
  | |- context [cmatch ?i Space] => change (cmatch i Space) with is_space
  end.

Lemma match_at_number ic pos s :
  groups <$> match_at ic pat_number pos s = number_at s.
Proof.
  unfold match_at, pat_number, number_at.
  rewrite bt_group_plus by (right; apply accepts_all_final).
  fold_classes. by destruct (starts_with is_digit s).
Qed.

Lemma match_at_s_e pos s :
  groups <$> match_at true pat_s_e pos s = s_e_at s.
Proof.
  unfold match_at, pat_s_e, s_e_at.
  rewrite bt_cat, bt_chr. destruct s as [|c s1]; [done|].
  unfold cmatch at 1. fold (lit_ci "S" c). destruct (lit_ci "S" c); cbn [andb].
  2:{ by destruct (after_digits s1). }
  rewrite bt_cat, bt_group_plus
    by (left; apply rejects_chr_cat; intros d Hd; by apply digit_not_lit).
  fold_classes.
  destruct (starts_with is_digit s1); cbn [andb].
  2:{ by destruct (after_digits s1). }
  rewrite bt_cat, bt_chr. destruct (after_digits s1) as [|e r2]; [done|].
  unfold cmatch at 1. fold (lit_ci "E" e). destruct (lit_ci "E" e); cbn [andb]; [|done].
  rewrite bt_group_plus by (right; apply accepts_all_final).
  fold_classes. by destruct (starts_with is_digit r2).
Qed.

Lemma match_at_s_x_e pos s :
  groups <$> match_at true pat_s_x_e pos s = s_x_e_at s.
Proof.
  unfold match_at, pat_s_x_e, s_x_e_at.
  rewrite bt_cat, bt_group_plus
    by (left; apply rejects_chr_cat; intros d Hd; by apply digit_not_lit).
  fold_classes.
  destruct (starts_with is_digit s); cbn [andb].
  2:{ by destruct (after_digits s). }
  rewrite bt_cat, bt_chr. destruct (after_digits s) as [|x r2]; [done|].
  unfold cmatch at 1. fold (lit_ci "x" x). destruct (lit_ci "x" x); cbn [andb]; [|done].
  rewrite bt_group_plus by (right; apply accepts_all_final).
  fold_classes. by destruct (starts_with is_digit r2).
Qed.

Lemma match_at_dash pos s :
  groups <$> match_at false pat_dash pos s = if (pos =? 0)%nat then dash_at s else None.
Proof.
  unfold match_at, pat_dash, dash_at.
  rewrite bt_cat, bt_bol. destruct (pos =? 0)%nat; [|done].
  rewrite bt_cat, bt_group_plus
    by (left; apply rejects_chr; intros d Hd; by apply digit_not_lit).
  fold_classes.
  destruct (starts_with is_digit s); cbn [andb].
  2:{ by destruct (after_digits s). }
  rewrite bt_chr. destruct (after_digits s) as [|d r2]; [done|].
  unfold cmatch. by destruct (Ascii.eqb "-" d).
Qed.

Lemma bt_word {R} w tail pos s caps (k : nat → string → list string → option R) :
  bt true (word w tail) pos s caps k
  = match word_ci w s with
    | Some t => bt true tail (pos + String.length w) t caps k
    | None => None
    end.
Proof.
  revert pos s. induction w as [|l w IH]; intros pos s.
  - simpl. by rewrite Nat.add_0_r.
  - simpl word. rewrite bt_cat, bt_chr. destruct s as [|c s]; [done|].
    simpl. fold (lit_ci l c). destruct (lit_ci l c); [|done].
    by rewrite IH, Nat.add_succ_r.
Qed.

Lemma match_at_ep pos s :
  groups <$> match_at true pat_ep pos s = ep_at s.
Proof.
  unfold match_at, pat_ep, ep_at. rewrite bt_word.
  destruct s as [|e [|p s1]]; simpl word_ci; [done| |].
  - by destruct (lit_ci "E" e).
  - destruct (lit_ci "E" e); [|done]. destruct (lit_ci "P" p); [|done]. cbn [andb].
    rewrite bt_group_plus by (right; apply accepts_all_final).
    fold_classes. by destruct (starts_with is_digit s1).
Qed.

Lemma match_at_word_blank_number w pos s :
  groups <$> match_at true (word w (Star Space +> Group (Plus Digit))) pos s
  = word_blank_number_at w s.
Proof.
  unfold match_at, word_blank_number_at, number_at. rewrite bt_word.
  destruct (word_ci w s) as [t|]; [|done].
  rewrite bt_cat, bt_star
    by (left; apply rejects_group_plus; intros c Hc; by apply space_not_digit).
  rewrite bt_group_plus by (right; apply accepts_all_final).
  fold_classes. by destruct (starts_with is_digit (drop_while is_space t)).
Qed.

(** *** [re.search]: the leftmost position that matches *)

Lemma search_from_groups ic r pos s :
  search_from ic r pos s =
  match match_at ic r pos s with
  | Some m => Some m
  | None => match s with
            | EmptyString => None
            | String _ s' => search_from ic r (S pos) s'
            end
  end.
Proof. by destruct s. Qed.

Lemma search_from_first_suffix ic r (f : string → option (list string)) pos s :
  (∀ p t, groups <$> match_at ic r p t = f t) →
  groups <$> search_from ic r pos s = first_suffix f s.
Proof.
  intros H. revert pos. induction s as [|c s IH]; intros pos; simpl.
  - rewrite <- (H pos ""). by destruct (match_at ic r pos "").
  - rewrite <- (H pos (String c s)).
    destruct (match_at ic r pos (String c s)); simpl; [done|]. apply IH.
Qed.

Lemma first_suffix_none {A} (f : string → option A) s :
  first_suffix f s = None ↔ ∀ pre t, s = pre +:+ t → f t = None.
Proof.
  induction s as [|c s IH]; simpl.
  - split.
    + intros H pre t E. destruct pre; [|done]. rewrite sapp_nil_l in E. subst t.
      by destruct (f "").
    + intros H. by rewrite (H "" "").
  - split.
    + intros H pre t E. destruct (f (String c s)) eqn:Ef; [done|].
      destruct pre as [|c' pre].
      * rewrite sapp_nil_l in E. by subst t.
      * rewrite sapp_cons in E. injection E as -> E. by apply (proj1 IH H pre t).
    + intros H. rewrite (H "" (String c s)) by done.
      apply IH. intros pre t E. apply (H (String c pre) t). by rewrite sapp_cons, E.
Qed.

Lemma first_suffix_some {A} (f : string → option A) s x :
  first_suffix f s = Some x ↔
  ∃ pre t, s = pre +:+ t ∧ f t = Some x ∧
    ∀ pre1 t1, s = pre1 +:+ t1 → String.length pre1 < String.length pre → f t1 = None.
Proof.
  induction s as [|c s IH]; simpl.
  - split.
    + intros H. exists "", "". destruct (f "") eqn:Ef; [|done].
      split; [done|]. split; [done|]. simpl. lia.
    + intros (pre & t & E & Hf & _). destruct pre; [|done].
      rewrite sapp_nil_l in E. subst t. by rewrite Hf.
  - split.
    + intros H. destruct (f (String c s)) eqn:Ef.
      * exists "", (String c s). split; [done|]. split; [congruence|]. simpl. lia.
      * apply IH in H as (pre & t & E & Hf & Hmin).
        subst s. exists (String c pre), t. rewrite sapp_cons. split; [done|]. split; [done|].
        intros [|c1 pre1] t1 E1 Hlt.
        -- rewrite sapp_nil_l in E1. by subst t1.
        -- rewrite sapp_cons in E1. injection E1 as -> E1.
           apply (Hmin pre1 t1 E1). simpl in Hlt. lia.
    + intros (pre & t & E & Hf & Hmin). destruct pre as [|c' pre].
      * rewrite sapp_nil_l in E. subst t. by rewrite Hf.
      * rewrite sapp_cons in E. injection E as -> E.
        rewrite (Hmin "" (String c' s)); [|done|simpl; lia].
        apply IH. exists pre, t. split; [done|]. split; [done|].
        intros pre1 t1 E1 Hlt. apply (Hmin (String c' pre1) t1).
        -- by rewrite sapp_cons, E1.
        -- simpl. lia.
Qed.

(** *** Runs of digits *)

Lemma is_number_cons d : is_number d = true →
  ∃ c d', d = String c d' ∧ is_digit c = true ∧ all_chars is_digit d' = true.
Proof.
  destruct d as [|c d']; [done|]. unfold is_number. simpl.
  intros H. apply andb_prop in H as [Hc Hd]. eauto.
Qed.

Lemma take_while_all f d post :
  all_chars f d = true → starts_with f post = false →
  take_while f (d +:+ post) = d ∧ drop_while f (d +:+ post) = post.
Proof.
  intros Hd Hp. induction d as [|c d IH].
  - rewrite sapp_nil_l. destruct post as [|c post]; [done|]. simpl in *. by rewrite Hp.
  - simpl in Hd. apply andb_prop in Hd as [Hc Hd]. rewrite sapp_cons. simpl. rewrite Hc.
    destruct (IH Hd) as [-> ->]. done.
Qed.

Lemma span_number d post :
  is_number d = true → starts_with is_digit post = false →
  digits_of (d +:+ post) = d ∧ after_digits (d +:+ post) = post
  ∧ starts_with is_digit (d +:+ post) = true.
Proof.
  intros Hd Hp. destruct (is_number_cons d Hd) as (c & d' & -> & Hc & Hd').
  destruct (take_while_all is_digit (String c d') post) as [-> ->]; [simpl; by rewrite Hc| done |].
  rewrite sapp_cons. simpl. done.
Qed.

Lemma number_starts d post :
  is_number d = true → starts_with is_digit (d +:+ post) = true.
Proof.
  intros Hd. destruct (is_number_cons d Hd) as (c & d' & -> & Hc & Hd'). by rewrite sapp_cons.
Qed.

Lemma digits_of_is_number s :
  starts_with is_digit s = true → is_number (digits_of s) = true.
Proof.
  destruct s as [|c s]; [done|]. simpl. intros Hc. rewrite Hc. unfold is_number. simpl.
  rewrite Hc. simpl. apply all_take_while.
Qed.

(** A run of digits in front of [post] reaches at least to [post]. *)
Lemma number_then d post :
  is_number d = true →
  ∃ d' post', d +:+ post = d' +:+ post' ∧ is_number d' = true
    ∧ starts_with is_digit post' = false
    ∧ digits_of (d +:+ post) = d' ∧ after_digits (d +:+ post) = post'.
Proof.
  intros Hd. exists (digits_of (d +:+ post)), (after_digits (d +:+ post)).
  rewrite take_drop_while. split; [done|]. split.
  - apply digits_of_is_number. by apply number_starts.
  - split; [apply drop_while_starts|done].
Qed.

(** *** The leftmost occurrence of a rule *)

Section Leftmost.
Variable at_ : string → option (list string).
Variable sh : shape.
Hypothesis at_some : ∀ t g,
  at_ t = Some g ↔ ∃ post, sh t g post ∧ starts_with is_digit post = false.
Hypothesis extend : ∀ t g post,
  sh t g post → ∃ g' post', sh t g' post' ∧ starts_with is_digit post' = false.

Lemma at_none t : at_ t = None ↔ ¬ ∃ g post, sh t g post.
Proof.
  split.
  - intros Hn (g & post & H). destruct (extend _ _ _ H) as (g' & post' & H' & Hm).
    assert (at_ t = Some g') by (apply at_some; eauto). congruence.
  - intros Hn. destruct (at_ t) as [g|] eqn:E; [|done].
    apply at_some in E as (post & H & _). destruct Hn; eauto.
Qed.

Lemma first_suffix_leftmost f g : first_suffix at_ f = Some g ↔ leftmost sh f g.
Proof.
  rewrite first_suffix_some. split.
  - intros (pre & t & E & Hat & Hmin). apply at_some in Hat as (post & H & Hm).
    exists pre, t, post. repeat (split; [done|]).
    intros pre1 t1 E1 Hlt. apply at_none. by apply (Hmin pre1 t1).
  - intros (pre & t & post & E & H & Hm & Hmin).
    exists pre, t. split; [done|]. split; [apply at_some; eauto|].
    intros pre1 t1 E1 Hlt. apply at_none. by apply (Hmin pre1 t1).
Qed.

Lemma first_suffix_absent f : first_suffix at_ f = None ↔ ¬ contains sh f.
Proof.
  rewrite first_suffix_none. split.
  - intros Hn (pre & t & g & post & E & H).
    pose proof (Hn pre t E) as Hat. apply at_none in Hat. destruct Hat; eauto.
  - intros Hn pre t E. apply at_none. intros (g & post & H).
    destruct Hn. by exists pre, t, g, post.
Qed.

Lemma contains_leftmost f : contains sh f → ∃ g, leftmost sh f g.
Proof.
  intros Hc. destruct (first_suffix at_ f) as [g|] eqn:E.
  - exists g. by apply first_suffix_leftmost.
  - by apply first_suffix_absent in E.
Qed.
End Leftmost.

(** *** Each position matcher against its description *)

Lemma lit_ci_spec l c : lit_ci l c = true ↔ lower c = lower l.
Proof. unfold lit_ci. rewrite Ascii.eqb_eq. split; congruence. Qed.

Lemma letter_not_digit l c : lower c = l → is_digit l = false → is_digit c = false.
Proof. intros <-. by rewrite is_digit_lower. Qed.

Lemma digit_not_space c : is_digit c = true → is_space c = false.
Proof.
  intros Hd. destruct (is_space c) eqn:E; [|done].
  apply space_not_digit in E. congruence.
Qed.

Lemma number_not_blank d post :
  is_number d = true → starts_with is_space (d +:+ post) = false.
Proof.
  intros Hd. destruct (is_number_cons d Hd) as (c & d' & -> & Hc & _).
  rewrite sapp_cons. simpl. by apply digit_not_space.
Qed.

Ltac split_andb :=
  repeat match goal with
  | H : _ && _ = true |- _ => apply andb_prop in H as [? ?]
  | H : (if ?b then _ else _) = Some _ |- _ => destruct b eqn:?; [|discriminate H]
  end.

Lemma number_at_some t g :
  number_at t = Some g ↔ ∃ post, number_shape t g post ∧ starts_with is_digit post = false.
Proof.
  unfold number_at, number_shape. split.
  - intros H. split_andb. injection H as <-. exists (after_digits t). split.
    + exists (digits_of t). rewrite take_drop_while. by rewrite digits_of_is_number.
    + apply drop_while_starts.
  - intros (post & (d & -> & Hd & ->) & Hm).
    destruct (span_number d post Hd Hm) as (-> & _ & ->). done.
Qed.

Lemma number_extend t g post :
  number_shape t g post →
  ∃ g' post', number_shape t g' post' ∧ starts_with is_digit post' = false.
Proof.
  intros (d & -> & Hd & ->).
  destruct (number_then d post Hd) as (d' & post' & E & Hd' & Hm & _).
  exists [d'], post'. split; [|done]. by exists d'.
Qed.

Lemma s_e_at_some t g :
  s_e_at t = Some g ↔ ∃ post, s_e_shape t g post ∧ starts_with is_digit post = false.
Proof.
  unfold s_e_at, s_e_shape. split.
  - intros H. destruct t as [|c s1]; [done|].
    destruct (after_digits s1) as [|e r2] eqn:Ea; [done|].
    split_andb. injection H as <-.
    exists (after_digits r2). split; [|apply drop_while_starts].
    exists c, (digits_of s1), e, (digits_of r2).
    rewrite take_drop_while, <- Ea, take_drop_while.
    rewrite !digits_of_is_number by done.
    repeat match goal with H : lit_ci _ _ = true |- _ => apply lit_ci_spec in H end.
    done.
  - intros (post & (cs & d1 & ce & d2 & -> & Hs & Hd1 & He & Hd2 & ->) & Hm).
    destruct (span_number d1 (String ce (d2 +:+ post)) Hd1) as (-> & -> & ->).
    { simpl. by apply (letter_not_digit "e"). }
    destruct (span_number d2 post Hd2 Hm) as (-> & _ & ->).
    rewrite (proj2 (lit_ci_spec "S" cs)), (proj2 (lit_ci_spec "E" ce)); done.
Qed.

Lemma s_e_extend t g post :
  s_e_shape t g post → ∃ g' post', s_e_shape t g' post' ∧ starts_with is_digit post' = false.
Proof.
  intros (cs & d1 & ce & d2 & -> & Hs & Hd1 & He & Hd2 & ->).
  destruct (number_then d2 post Hd2) as (d' & post' & E & Hd' & Hm & _).
  exists [d1; d']. exists post'. split; [|done].
  exists cs, d1, ce, d'. by rewrite E.
Qed.

Lemma s_x_e_at_some t g :
  s_x_e_at t = Some g ↔ ∃ post, s_x_e_shape t g post ∧ starts_with is_digit post = false.
Proof.
  unfold s_x_e_at, s_x_e_shape. split.
  - intros H. destruct (after_digits t) as [|x r2] eqn:Ea; [done|].
    split_andb. injection H as <-.
    exists (after_digits r2). split; [|apply drop_while_starts].
    exists (digits_of t), x, (digits_of r2).
    rewrite take_drop_while, <- Ea, take_drop_while.
    rewrite !digits_of_is_number by done.
    repeat match goal with H : lit_ci _ _ = true |- _ => apply lit_ci_spec in H end.
    done.
  - intros (post & (d1 & cx & d2 & -> & Hd1 & Hx & Hd2 & ->) & Hm).
    destruct (span_number d1 (String cx (d2 +:+ post)) Hd1) as (-> & -> & ->).
    { simpl. by apply (letter_not_digit "x"). }
    destruct (span_number d2 post Hd2 Hm) as (-> & _ & ->).
    rewrite (proj2 (lit_ci_spec "x" cx)); done.
Qed.

Lemma s_x_e_extend t g post :
  s_x_e_shape t g post →
  ∃ g' post', s_x_e_shape t g' post' ∧ starts_with is_digit post' = false.
Proof.
  intros (d1 & cx & d2 & -> & Hd1 & Hx & Hd2 & ->).
  destruct (number_then d2 post Hd2) as (d' & post' & E & Hd' & Hm & _).
  exists [d1; d']. exists post'. split; [|done].
  exists d1, cx, d'. by rewrite E.
Qed.

Lemma ep_at_some t g :
  ep_at t = Some g ↔ ∃ post, ep_shape t g post ∧ starts_with is_digit post = false.
Proof.
  unfold ep_at, ep_shape. split.
  - intros H. destruct t as [|e [|p s1]]; [done..|].
    split_andb. injection H as <-.
    exists (after_digits s1). split; [|apply drop_while_starts].
    exists e, p, (digits_of s1).
    rewrite take_drop_while, digits_of_is_number by done.
    repeat match goal with H : lit_ci _ _ = true |- _ => apply lit_ci_spec in H end.
    done.
  - intros (post & (ce & cp & d & -> & He & Hp & Hd & ->) & Hm).
    destruct (span_number d post Hd Hm) as (-> & _ & ->).
    rewrite (proj2 (lit_ci_spec "E" ce)), (proj2 (lit_ci_spec "P" cp)); done.
Qed.

Lemma ep_extend t g post :
  ep_shape t g post → ∃ g' post', ep_shape t g' post' ∧ starts_with is_digit post' = false.
Proof.
  intros (ce & cp & d & -> & He & Hp & Hd & ->).
  destruct (number_then d post Hd) as (d' & post' & E & Hd' & Hm & _).
  exists [d'], post'. split; [|done]. exists ce, cp, d'. by rewrite E.
Qed.

Lemma dash_at_some f g : dash_at f = Some g ↔ dash_shape f g.
Proof.
  unfold dash_at, dash_shape. split.
  - intros H. destruct (after_digits f) as [|c rest] eqn:Ea; [done|].
    split_andb. injection H as <-.
    match goal with H : Ascii.eqb _ _ = true |- _ => apply Ascii.eqb_eq in H; subst c end.
    exists (digits_of f), rest. rewrite <- Ea, take_drop_while.
    by rewrite digits_of_is_number.
  - intros (d & rest & -> & Hd & ->).
    destruct (span_number d (String "-" rest) Hd) as (-> & -> & ->); done.
Qed.

Lemma word_ci_some w t t' :
  word_ci w t = Some t' ↔ ∃ w', t = w' +:+ t' ∧ lower_str w' = lower_str w.
Proof.
  revert t. induction w as [|l w IH]; intros t; simpl.
  - split.
    + intros [= ->]. by exists "".
    + intros (w' & -> & Hw). destruct w'; [done|discriminate Hw].
  - destruct t as [|c t].
    + split; [done|]. intros (w' & E & Hw). destruct w'; [discriminate Hw|discriminate E].
    + split.
      * intros H. destruct (lit_ci l c) eqn:El; [|done].
        apply IH in H as (w' & -> & Hw). exists (String c w').
        rewrite sapp_cons. split; [done|]. simpl. apply lit_ci_spec in El. congruence.
      * intros (w' & E & Hw). destruct w' as [|c' w']; [discriminate Hw|].
        rewrite sapp_cons in E. injection E as -> ->. simpl in Hw. injection Hw as Hc Hw.
        rewrite (proj2 (lit_ci_spec l c')) by done. apply IH. eauto.
Qed.

Lemma word_blank_number_at_some w t g :
  word_blank_number_at w t = Some g ↔
  ∃ post, word_blank_number_shape w t g post ∧ starts_with is_digit post = false.
Proof.
  unfold word_blank_number_at, word_blank_number_shape. split.
  - intros H. destruct (word_ci w t) as [t'|] eqn:Ew; [|done].
    apply word_ci_some in Ew as (w' & -> & Hw).
    apply number_at_some in H as (post & (d & E & Hd & ->) & Hm).
    exists post. split; [|done]. exists w', (take_while is_space t'), d.
    rewrite <- E, take_drop_while. by rewrite all_take_while.
  - intros (post & (w' & ws & d & -> & Hw & Hws & Hd & ->) & Hm).
    rewrite (proj2 (word_ci_some w _ (ws +:+ (d +:+ post)))) by eauto.
    destruct (take_while_all is_space ws (d +:+ post) Hws) as [_ ->].
    { by apply number_not_blank. }
    apply number_at_some. exists post. split; [|done]. by exists d.
Qed.

Lemma word_blank_number_extend w t g post :
  word_blank_number_shape w t g post →
  ∃ g' post', word_blank_number_shape w t g' post' ∧ starts_with is_digit post' = false.
Proof.
  intros (w' & ws & d & -> & Hw & Hws & Hd & ->).
  destruct (number_then d post Hd) as (d' & post' & E & Hd' & Hm & _).
  exists [d'], post'. split; [|done]. exists w', ws, d'. by rewrite E.
Qed.

(** *** The ladder of [extract_episode_number] over the position matchers *)

Lemma search_rule1 f : groups <$> search pat_s_e f IGNORECASE = rule1 f.
Proof. apply search_from_first_suffix, match_at_s_e. Qed.
Lemma search_rule2 f : groups <$> search pat_s_x_e f IGNORECASE = rule2 f.
Proof. apply search_from_first_suffix, match_at_s_x_e. Qed.
Lemma search_rule3 f : groups <$> search pat_ep f IGNORECASE = rule3 f.
Proof. apply search_from_first_suffix, match_at_ep. Qed.
Lemma search_rule5 f : groups <$> search pat_episode f IGNORECASE = rule5 f.
Proof. apply search_from_first_suffix, match_at_word_blank_number. Qed.
Lemma search_rule6 f : groups <$> search pat_ep_short f IGNORECASE = rule6 f.
Proof. apply search_from_first_suffix, match_at_word_blank_number. Qed.
Lemma search_rule7 f : groups <$> search pat_number f NOFLAG = rule7 f.
Proof. apply search_from_first_suffix, match_at_number. Qed.

Lemma search_dash_later pos s : search_from false pat_dash (S pos) s = None.
Proof.
  revert pos. induction s as [|c s IH]; intros pos.
  - pose proof (match_at_dash (S pos) "") as H. simpl in *.
    by destruct (match_at false pat_dash (S pos) "").
  - pose proof (match_at_dash (S pos) (String c s)) as H. simpl in *.
    destruct (match_at false pat_dash (S pos) (String c s)); [done|]. apply IH.
Qed.

Lemma search_rule4 f : groups <$> search pat_dash f NOFLAG = rule4 f.
Proof.
  unfold search, rule4. rewrite search_from_groups.
  pose proof (match_at_dash 0 f) as H. simpl in H.
  destruct (match_at false pat_dash 0 f) as [m|]; [done|].
  destruct f as [|c f]; [done|]. by rewrite search_dash_later.
Qed.

Ltac next_rule H :=
  match goal with
  | |- context [search ?p ?f ?fl] =>
      pose proof H as Hr; destruct (search p f fl) as [?m|];
      simpl in Hr; rewrite <- Hr; clear Hr; [reflexivity|]
  end.

Lemma extract_ladder f :
  extract_episode_number f =
  match rule1 f with Some g => Some (season_episode_tag g) | None =>
  match rule2 f with Some g => Some (season_episode_tag g) | None =>
  match rule3 f with Some g => Some (season_one_tag g) | None =>
  match rule4 f with Some g => Some (season_one_tag g) | None =>
  match rule5 f with Some g => Some (episode_tag g) | None =>
  match rule6 f with Some g => Some (episode_tag g) | None =>
  match rule7 f with Some g => Some (episode_tag g) | None => None
  end end end end end end end.
Proof.
  unfold extract_episode_number.
  next_rule (search_rule1 f). next_rule (search_rule2 f). next_rule (search_rule3 f).
  next_rule (search_rule4 f). next_rule (search_rule5 f). next_rule (search_rule6 f).
  pose proof (search_rule7 f) as Hr.
  destruct (search pat_number f NOFLAG); simpl in Hr; by rewrite <- Hr.
Qed.

Lemma rule1_some f g : rule1 f = Some g ↔ leftmost s_e_shape f g.
Proof. apply first_suffix_leftmost; [apply s_e_at_some|apply s_e_extend]. Qed.
Lemma rule1_none f : rule1 f = None ↔ ¬ contains s_e_shape f.
Proof. apply first_suffix_absent; [apply s_e_at_some|apply s_e_extend]. Qed.
Lemma rule2_none f : rule2 f = None ↔ ¬ contains s_x_e_shape f.
Proof. apply first_suffix_absent; [apply s_x_e_at_some|apply s_x_e_extend]. Qed.
Lemma rule3_some f g : rule3 f = Some g ↔ leftmost ep_shape f g.
Proof. apply first_suffix_leftmost; [apply ep_at_some|apply ep_extend]. Qed.
Lemma rule3_none f : rule3 f = None ↔ ¬ contains ep_shape f.
Proof. apply first_suffix_absent; [apply ep_at_some|apply ep_extend]. Qed.
Lemma rule4_some f g : rule4 f = Some g ↔ dash_shape f g.
Proof. apply dash_at_some. Qed.
Lemma rule4_none f : rule4 f = None ↔ ¬ ∃ g, dash_shape f g.
Proof.
  split.
  - intros Hn [g H]. apply rule4_some in H. congruence.
  - intros Hn. destruct (rule4 f) as [g|] eqn:E; [|done].
    apply rule4_some in E. destruct Hn; eauto.
Qed.
Lemma rule5_none f : rule5 f = None ↔ ¬ contains (word_blank_number_shape "Episode") f.
Proof.
  apply first_suffix_absent;
    [apply word_blank_number_at_some|apply word_blank_number_extend].
Qed.
Lemma rule6_some f g : rule6 f = Some g ↔ leftmost (word_blank_number_shape "Ep") f g.
Proof.
  apply first_suffix_leftmost;
    [apply word_blank_number_at_some|apply word_blank_number_extend].
Qed.
Lemma rule6_none f : rule6 f = None ↔ ¬ contains (word_blank_number_shape "Ep") f.
Proof.
  apply first_suffix_absent;
    [apply word_blank_number_at_some|apply word_blank_number_extend].
Qed.
Lemma rule7_some f g : rule7 f = Some g ↔ leftmost number_shape f g.
Proof. apply first_suffix_leftmost; [apply number_at_some|apply number_extend]. Qed.
Lemma rule7_none f : rule7 f = None ↔ ¬ contains number_shape f.
Proof. apply first_suffix_absent; [apply number_at_some|apply number_extend]. Qed.

(** *** Digits in a filename *)

Lemma any_char_app p (a b : string) : any_char p (a +:+ b) = any_char p a || any_char p b.
Proof.
  induction a as [|c a IH]; [done|]. rewrite sapp_cons. simpl. rewrite IH.
  by rewrite orb_assoc.
Qed.

Lemma any_char_split p f :
  any_char p f = true → ∃ pre c rest, f = pre +:+ String c rest ∧ p c = true.
Proof.
  induction f as [|c f IH]; simpl; [done|]. destruct (p c) eqn:E.
  - intros _. by exists "", c, f.
  - simpl. intros H. destruct (IH H) as (pre & c' & rest & -> & Hc).
    by exists (String c pre), c', rest.
Qed.

Lemma number_has_digit d : is_number d = true → any_char is_digit d = true.
Proof.
  intros Hd. destruct (is_number_cons d Hd) as (c & d' & -> & Hc & _). simpl. by rewrite Hc.
Qed.

Lemma s_e_needs_number : needs_number s_e_shape.
Proof.
  intros t g post (cs & d1 & ce & d2 & -> & _ & Hd1 & _). simpl. rewrite any_char_app.
  by rewrite (number_has_digit _ Hd1), orb_true_r.
Qed.
Lemma s_x_e_needs_number : needs_number s_x_e_shape.
Proof.
  intros t g post (d1 & cx & d2 & -> & Hd1 & _). rewrite any_char_app.
  by rewrite (number_has_digit _ Hd1).
Qed.
Lemma ep_needs_number : needs_number ep_shape.
Proof.
  intros t g post (ce & cp & d & -> & _ & _ & Hd & _). simpl. rewrite any_char_app.
  by rewrite (number_has_digit _ Hd), !orb_true_r.
Qed.
Lemma word_blank_number_needs_number w : needs_number (word_blank_number_shape w).
Proof.
  intros t g post (w' & ws & d & -> & _ & _ & Hd & _). rewrite !any_char_app.
  by rewrite (number_has_digit _ Hd), !orb_true_r.
Qed.
Lemma number_needs_number : needs_number number_shape.
Proof.
  intros t g post (d & -> & Hd & _). rewrite any_char_app.
  by rewrite (number_has_digit _ Hd).
Qed.

Lemma no_digit_no_rule sh f :
  needs_number sh → any_char is_digit f = false → ¬ contains sh f.
Proof.
  intros Hsh Hf (pre & t & g & post & -> & H). rewrite any_char_app in Hf.
  rewrite (Hsh _ _ _ H), orb_true_r in Hf. done.
Qed.

Lemma digit_contains_number f : any_char is_digit f = true → contains number_shape f.
Proof.
  intros H. destruct (any_char_split _ _ H) as (pre & c & rest & -> & Hc).
  exists pre, (String c rest), [String c ""], rest. split; [done|].
  exists (String c ""). split; [done|]. split; [|done]. unfold is_number. simpl. by rewrite Hc.
Qed.

Lemma no_digit_no_dash f : any_char is_digit f = false → ¬ ∃ g, dash_shape f g.
Proof.
  intros Hf (g & d & rest & -> & Hd & _). rewrite any_char_app in Hf.
  by rewrite (number_has_digit _ Hd) in Hf.
Qed.

End ReFacts.

Import Text Re Episode Shape ReFacts.

(* ===================================================================== *)
(** ** The episode extractor *)
(* ===================================================================== *)

(** C2: a filename that contains S<digits>E<digits> in any case yields
    the tag S{season:02d}E{episode:02d} of the leftmost such occurrence,
    whatever else it contains; "S01E02 - Episode 3" gives "S01E02" and
    "Show.s1e2" gives "S01E02". *)
Theorem s_e_rule_wins :
  (∀ f, contains s_e_shape f →
     ∃ season episode, leftmost s_e_shape f [season; episode] ∧
       extract_episode_number f
       = Some ("S" +:+ fmt02d (int season) +:+ "E" +:+ fmt02d (int episode)))
  ∧ (∀ f season episode, leftmost s_e_shape f [season; episode] →
       extract_episode_number f
       = Some ("S" +:+ fmt02d (int season) +:+ "E" +:+ fmt02d (int episode)))
  ∧ extract_episode_number "S01E02 - Episode 3" = Some "S01E02"
  ∧ extract_episode_number "Show.s1e2" = Some "S01E02".
Proof.
  assert (Hleft : ∀ f season episode, leftmost s_e_shape f [season; episode] →
       extract_episode_number f
       = Some ("S" +:+ fmt02d (int season) +:+ "E" +:+ fmt02d (int episode))).
  { intros f season episode H. apply rule1_some in H.
    rewrite extract_ladder, H. reflexivity. }
  split; [|split; [exact Hleft|split; reflexivity]].
  intros f Hc.
  destruct (contains_leftmost _ _ s_e_at_some s_e_extend f Hc) as [g Hg].
  assert (∃ season episode, g = [season; episode]) as (season & episode & ->).
  { destruct Hg as (pre & t & post & _ & (cs & d1 & ce & d2 & _ & _ & _ & _ & _ & ->) & _).
    eauto. }
  exists season, episode. split; [done|]. by apply Hleft.
Qed.

Lemma s_e_rule_wins_witness :
  contains s_e_shape "Show.s1e2" ∧
  ∃ season episode, leftmost s_e_shape "Show.s1e2" [season; episode] ∧
    extract_episode_number "Show.s1e2"
    = Some ("S" +:+ fmt02d (int season) +:+ "E" +:+ fmt02d (int episode)).
Proof.
  assert (H : contains s_e_shape "Show.s1e2").
  { exists "Show.", "s1e2", ["1"; "2"], "". split; [reflexivity|].
    exists "s"%char, "1", "e"%char, "2". repeat split; reflexivity. }
  split; [exact H|]. exact (proj1 s_e_rule_wins "Show.s1e2" H).
Defined.

Lemma leftmost_one_group sh f g :
  (∀ t g post, sh t g post → ∃ d, g = [d]) → leftmost sh f g → ∃ d, g = [d].
Proof. intros Hsh (pre & t & post & _ & H & _). eauto. Qed.

Lemma ep_one_group t g post : ep_shape t g post → ∃ d, g = [d].
Proof. intros (ce & cp & d & _ & _ & _ & _ & ->). eauto. Qed.

Lemma number_one_group t g post : number_shape t g post → ∃ d, g = [d].
Proof. intros (d & _ & _ & ->). eauto. Qed.

(** C7: a filename that starts with digits and a dash, and in which the
    rules S<d>E<d>, <d>x<d> and EP<d> find nothing, yields S01E{n:02d} for
    the leading number n; "05-Pilot" gives "S01E05". *)
Theorem leading_dash_rule :
  (∀ f d rest,
     f = d +:+ String "-" rest → is_number d = true →
     ¬ contains s_e_shape f → ¬ contains s_x_e_shape f → ¬ contains ep_shape f →
     extract_episode_number f = Some ("S01E" +:+ fmt02d (int d)))
  ∧ extract_episode_number "05-Pilot" = Some "S01E05".
Proof.
  split; [|reflexivity].
  intros f d rest Hf Hd H1 H2 H3.
  apply rule1_none in H1. apply rule2_none in H2. apply rule3_none in H3.
  assert (H4 : rule4 f = Some [d]) by (apply rule4_some; by exists d, rest).
  rewrite extract_ladder, H1, H2, H3, H4. reflexivity.
Qed.

Lemma leading_dash_rule_witness :
  extract_episode_number "12-Finale" = Some ("S01E" +:+ fmt02d (int "12")).
Proof.
  apply (proj1 leading_dash_rule "12-Finale" "12" "Finale").
  - reflexivity.
  - reflexivity.
  - apply rule1_none. reflexivity.
  - apply rule2_none. reflexivity.
  - apply rule3_none. reflexivity.
Defined.

(** C10: when "Ep" in any case is directly followed by digits and neither
    S<d>E<d> nor <d>x<d> occurs, the EP rule gives S01E{n:02d}; the later
    rule Ep\s*<d> is reached only when every "Ep" is kept from its digits by at
    least one blank, and then gives E{n:02d}. *)
Theorem ep_rule_shadows_ep_short :
  (∀ f, contains ep_shape f →
     ¬ contains s_e_shape f → ¬ contains s_x_e_shape f →
     ∃ d, leftmost ep_shape f [d] ∧
       extract_episode_number f = Some ("S01E" +:+ fmt02d (int d)))
  ∧ (∀ f m,
       search pat_s_e f IGNORECASE = None →
       search pat_s_x_e f IGNORECASE = None →
       search pat_ep f IGNORECASE = None →
       search pat_dash f NOFLAG = None →
       search pat_episode f IGNORECASE = None →
       search pat_ep_short f IGNORECASE = Some m →
       ∃ pre w ws d post,
         f = pre +:+ (w +:+ (ws +:+ (d +:+ post)))
         ∧ lower_str w = "ep" ∧ all_chars is_space ws = true ∧ ws ≠ ""
         ∧ is_number d = true ∧ group m 1 = d
         ∧ extract_episode_number f = Some ("E" +:+ fmt02d (int d)))
  ∧ extract_episode_number "Show Ep07" = Some "S01E07"
  ∧ extract_episode_number "Show Ep 07" = Some "E07".
Proof.
  split; [|split; [|split; reflexivity]].
  - intros f Hc H1 H2.
    apply rule1_none in H1. apply rule2_none in H2.
    destruct (contains_leftmost _ _ ep_at_some ep_extend f Hc) as [g Hg].
    destruct (leftmost_one_group _ _ _ ep_one_group Hg) as [d ->].
    exists d. split; [done|]. apply rule3_some in Hg.
    rewrite extract_ladder, H1, H2, Hg. reflexivity.
  - intros f m H1 H2 H3 H4 H5 H6.
    pose proof (search_rule1 f) as R1. rewrite H1 in R1.
    pose proof (search_rule2 f) as R2. rewrite H2 in R2.
    pose proof (search_rule3 f) as R3. rewrite H3 in R3.
    pose proof (search_rule4 f) as R4. rewrite H4 in R4.
    pose proof (search_rule5 f) as R5. rewrite H5 in R5.
    pose proof (search_rule6 f) as R6. rewrite H6 in R6. simpl in *.
    symmetry in R3. apply rule3_none in R3.
    symmetry in R6. pose proof R6 as R6'.
    apply rule6_some in R6' as (pre & t & post & -> & (w & ws & d & -> & Hw & Hws & Hd & Hg) & _).
    exists pre, w, ws, d, post. repeat (split; [done|]). split.
    + intros ->. apply R3. destruct w as [|ce [|cp [|? ?]]]; try discriminate Hw.
      simpl in Hw. injection Hw as He Hp.
      exists pre, (String ce (String cp (d +:+ post))), [d], post. split; [done|].
      by exists ce, cp, d.
    + split; [done|]. split; [unfold group; by rewrite Hg|].
      rewrite extract_ladder, <- R1, <- R2, <- R4, <- R5, R6, Hg.
      replace (rule3 _) with (@None (list string)); [reflexivity|].
      symmetry. by apply rule3_none.
Qed.

Lemma ep_rule_shadows_ep_short_witness :
  ∃ d, leftmost ep_shape "Pilot EP3" [d] ∧
    extract_episode_number "Pilot EP3" = Some ("S01E" +:+ fmt02d (int d)).
Proof.
  apply (proj1 ep_rule_shadows_ep_short "Pilot EP3").
  - exists "Pilot ", "EP3", ["3"], "". split; [reflexivity|].
    exists "E"%char, "P"%char, "3". repeat split; reflexivity.
  - apply rule1_none. reflexivity.
  - apply rule2_none. reflexivity.
Defined.

(** C6: the extractor gives nothing exactly for the filenames without a
    decimal digit; a filename with a digit on which the six earlier rules
    find nothing gives E{n:02d} for its first number n. *)
Theorem none_iff_no_digit :
  (∀ f, extract_episode_number f = None ↔ any_char is_digit f = false)
  ∧ (∀ f, any_char is_digit f = true →
       ¬ contains s_e_shape f → ¬ contains s_x_e_shape f → ¬ contains ep_shape f →
       ¬ (∃ g, dash_shape f g) →
       ¬ contains (word_blank_number_shape "Episode") f →
       ¬ contains (word_blank_number_shape "Ep") f →
       ∃ d, leftmost number_shape f [d] ∧
         extract_episode_number f = Some ("E" +:+ fmt02d (int d)))
  ∧ extract_episode_number "randomfile" = None.
Proof.
  split; [|split; [|reflexivity]].
  - intros f. split.
    + intros H. destruct (any_char is_digit f) eqn:E; [|done].
      apply digit_contains_number in E.
      destruct (rule7 f) as [g|] eqn:E7; [|by apply rule7_none in E7].
      rewrite extract_ladder, E7 in H.
      repeat match type of H with match ?r with _ => _ end = None => destruct r end;
        discriminate H.
    + intros H. rewrite extract_ladder.
      rewrite (proj2 (rule1_none f)) by (apply no_digit_no_rule; [apply s_e_needs_number|done]).
      rewrite (proj2 (rule2_none f)) by (apply no_digit_no_rule; [apply s_x_e_needs_number|done]).
      rewrite (proj2 (rule3_none f)) by (apply no_digit_no_rule; [apply ep_needs_number|done]).
      rewrite (proj2 (rule4_none f)) by (by apply no_digit_no_dash).
      rewrite (proj2 (rule5_none f))
        by (apply no_digit_no_rule; [apply word_blank_number_needs_number|done]).
      rewrite (proj2 (rule6_none f))
        by (apply no_digit_no_rule; [apply word_blank_number_needs_number|done]).
      rewrite (proj2 (rule7_none f)) by (apply no_digit_no_rule; [apply number_needs_number|done]).
      reflexivity.
  - intros f Hd H1 H2 H3 H4 H5 H6.
    apply rule1_none in H1. apply rule2_none in H2. apply rule3_none in H3.
    apply rule4_none in H4. apply rule5_none in H5. apply rule6_none in H6.
    apply digit_contains_number in Hd.
    destruct (contains_leftmost _ _ number_at_some number_extend f Hd) as [g Hg].
    destruct (leftmost_one_group _ _ _ number_one_group Hg) as [d ->].
    exists d. split; [done|]. apply rule7_some in Hg.
    rewrite extract_ladder, H1, H2, H3, H4, H5, H6, Hg. reflexivity.
Qed.

Lemma none_iff_no_digit_witness :
  ∃ d, leftmost number_shape "a 1080 b 7" [d] ∧
    extract_episode_number "a 1080 b 7" = Some ("E" +:+ fmt02d (int d)).
Proof.
  apply (proj1 (proj2 none_iff_no_digit) "a 1080 b 7").
  - reflexivity.
  - apply rule1_none. reflexivity.
  - apply rule2_none. reflexivity.
  - apply rule3_none. reflexivity.
  - apply rule4_none. reflexivity.
  - apply rule5_none. reflexivity.
  - apply rule6_none. reflexivity.
Defined.

(* ===================================================================== *)
(** ** The tags of the extractor *)
(* ===================================================================== *)

Import Tags.

Module TagFacts.

Lemma string_of_uint_digits d : all_chars is_digit (NilEmpty.string_of_uint d) = true.
Proof. induction d; simpl; done. Qed.

Lemma int_acc_pos d acc :
  int_acc (N.pos acc) (NilEmpty.string_of_uint d) = N.pos (Pos.of_uint_acc d acc).
Proof.
  revert acc. induction d as [|d IHd|d IHd|d IHd|d IHd|d IHd|d IHd|d IHd|d IHd|d IHd|d IHd];
    intros acc; cbn [NilEmpty.string_of_uint int_acc Pos.of_uint_acc]; [done|..];
    rewrite <- IHd; f_equal; unfold digit_value, code; cbn [N_of_ascii N_of_digits]; lia.
Qed.

Lemma int_acc_zero d : int_acc 0 (NilEmpty.string_of_uint d) = N.of_uint d.
Proof.
  unfold N.of_uint.
  induction d as [|d IHd|d IHd|d IHd|d IHd|d IHd|d IHd|d IHd|d IHd|d IHd|d IHd];
    cbn [NilEmpty.string_of_uint int_acc Pos.of_uint]; [done|exact IHd|..];
    apply (int_acc_pos d).
Qed.

Lemma int_str n : int (str n) = n.
Proof. unfold int, str. rewrite int_acc_zero. apply DecimalN.Unsigned.of_to. Qed.

Lemma str_digits n : all_chars is_digit (str n) = true.
Proof. apply string_of_uint_digits. Qed.

Lemma string_of_uint_length d : String.length (NilEmpty.string_of_uint d) = Decimal.nb_digits d.
Proof. induction d; simpl; congruence. Qed.

Lemma to_uint_unorm n : Decimal.unorm (N.to_uint n) = N.to_uint n.
Proof.
  rewrite <- (DecimalN.Unsigned.of_to n) at 2. by rewrite DecimalN.Unsigned.to_of.
Qed.

Lemma nzhead_no_zero d u : Decimal.nzhead d ≠ Decimal.D0 u.
Proof. induction d; simpl; done. Qed.

(** A normalised number that begins with a zero is zero. *)
Lemma unorm_leading_zero d :
  starts_with (Ascii.eqb "0") (NilEmpty.string_of_uint (Decimal.unorm d)) = true →
  Decimal.unorm d = Decimal.D0 Decimal.Nil.
Proof.
  unfold Decimal.unorm. pose proof (nzhead_no_zero d) as H.
  destruct (Decimal.nzhead d) as [|u|u|u|u|u|u|u|u|u|u]; simpl; try done.
  by destruct (H u).
Qed.

Lemma str_length n : (1 ≤ String.length (str n))%nat.
Proof.
  unfold str. rewrite string_of_uint_length, <- to_uint_unorm.
  pose proof (unorm_nonnil (N.to_uint n)) as H.
  destruct (Decimal.unorm _); simpl; try lia. done.
Qed.

Lemma str_leading_zero n :
  starts_with (Ascii.eqb "0") (str n) = true → str n = "0".
Proof.
  unfold str. rewrite <- to_uint_unorm. intros H.
  by rewrite (unorm_leading_zero _ H).
Qed.

Lemma fmt02d_cases n :
  (fmt02d n = str n ∧ (2 ≤ String.length (str n))%nat)
  ∨ (fmt02d n = String "0" (str n) ∧ String.length (str n) = 1%nat).
Proof.
  unfold fmt02d. pose proof (str_length n) as H.
  destruct (String.length (str n) <? 2)%nat eqn:E.
  - apply Nat.ltb_lt in E. right. assert (String.length (str n) = 1%nat) as -> by lia. done.
  - apply Nat.ltb_ge in E. by left.
Qed.

(** [int] reads back what [:02d] wrote. *)
Lemma int_fmt02d n : int (fmt02d n) = n.
Proof.
  destruct (fmt02d_cases n) as [[-> _]|[-> _]]; [apply int_str|].
  unfold int. simpl. apply int_str.
Qed.

Lemma fmt02d_padded n : padded (fmt02d n) = true.
Proof.
  pose proof (str_digits n) as Hd. unfold padded.
  destruct (fmt02d_cases n) as [[-> Hl]|[-> Hl]].
  - rewrite Hd. cbn [andb].
    destruct (starts_with (Ascii.eqb "0") (str n)) eqn:E.
    + apply str_leading_zero in E. rewrite E in Hl. simpl in Hl. lia.
    + cbn [negb]. rewrite andb_true_r. apply orb_true_iff.
      destruct (decide (String.length (str n) = 2%nat)) as [->|Hne]; [by left|right].
      apply Nat.ltb_lt. lia.
  - cbn [all_chars String.length]. rewrite Hd, Hl. done.
Qed.

Lemma padded_number d : padded d = true → is_number d = true.
Proof.
  unfold padded, is_number. intros H. apply andb_prop in H as [Hd Hl]. rewrite Hd.
  destruct d; [done|done].
Qed.

Lemma fmt02d_number n : is_number (fmt02d n) = true.
Proof. apply padded_number, fmt02d_padded. Qed.

Lemma is_digit_cases c :
  is_digit c = true →
  c ∈ ["0"; "1"; "2"; "3"; "4"; "5"; "6"; "7"; "8"; "9"]%char.
Proof.
  by_cases_on c; intros _; repeat (first [by left | right]).
Qed.

(** A run of digits is the spelling of a decimal number. *)
Lemma digits_uint d :
  all_chars is_digit d = true → ∃ u, d = NilEmpty.string_of_uint u.
Proof.
  induction d as [|c d IH]; [by exists Decimal.Nil|]. simpl. intros H.
  apply andb_prop in H as [Hc Hd]. destruct (IH Hd) as [u ->].
  apply is_digit_cases in Hc.
  repeat (apply elem_of_cons in Hc as [->|Hc];
    [first [by exists (Decimal.D0 u)|by exists (Decimal.D1 u)|by exists (Decimal.D2 u)
           |by exists (Decimal.D3 u)|by exists (Decimal.D4 u)|by exists (Decimal.D5 u)
           |by exists (Decimal.D6 u)|by exists (Decimal.D7 u)|by exists (Decimal.D8 u)
           |by exists (Decimal.D9 u)]|]).
  by apply elem_of_nil in Hc.
Qed.

Lemma str_of_uint u : str (N.of_uint u) = NilEmpty.string_of_uint (Decimal.unorm u).
Proof. unfold str. by rewrite DecimalN.Unsigned.to_of. Qed.

(** [:02d] writes back a padded number as it was read. *)
Lemma fmt02d_int d : padded d = true → fmt02d (int d) = d.
Proof.
  unfold padded. intros H. apply andb_prop in H as [Hd Hl].
  destruct (digits_uint d Hd) as [u ->]. unfold int. rewrite int_acc_zero.
  unfold fmt02d. rewrite str_of_uint.
  rewrite string_of_uint_length in Hl.
  apply orb_true_iff in Hl as [Hl|Hl].
  - apply Nat.eqb_eq in Hl.
    destruct u as [|u|u|u|u|u|u|u|u|u|u]; try discriminate Hl;
      destruct u as [|u|u|u|u|u|u|u|u|u|u]; try discriminate Hl;
      destruct u; try discriminate Hl; reflexivity.
  - apply andb_prop in Hl as [Hl Hz]. apply Nat.ltb_lt in Hl.
    assert (Hn : Decimal.unorm u = u).
    { destruct u; simpl in Hz, Hl; try done; lia. }
    rewrite Hn, string_of_uint_length.
    replace (Decimal.nb_digits u <? 2)%nat with false; [done|].
    symmetry. apply Nat.ltb_ge. lia.
Qed.

(** *** Letters a rule cannot do without *)

Lemma has_letter_app l (a b : string) :
  has_letter l (a +:+ b) = has_letter l a || has_letter l b.
Proof. apply any_char_app. Qed.

Lemma has_letter_lower_str l w :
  has_letter l w = any_char (λ c, Ascii.eqb c l) (lower_str w).
Proof. induction w as [|c w IH]; [done|]. simpl. by rewrite <- IH. Qed.

Lemma digits_no_letter l d :
  is_digit l = false → all_chars is_digit d = true → has_letter l d = false.
Proof.
  intros Hl. unfold has_letter. induction d as [|c d IH]; [done|]. simpl. intros H.
  apply andb_prop in H as [Hc Hd]. rewrite (IH Hd), (lower_digit c Hc), orb_false_r.
  apply Ascii.eqb_neq. intros ->. congruence.
Qed.

Lemma s_e_needs_s f : contains s_e_shape f → has_letter "s" f = true.
Proof.
  intros (pre & t & g & post & -> & cs & d1 & ce & d2 & -> & Hs & _).
  rewrite has_letter_app. unfold has_letter at 2. cbn [any_char]. rewrite Hs.
  cbn. by rewrite orb_true_r.
Qed.

Lemma s_x_e_needs_x f : contains s_x_e_shape f → has_letter "x" f = true.
Proof.
  intros (pre & t & g & post & -> & d1 & cx & d2 & -> & _ & Hx & _).
  rewrite !has_letter_app. unfold has_letter at 3. cbn [any_char]. rewrite Hx.
  cbn. by rewrite !orb_true_r.
Qed.

Lemma ep_needs_p f : contains ep_shape f → has_letter "p" f = true.
Proof.
  intros (pre & t & g & post & -> & ce & cp & d & -> & _ & Hp & _).
  rewrite has_letter_app. unfold has_letter at 2. cbn [any_char]. rewrite Hp.
  cbn. by rewrite !orb_true_r.
Qed.

Lemma word_needs_letter w l f :
  has_letter l w = true → contains (word_blank_number_shape w) f → has_letter l f = true.
Proof.
  intros Hl (pre & t & g & post & -> & w' & ws & d & -> & Hw & _).
  rewrite !has_letter_app. rewrite (has_letter_lower_str l w'), Hw, <- has_letter_lower_str, Hl.
  by rewrite orb_true_r.
Qed.

Lemma dash_needs_digit f g : dash_shape f g → starts_with is_digit f = true.
Proof. intros (d & rest & -> & Hd & _). by apply number_starts. Qed.

(** *** The extractor on a tag *)

Lemma first_suffix_here {A} (f : string → option A) s x :
  f s = Some x → first_suffix f s = Some x.
Proof. intros H. destruct s; simpl; by rewrite H. Qed.

Lemma first_suffix_next {A} (f : string → option A) c s :
  f (String c s) = None → first_suffix f (String c s) = first_suffix f s.
Proof. intros H. simpl. by rewrite H. Qed.

Lemma digits_of_all d : all_chars is_digit d = true → digits_of d = d.
Proof.
  intros H. destruct (take_while_all is_digit d "" H eq_refl) as [E _].
  by rewrite sapp_nil_r in E.
Qed.

Lemma extract_s_padded d1 d2 :
  padded d1 = true → padded d2 = true →
  extract_episode_number (String "S" (d1 +:+ String "E" d2))
  = Some (String "S" (d1 +:+ String "E" d2)).
Proof.
  intros H1 H2.
  assert (Hr : rule1 (String "S" (d1 +:+ String "E" d2)) = Some [d1; d2]).
  { apply first_suffix_here, s_e_at_some. exists "". split; [|done].
    exists "S"%char, d1, "E"%char, d2. rewrite sapp_nil_r.
    repeat split; try done; by apply padded_number. }
  rewrite extract_ladder, Hr. unfold season_episode_tag. cbn [nth].
  by rewrite !fmt02d_int.
Qed.

Lemma extract_e_padded d :
  padded d = true → extract_episode_number (String "E" d) = Some (String "E" d).
Proof.
  intros H. pose proof (padded_number d H) as Hn.
  assert (Hd : all_chars is_digit d = true).
  { unfold padded in H. by apply andb_prop in H as [? _]. }
  assert (Hl : ∀ l, is_digit l = false → Ascii.eqb "e" l = false →
                    has_letter l (String "E" d) = false).
  { intros l Hl He. unfold has_letter. cbn [any_char]. change (lower "E") with "e"%char.
    rewrite He. by apply digits_no_letter. }
  rewrite extract_ladder.
  rewrite (proj2 (rule1_none _)).
  2:{ intros Hc. apply s_e_needs_s in Hc. by rewrite Hl in Hc. }
  rewrite (proj2 (rule2_none _)).
  2:{ intros Hc. apply s_x_e_needs_x in Hc. by rewrite Hl in Hc. }
  rewrite (proj2 (rule3_none _)).
  2:{ intros Hc. apply ep_needs_p in Hc. by rewrite Hl in Hc. }
  rewrite (proj2 (rule4_none _)).
  2:{ intros [g Hg]. by apply dash_needs_digit in Hg. }
  rewrite (proj2 (rule5_none _)).
  2:{ intros Hc. apply (word_needs_letter _ "p") in Hc; [|done]. by rewrite Hl in Hc. }
  rewrite (proj2 (rule6_none _)).
  2:{ intros Hc. apply (word_needs_letter _ "p") in Hc; [|done]. by rewrite Hl in Hc. }
  assert (Hr : rule7 (String "E" d) = Some [d]).
  { unfold rule7. rewrite first_suffix_next by done. apply first_suffix_here.
    unfold number_at. pose proof (number_starts d "" Hn) as Hs.
    rewrite sapp_nil_r in Hs. by rewrite Hs, digits_of_all. }
  rewrite Hr. unfold episode_tag. cbn [nth]. by rewrite fmt02d_int.
Qed.

Lemma is_tag_s d1 d2 :
  padded d1 = true → padded d2 = true → is_tag (String "S" (d1 +:+ String "E" d2)) = true.
Proof.
  intros H1 H2. unfold is_tag. cbn [Ascii.eqb Bool.eqb].
  destruct (span_number d1 (String "E" d2) (padded_number _ H1) eq_refl) as (-> & -> & _).
  by rewrite H1, H2.
Qed.

Lemma is_tag_e d : padded d = true → is_tag (String "E" d) = true.
Proof. intros H. unfold is_tag. cbn [Ascii.eqb Bool.eqb]. by rewrite H. Qed.

Lemma is_tag_inv tag :
  is_tag tag = true →
  (∃ d1 d2, tag = String "S" (d1 +:+ String "E" d2) ∧ padded d1 = true ∧ padded d2 = true)
  ∨ (∃ d, tag = String "E" d ∧ padded d = true).
Proof.
  unfold is_tag. destruct tag as [|c r]; [done|].
  destruct (Ascii.eqb c "S") eqn:Ec.
  - apply Ascii.eqb_eq in Ec as ->. intros H. apply andb_prop in H as [H1 H].
    destruct (after_digits r) as [|e r2] eqn:Er; [done|].
    apply andb_prop in H as [He H2]. apply Ascii.eqb_eq in He as ->.
    left. exists (digits_of r), r2. split; [|done].
    by rewrite <- Er, take_drop_while.
  - intros H. apply andb_prop in H as [He H]. apply Ascii.eqb_eq in He as ->.
    right. by exists r.
Qed.

(** Every tag the extractor gives has the format. *)
Lemma extract_is_tag f tag : extract_episode_number f = Some tag → is_tag tag = true.
Proof.
  rewrite extract_ladder. intros H.
  repeat match type of H with match ?r with _ => _ end = _ => destruct r end;
    try discriminate H; injection H as <-;
    first [apply (is_tag_s (fmt02d _) (fmt02d _)); apply fmt02d_padded
          |apply (is_tag_e (fmt02d _)); apply fmt02d_padded].
Qed.

Lemma is_tag_fixed tag : is_tag tag = true → extract_episode_number tag = Some tag.
Proof.
  intros H. apply is_tag_inv in H as [(d1 & d2 & -> & H1 & H2)|(d & -> & H)].
  - by apply extract_s_padded.
  - by apply extract_e_padded.
Qed.

Lemma rule2_some f g : rule2 f = Some g ↔ leftmost s_x_e_shape f g.
Proof. apply first_suffix_leftmost; [apply s_x_e_at_some|apply s_x_e_extend]. Qed.

Lemma rule5_some f g : rule5 f = Some g ↔ leftmost (word_blank_number_shape "Episode") f g.
Proof.
  apply first_suffix_leftmost;
    [apply word_blank_number_at_some|apply word_blank_number_extend].
Qed.

Lemma s_x_e_two_groups t g post : s_x_e_shape t g post → ∃ d1 d2, g = [d1; d2].
Proof. intros (d1 & cx & d2 & _ & _ & _ & _ & ->). eauto. Qed.

Lemma word_one_group w t g post : word_blank_number_shape w t g post → ∃ d, g = [d].
Proof. intros (w' & ws & d & _ & _ & _ & _ & ->). eauto. Qed.

End TagFacts.
Import TagFacts.

(* ===================================================================== *)
(** ** Paths *)
(* ===================================================================== *)

Module PathFacts.
Import Text Shape ReFacts Fs.

Lemma sapp_inv_l (p a b : string) : p +:+ a = p +:+ b → a = b.
Proof. induction p as [|c p IH]; [done|]. rewrite !sapp_cons. intros [= H]. auto. Qed.

Lemma substring_split i s :
  (i ≤ String.length s)%nat →
  ∃ pre rest, s = pre +:+ rest ∧ String.length pre = i
    ∧ substring 0 i s = pre ∧ substring i (String.length s - i) s = rest.
Proof.
  revert s. induction i as [|i IH]; intros s Hi.
  - exists "", s. rewrite Nat.sub_0_r. repeat split; try done.
    + by destruct s.
    + clear Hi. rewrite <- (sapp_nil_r s) at 2. apply substring_prefix.
  - destruct s as [|c s]; simpl in Hi; [lia|].
    destruct (IH s) as (pre & rest & E & Hl & H1 & H2); [lia|].
    exists (String c pre), rest. rewrite sapp_cons, <- E. simpl.
    rewrite H1, H2, Hl. done.
Qed.

Lemma rfind_dot_app pre t :
  rfind_dot (pre +:+ t)
  = match rfind_dot t with
    | Some j => Some (String.length pre + j)
    | None => rfind_dot pre
    end.
Proof.
  induction pre as [|c pre IH]; [rewrite sapp_nil_l; by destruct (rfind_dot t)|].
  rewrite sapp_cons. simpl. rewrite IH. by destruct (rfind_dot t).
Qed.

(** The temporary file is never the video itself. *)
Lemma temp_path_fresh name : with_suffix name ".temp.mp4" ≠ name.
Proof.
  unfold with_suffix, stem, split_suffix. destruct (rfind_dot name) as [i|] eqn:Ei; simpl.
  - destruct (_ && _) eqn:E; simpl.
    + apply andb_prop in E as [_ E]. apply Nat.ltb_lt in E.
      destruct (substring_split i name) as (pre & rest & E1 & Hl & -> & _); [lia|].
      intros H. rewrite E1 in H. apply sapp_inv_l in H. subst rest.
      rewrite E1, rfind_dot_app in Ei. simpl in Ei. injection Ei as Ei. lia.
    + intros H. apply (f_equal String.length) in H. rewrite sapp_length in H. simpl in H. lia.
  - intros H. apply (f_equal String.length) in H. rewrite sapp_length in H. simpl in H. lia.
Qed.

Lemma substring_suffix (s t : string) :
  substring (String.length s) (String.length t) (s +:+ t) = t.
Proof.
  induction s as [|c s IH].
  - rewrite sapp_nil_l. simpl. rewrite <- (sapp_nil_r t) at 2. apply substring_prefix.
  - rewrite sapp_cons. simpl. apply IH.
Qed.

Lemma ends_with_app (suf s t : string) :
  String.length t = String.length suf → ends_with suf (s +:+ t) = String.eqb t suf.
Proof.
  intros Hl. unfold ends_with. rewrite sapp_length, <- Hl.
  replace (String.length s + String.length t - String.length t) with (String.length s) by lia.
  rewrite substring_suffix.
  replace (String.length t <=? String.length s + String.length t)%nat with true; [done|].
  symmetry. apply Nat.leb_le. lia.
Qed.

Lemma temp_path_mp4 name : ends_with ".mp4" (with_suffix name ".temp.mp4") = true.
Proof.
  unfold with_suffix.
  change (stem name +:+ ".temp.mp4") with (stem name +:+ (".temp" +:+ ".mp4")).
  rewrite <- sapp_assoc. by rewrite ends_with_app.
Qed.

Lemma thm_path_not_mp4 name : ends_with ".mp4" (with_suffix name ".THM") = false.
Proof. unfold with_suffix. by rewrite ends_with_app. Qed.

End PathFacts.

(* ===================================================================== *)
(** ** The writer *)
(* ===================================================================== *)

Module WriterFacts.
Import Text Episode Shape ReFacts Fs Writer Run PathFacts.

Ltac run := unfold mbind, mret, M_bind, M_ret, try_except, print, path_exists,
  set_files in *; simpl in *.

Lemma metadata_command_last video_path metadata temp_path :
  List.last (metadata_command video_path metadata temp_path) "" = temp_path.
Proof.
  unfold metadata_command.
  change ["-y"; temp_path] with (["-y"] ++ [temp_path])%list.
  by rewrite List.app_assoc, last_last.
Qed.

Lemma subprocess_run_frame e cmd w path :
  path ≠ List.last cmd "" →
  files (snd (subprocess_run e cmd w)) !! path = files w !! path.
Proof.
  intros Hne. unfold subprocess_run. destruct (embedded_null cmd); [done|].
  destruct (ffmpeg e (files w) cmd) as [out| |[part|]]; simpl; by rewrite ?lookup_insert_ne.
Qed.

Lemma shutil_move_run e src dst w :
  shutil_move e src dst w
  = (if move_raises e src dst (files w) then inr OSError else inl (),
     World (moved e src dst (files w)) (stdout w) (spawned w)).
Proof.
  unfold shutil_move, move_raises, moved. destruct w as [fs out sp]. cbn [files stdout spawned].
  destruct (fs !! src) as [c|] eqn:E; [|done].
  destruct (rename_fails e src dst); [|done].
  unfold mbind, M_bind, shutil_copy2. cbn [files]. rewrite E.
  destruct (copy2_fails e src dst); [done|].
  unfold unlink, set_files. cbn [files stdout spawned andb orb].
  assert (Hs : ∃ c', <[dst := c]> fs !! src = Some c').
  { destruct (decide (dst = src)) as [->|Hne].
    - rewrite lookup_insert_eq. eauto.
    - rewrite lookup_insert_ne by done. eauto. }
  destruct Hs as [c' ->]. by destruct (unlink_fails e src).
Qed.

(** *** The loop bodies in closed form *)

Lemma add_metadata_to_video_tagged e video_file metadata w :
  add_metadata_to_video e video_file metadata w
  = (tag_result e video_file metadata w, tagged e video_file metadata w).
Proof.
  unfold add_metadata_to_video, tag_result, tagged. fold (temp_of video_file).
  fold (tag_command video_file metadata).
  set (cmd := tag_command video_file metadata).
  assert (Hlast : List.last cmd "" = temp_of video_file) by apply metadata_command_last.
  unfold try_except, mbind at 1, M_bind at 1, subprocess_run. rewrite Hlast.
  destruct (embedded_null cmd); [done|].
  destruct (ffmpeg e (files w) cmd) as [out| |partial]; cbn [fst snd].
  - unfold mbind, M_bind. rewrite shutil_move_run. unfold set_files.
    cbn [files stdout spawned].
    by destruct (move_raises e _ _ _).
  - unfold mbind, M_bind. rewrite shutil_move_run. unfold set_files.
    cbn [files stdout spawned].
    by destruct (move_raises e _ _ _).
  - unfold mbind, M_bind, print, path_exists, unlink, set_files, mret, M_ret.
    cbn [files stdout spawned fst snd].
    set (dir := transcoded (ExitNonZero partial) (temp_of video_file) (files w)).
    destruct (dir !! temp_of video_file) as [c|] eqn:E.
    + rewrite bool_decide_eq_true_2 by eauto. cbn [andb files stdout spawned].
      rewrite E. by destruct (unlink_fails e (temp_of video_file)).
    + rewrite bool_decide_eq_false_2 by (intros [? ?]; congruence). cbn [andb].
      rewrite delete_id by done. by destruct (unlink_fails e (temp_of video_file)).
Qed.

Lemma sidecar_run e video_file thumbnail_path w :
  sidecar e video_file thumbnail_path w = (inl (), with_sidecar e video_file thumbnail_path w).
Proof.
  unfold sidecar, with_sidecar. destruct thumbnail_path as [t|]; [|done].
  unfold create_psp_thumbnail_file, shutil_copy2. run. fold (thm_of video_file).
  destruct (files w !! t) as [c|] eqn:E.
  - rewrite bool_decide_eq_true_2 by eauto. rewrite E.
    destruct (copy2_fails e t (thm_of video_file)); simpl; [|done].
    unfold say. simpl. by rewrite <- List.app_assoc.
  - rewrite bool_decide_eq_false_2 by (intros [? ?]; congruence). by destruct w.
Qed.

Lemma finish_run e thumbnail_path video_file metadata w :
  (ok ← add_metadata_to_video e video_file metadata;
   if ok : bool then
     print (MetadataAdded video_file) ;; sidecar e video_file thumbnail_path
   else print (MetadataFailed video_file)) w
  = (finish_result e video_file metadata w, finished e thumbnail_path video_file metadata w).
Proof.
  unfold mbind, M_bind. rewrite add_metadata_to_video_tagged. unfold finished, finish_result.
  destruct (tag_result e video_file metadata w) as [[|]|ex]; unfold print; simpl; [|done..].
  apply sidecar_run.
Qed.

Lemma process_movie_run e thumbnail_path video_file w :
  process_movie e thumbnail_path video_file w
  = (step_result e movie_metadata (λ v, [Processing v]) w video_file,
     movie_step e thumbnail_path w video_file).
Proof.
  unfold process_movie, movie_step, step, step_result.
  unfold mbind at 1, M_bind at 1. unfold print at 1.
  apply finish_run.
Qed.

Lemma process_episode_run e show_name thumbnail_path video_file w :
  process_episode e show_name thumbnail_path video_file w
  = (step_result e (tv_metadata show_name) episode_announce w video_file,
     episode_step e show_name thumbnail_path w video_file).
Proof.
  unfold process_episode, episode_step, step, step_result, episode_announce.
  unfold mbind at 1, M_bind at 1. unfold print at 1.
  unfold mbind at 1, M_bind at 1.
  destruct (truthy _).
  - unfold print at 1. rewrite finish_run. unfold say. simpl.
    by rewrite <- List.app_assoc.
  - unfold mret, M_ret. apply finish_run.
Qed.

(** *** The loop *)

Lemma for_each_run (xs : list string) (body : string → M unit)
    (result : world → string → unit + exn) (step : world → string → world) w :
  (∀ x w, body x w = (result w x, step w x)) →
  for_each xs body w
  = (loop_result result step xs w, fold_left step (reached result step xs w) w).
Proof.
  intros H. revert w. induction xs as [|x xs IH]; intros w; cbn [for_each]; [done|].
  unfold mbind, M_bind. rewrite H. cbn [loop_result reached fold_left].
  destruct (result w x) as [[]|ex]; [apply IH|done].
Qed.

Lemma reached_prefix result step videos w :
  ∃ rest, videos = (reached result step videos w ++ rest)%list.
Proof.
  revert w. induction videos as [|v videos IH]; intros w; cbn [reached]; [by exists []|].
  destruct (result w v) as [[]|ex].
  - destruct (IH (step w v)) as [rest Hr]. exists rest. cbn [app]. by rewrite <- Hr.
  - by exists videos.
Qed.

Lemma reached_elem result step videos w v :
  v ∈ reached result step videos w → v ∈ videos.
Proof.
  intros Hv. destruct (reached_prefix result step videos w) as [rest Hr].
  rewrite Hr. apply elem_of_app. by left.
Qed.

Lemma reached_all result step videos w :
  loop_result result step videos w = inl () → reached result step videos w = videos.
Proof.
  revert w. induction videos as [|v videos IH]; intros w; cbn [loop_result reached]; [done|].
  destruct (result w v) as [[]|ex]; [|done]. intros H. by rewrite IH.
Qed.

Lemma loop_returns result step videos w :
  (∀ v w0, v ∈ videos → result w0 v = inl ()) →
  loop_result result step videos w = inl ().
Proof.
  revert w. induction videos as [|v videos IH]; intros w H; cbn [loop_result]; [done|].
  rewrite H by by left. apply IH. intros v' w0 Hv'. apply H. by right.
Qed.

(** Every turn before the last one the loop got to has returned. *)
Lemma reached_returned result step videos w before v after :
  reached result step videos w = (before ++ v :: after)%list →
  after ≠ [] ∨ loop_result result step videos w = inl () →
  result (fold_left step before w) v = inl ().
Proof.
  revert w before. induction videos as [|x videos IH]; intros w before;
    cbn [reached loop_result].
  - by destruct before.
  - destruct before as [|b before]; cbn [app fold_left].
    + intros [= -> Hr] Ha. destruct (result w v) as [[]|ex]; [done|].
      destruct Ha as [Ha|Ha]; [by subst after|done].
    + intros [= -> Hr] Ha. destruct (result w b) as [[]|ex].
      * by apply (IH _ _ Hr).
      * by destruct before.
Qed.

(** *** Cleanup and the whole run in closed form *)

Lemma cleanup_loop_run e names removed_count w :
  cleanup_loop e names removed_count w
  = (inl (fst (swept e names removed_count w)), snd (swept e names removed_count w)).
Proof.
  revert removed_count w. induction names as [|x names IH]; intros n w; simpl; [done|].
  unfold mbind at 1, M_bind at 1, path_exists at 1.
  destruct (files w !! x) as [c|] eqn:E.
  - rewrite bool_decide_eq_true_2 by eauto.
    unfold mbind at 1, M_bind at 1, try_except, unlink.
    unfold mbind at 1, M_bind at 1. rewrite E.
    destruct (unlink_fails e x); simpl.
    + unfold mbind, M_bind, print, mret, M_ret. simpl. apply IH.
    + unfold mbind, M_bind, print, mret, M_ret, set_files. simpl. apply IH.
  - rewrite bool_decide_eq_false_2 by (intros [? ?]; congruence).
    unfold mbind at 1, M_bind at 1, mret, M_ret. apply IH.
Qed.

Lemma cleanup_for_psp_run e w : cleanup_for_psp e w = (inl (), cleaned e w).
Proof.
  unfold cleanup_for_psp, cleaned.
  unfold mbind at 1, M_bind at 1, print at 1.
  unfold mbind at 1, M_bind at 1. rewrite cleanup_loop_run. fold (say [CleaningUp] w).
  generalize (swept e files_to_remove 0 (say [CleaningUp] w)). intros [n w'].
  cbn [fst snd].
  destruct (0 <? n)%nat; unfold mbind, M_bind, print, say; simpl; [|done].
  by rewrite <- List.app_assoc.
Qed.

Lemma first_existing_elem (dir : directory) ps p : first_existing dir ps = Some p → p ∈ ps.
Proof.
  induction ps as [|q ps IH]; cbn [first_existing]; [done|].
  destruct (bool_decide _); [intros [= ->]; by left|]. intros H. right. by apply IH.
Qed.

Lemma thumbnail_command_plain cover :
  cover ∈ cover_patterns → embedded_null (thumbnail_command cover) = false.
Proof.
  intros H. unfold cover_patterns in H.
  repeat (apply elem_of_cons in H as [->|H]; [reflexivity|]).
  by apply elem_of_nil in H.
Qed.

Lemma prepare_thumbnail_run e w :
  prepare_thumbnail e w = (inl (fst (prepared e w)), snd (prepared e w)).
Proof.
  unfold prepare_thumbnail, prepared, find_cover_image.
  unfold mbind at 1, M_bind at 1.
  destruct (first_existing (files w) cover_patterns) as [cover|] eqn:Hc; [|done].
  apply first_existing_elem, thumbnail_command_plain in Hc.
  unfold mbind at 1, M_bind at 1, print at 1.
  unfold mbind at 1, M_bind at 1, convert_to_psp_thumbnail, try_except.
  unfold mbind at 1, M_bind at 1, subprocess_run. fold (thumbnail_command cover).
  rewrite Hc.
  destruct (ffmpeg e _ (thumbnail_command cover)) as [out| |[part|]];
    unfold mbind, M_bind, print, mret, M_ret, set_files; simpl;
    by rewrite <- !List.app_assoc.
Qed.

Section WholeRunClosed.
Variables (e : env) (metadata : string → dict) (announce : string → list message).
Variable (first_message : message).

Lemma batch_run (body : option string → string → M unit) w :
  (∀ thumbnail_path v w0,
     body thumbnail_path v w0
     = (step_result e metadata announce w0 v, step e thumbnail_path metadata announce w0 v)) →
  (print first_message ;;
   thumbnail_path ← prepare_thumbnail e;
   mp4_files ← glob_mp4 e;
   print (FoundMp4Files (length mp4_files)) ;;
   for_each mp4_files (body thumbnail_path) ;;
   cleanup_for_psp e) w
  = batch_done e metadata announce first_message w.
Proof.
  intros Hbody. unfold batch_done.
  unfold mbind at 1, M_bind at 1, print at 1. fold (say [first_message] w).
  unfold mbind at 1, M_bind at 1. rewrite prepare_thumbnail_run.
  unfold mbind at 1, M_bind at 1, glob_mp4.
  fold (listing e (snd (prepared e (say [first_message] w)))).
  unfold mbind at 1, M_bind at 1, print at 1.
  unfold mbind at 1, M_bind at 1.
  set (p := prepared e (say [first_message] w)).
  fold (say [FoundMp4Files (length (listing e (snd p)))] (snd p)).
  rewrite (for_each_run _ _ (step_result e metadata announce)
             (step e (fst p) metadata announce)) by (intros; apply Hbody).
  destruct (loop_result _ _ _ _) as [[]|ex]; [|done].
  apply cleanup_for_psp_run.
Qed.
End WholeRunClosed.

Lemma process_movies_run e w : process_movies e w = movies_done e w.
Proof.
  apply (batch_run e movie_metadata (λ v, [Processing v]) ProcessingMovies
           (process_movie e)).
  intros. apply process_movie_run.
Qed.

Lemma process_tv_show_run e show_name w :
  process_tv_show e show_name w = tv_show_done e show_name w.
Proof.
  apply (batch_run e (tv_metadata show_name) episode_announce (ProcessingTvShow show_name)
           (process_episode e show_name)).
  intros. apply process_episode_run.
Qed.

End WriterFacts.

Import Fs Writer Run PathFacts WriterFacts.

(** *** The tagger, whatever the system does *)

Lemma moved_frame e src dst (dir : directory) n :
  n ≠ src → n ≠ dst → moved e src dst dir !! n = dir !! n.
Proof.
  intros H1 H2. unfold moved. destruct (dir !! src) as [c|]; [|done].
  destruct (rename_fails e src dst), (copy2_fails e src dst), (unlink_fails e src);
    by rewrite ?lookup_delete_ne, ?lookup_insert_ne.
Qed.

Lemma moved_done e src dst (dir : directory) c :
  src ≠ dst → dir !! src = Some c → move_raises e src dst dir = false →
  moved e src dst dir = delete src (<[dst := c]> dir).
Proof.
  intros Hne Hc. unfold move_raises, moved. rewrite Hc.
  destruct (rename_fails e src dst); [|done].
  by destruct (copy2_fails e src dst), (unlink_fails e src).
Qed.

Lemma moved_dst e src dst (dir : directory) :
  src ≠ dst →
  moved e src dst dir !! dst = dir !! dst
  ∨ (is_Some (dir !! src) ∧ moved e src dst dir !! dst = dir !! src).
Proof.
  intros Hne. unfold moved. destruct (dir !! src) as [c|] eqn:E; [|by left].
  destruct (rename_fails e src dst), (copy2_fails e src dst), (unlink_fails e src);
    rewrite ?lookup_delete_ne, ?lookup_insert_eq by done; eauto.
Qed.

Lemma moved_keeps e src dst (dir : directory) n :
  n ≠ src → is_Some (dir !! n) → is_Some (moved e src dst dir !! n).
Proof.
  intros Hne Hn. unfold moved. destruct (dir !! src) as [c|]; [|done].
  destruct (rename_fails e src dst), (copy2_fails e src dst), (unlink_fails e src);
    rewrite ?lookup_delete_ne by done; try done; apply lookup_insert_is_Some'; by right.
Qed.

Lemma transcoded_frame result path (dir : directory) n :
  n ≠ path → transcoded result path dir !! n = dir !! n.
Proof. intros H. destruct result as [out| |[part|]]; cbn; by rewrite ?lookup_insert_ne. Qed.

Lemma transcoded_keeps result path (dir : directory) n :
  is_Some (dir !! n) → is_Some (transcoded result path dir !! n).
Proof.
  intros H. destruct result as [out| |[part|]]; cbn; try done;
    apply lookup_insert_is_Some'; by right.
Qed.

Lemma spawned_tagged e v md w :
  spawned (tagged e v md w) = (spawned w ++ [tag_command v md])%list.
Proof.
  unfold tagged. destruct (embedded_null _); [done|]. by destruct (ffmpeg e _ _).
Qed.

Lemma files_tagged_frame e v md w n :
  n ≠ v → n ≠ temp_of v → files (tagged e v md w) !! n = files w !! n.
Proof.
  intros H1 H2. unfold tagged. destruct (embedded_null _); [done|].
  destruct (ffmpeg e _ _) as [out| |partial] eqn:Hf; cbn [files];
    rewrite ?moved_frame by done; try by apply transcoded_frame.
  destruct (unlink_fails e _); rewrite ?lookup_delete_ne by done; by apply transcoded_frame.
Qed.

Lemma files_tagged_keeps e v md w n :
  n ≠ temp_of v → is_Some (files w !! n) → is_Some (files (tagged e v md w) !! n).
Proof.
  intros Hne H. unfold tagged. destruct (embedded_null _); [done|].
  destruct (ffmpeg e _ _) as [out| |partial] eqn:Hf; cbn [files];
    try (apply moved_keeps; [done|by apply transcoded_keeps]).
  destruct (unlink_fails e _); rewrite ?lookup_delete_ne by done; by apply transcoded_keeps.
Qed.



(** The transcoder fails on "a.mp4", and what lies at "a.temp.mp4"
    cannot be removed: the tagger does not return failure, it raises, and
    the temporary path is not free. *)
Example add_metadata_raises_when_delete_is_refused :
  let e := Env (λ _ _, ExitNonZero None) (λ _ _, false)
             (λ path, String.eqb path "a.temp.mp4") (λ _, ["a.mp4"]) (λ _ _, false) in
  let w := World (<["a.mp4" := "video"]> (<["a.temp.mp4" := "kept"]> ∅)) [] [] in
  let r := add_metadata_to_video e "a.mp4" [("title", "a"); ("album", "Movies")] w in
  ffmpeg e (files w)
    (metadata_command "a.mp4" [("title", "a"); ("album", "Movies")] "a.temp.mp4")
  = ExitNonZero None
  ∧ fst r = inr OSError
  ∧ fst r ≠ inl false
  ∧ files (snd r) !! "a.temp.mp4" = Some "kept".
Proof.
  intros e w r.
  assert (Hr : fst r = inr OSError) by (vm_compute; reflexivity).
  split; [reflexivity|]. split; [exact Hr|]. split; [by rewrite Hr|].
  vm_compute. reflexivity.
Qed.

Lemma first_existing_some (dir : directory) ps p :
  first_existing dir ps = Some p ↔
  ∃ i, ps !! i = Some p ∧ is_Some (dir !! p)
    ∧ ∀ j q, (j < i)%nat → ps !! j = Some q → dir !! q = None.
Proof.
  induction ps as [|x ps IH]; cbn [first_existing].
  - split; [done|]. intros (i & Hi & _). by rewrite lookup_nil in Hi.
  - case_bool_decide as Hx.
    + split.
      * intros [= ->]. exists 0%nat. split; [done|]. split; [done|]. intros j q Hj. lia.
      * intros (i & Hi & Hp & Hmin). destruct i as [|i]; [by injection Hi as ->|].
        specialize (Hmin 0%nat x). rewrite Hmin in Hx; [by destruct Hx|lia|done].
    + rewrite IH. split.
      * intros (i & Hi & Hp & Hmin). exists (S i). split; [done|]. split; [done|].
        intros [|j] q Hj Hq.
        -- injection Hq as <-. destruct (dir !! x) eqn:E; [|done]. destruct Hx; eauto.
        -- apply (Hmin j q); [lia|done].
      * intros (i & Hi & Hp & Hmin). destruct i as [|i].
        -- injection Hi as ->. done.
        -- exists i. split; [done|]. split; [done|]. intros j q Hj Hq.
           apply (Hmin (S j) q); [lia|done].
Qed.

Lemma first_existing_none (dir : directory) ps :
  first_existing dir ps = None ↔ ∀ p, p ∈ ps → dir !! p = None.
Proof.
  induction ps as [|x ps IH]; cbn [first_existing].
  - split; [|done]. intros _ p Hp. by apply elem_of_nil in Hp.
  - case_bool_decide as Hx.
    + split; [done|]. intros H. rewrite (H x) in Hx; [by destruct Hx|by left].
    + rewrite IH. split.
      * intros H p Hp. apply elem_of_cons in Hp as [->|Hp]; [|by apply H].
        destruct (dir !! x) eqn:E; [|done]. destruct Hx; eauto.
      * intros H p Hp. apply H. by right.
Qed.

(** C5: [find_cover_image] gives the first name of the fifteen candidates
    (cover, Cover, COVER, each with jpg, jpeg, png, bmp, gif) that is in
    the directory, and nothing when none is; with both "cover.jpg" and
    "Cover.png" present it gives "cover.jpg". *)
Theorem find_cover_image_first_candidate :
  cover_patterns
    = flat_map (λ name, map (λ ext, name +:+ "." +:+ ext) ["jpg"; "jpeg"; "png"; "bmp"; "gif"])
        ["cover"; "Cover"; "COVER"]
  ∧ length cover_patterns = 15%nat
  ∧ (∀ w, snd (find_cover_image w) = w)
  ∧ (∀ w p, fst (find_cover_image w) = inl (Some p) ↔
       ∃ i, cover_patterns !! i = Some p ∧ is_Some (files w !! p)
         ∧ ∀ j q, (j < i)%nat → cover_patterns !! j = Some q → files w !! q = None)
  ∧ (∀ w, fst (find_cover_image w) = inl None ↔
       ∀ p, p ∈ cover_patterns → files w !! p = None)
  ∧ (∀ w, is_Some (files w !! "cover.jpg") → is_Some (files w !! "Cover.png") →
       fst (find_cover_image w) = inl (Some "cover.jpg")).
Proof.
  split; [reflexivity|]. split; [reflexivity|]. split; [done|].
  assert (Hf : ∀ w, fst (find_cover_image w) = inl (first_existing (files w) cover_patterns))
    by reflexivity.
  split; [|split].
  - intros w p. rewrite Hf. split.
    + intros [= H]. by apply first_existing_some.
    + intros H. f_equal. by apply first_existing_some.
  - intros w. rewrite Hf. split.
    + intros [= H]. by apply first_existing_none.
    + intros H. f_equal. by apply first_existing_none.
  - intros w H1 _. rewrite Hf. f_equal. apply first_existing_some. exists 0%nat.
    split; [reflexivity|]. split; [done|]. intros j q Hj. lia.
Qed.

Lemma find_cover_image_first_candidate_witness :
  fst (find_cover_image
         (World (<["cover.jpg" := "a"]> (<["Cover.png" := "b"]> ∅)) [] []))
  = inl (Some "cover.jpg").
Proof.
  apply (proj2 (proj2 (proj2 (proj2 (proj2 find_cover_image_first_candidate))))).
  - cbn [files]. rewrite lookup_insert_eq. eauto.
  - cbn [files]. rewrite lookup_insert_ne by done. rewrite lookup_insert_eq. eauto.
Defined.

Lemma extract_episode_number_nonempty f tag :
  extract_episode_number f = Some tag → tag ≠ "".
Proof.
  rewrite extract_ladder. intros H ->.
  repeat match type of H with match ?r with _ => _ end = _ => destruct r end;
    discriminate H.
Qed.

Lemma truthy_extract f :
  truthy (extract_episode_number f) = bool_decide (is_Some (extract_episode_number f)).
Proof.
  destruct (extract_episode_number f) as [tag|] eqn:E; unfold truthy.
  - apply extract_episode_number_nonempty in E.
    rewrite bool_decide_eq_true_2 by eauto.
    destruct (String.eqb tag "") eqn:Et; [|done]. by apply String.eqb_eq in Et.
  - rewrite bool_decide_eq_false_2; [done|]. by intros [? ?].
Qed.

Lemma spawned_with_sidecar e video_file thumbnail_path w :
  spawned (with_sidecar e video_file thumbnail_path w) = spawned w.
Proof.
  unfold with_sidecar. destruct thumbnail_path as [t|]; [|done].
  destruct (files w !! t); [|done]. by destruct (copy2_fails e t _).
Qed.

Lemma spawned_finished e thumbnail_path video_file metadata w :
  spawned (finished e thumbnail_path video_file metadata w)
  = (spawned w ++ [tag_command video_file metadata])%list.
Proof.
  unfold finished.
  destruct (tag_result e video_file metadata w) as [[|]|ex];
    rewrite ?spawned_with_sidecar; cbn [say spawned]; apply spawned_tagged.
Qed.

(** C4: the movie variant hands the tagger exactly title = stem and
    album = "Movies"; the TV variant hands it title = stem, album = show =
    the show name, followed by episode_id exactly when the extractor finds a
    tag in the stem, and then with that tag. *)
Theorem metadata_of_video :
  (∀ video_file, movie_metadata video_file = [("title", stem video_file); ("album", "Movies")])
  ∧ (∀ e thumbnail_path video_file w,
       spawned (snd (process_movie e thumbnail_path video_file w))
       = (spawned w ++
          [metadata_command video_file [("title", stem video_file); ("album", "Movies")]
             (with_suffix video_file ".temp.mp4")])%list)
  ∧ (∀ show_name video_file,
       tv_metadata show_name video_file
       = ([("title", stem video_file); ("album", show_name); ("show", show_name)]
          ++ match extract_episode_number (stem video_file) with
             | Some tag => [("episode_id", tag)]
             | None => []
             end)%list)
  ∧ (∀ show_name video_file tag,
       ("episode_id", tag) ∈ tv_metadata show_name video_file
       ↔ extract_episode_number (stem video_file) = Some tag)
  ∧ (∀ e show_name thumbnail_path video_file w,
       spawned (snd (process_episode e show_name thumbnail_path video_file w))
       = (spawned w ++
          [metadata_command video_file (tv_metadata show_name video_file)
             (with_suffix video_file ".temp.mp4")])%list).
Proof.
  assert (Htv : ∀ show_name video_file,
       tv_metadata show_name video_file
       = ([("title", stem video_file); ("album", show_name); ("show", show_name)]
          ++ match extract_episode_number (stem video_file) with
             | Some tag => [("episode_id", tag)]
             | None => []
             end)%list).
  { intros show_name video_file. unfold tv_metadata. rewrite truthy_extract.
    destruct (extract_episode_number (stem video_file)) as [tag|]; [|done].
    rewrite bool_decide_eq_true_2 by eauto. reflexivity. }
  split; [done|]. split.
  { intros. rewrite process_movie_run. cbn [snd]. unfold movie_step, step.
    by rewrite spawned_finished. }
  split; [exact Htv|]. split.
  { intros show_name video_file tag. rewrite Htv.
    destruct (extract_episode_number (stem video_file)) as [tag'|]; cbn [app].
    - rewrite !elem_of_cons, elem_of_nil. split.
      + intros [H|[H|[H|[H|[]]]]]; try discriminate H. by injection H as ->.
      + intros [= ->]. tauto.
    - rewrite !elem_of_cons, elem_of_nil. split; [|done].
      intros [H|[H|[H|[]]]]; discriminate H. }
  intros. rewrite process_episode_run. cbn [snd]. unfold episode_step, step.
  by rewrite spawned_finished.
Qed.

(** *** What cleanup does to the directory *)

Lemma swept_files e names n w x :
  files (snd (swept e names n w)) !! x
  = if bool_decide (x ∈ names) && negb (unlink_fails e x) then None else files w !! x.
Proof.
  revert n w. induction names as [|y names IH]; intros n w; cbn [swept].
  - rewrite bool_decide_eq_false_2; [done|]. apply not_elem_of_nil.
  - assert (Hin : bool_decide (x ∈ y :: names)
                  = bool_decide (x = y) || bool_decide (x ∈ names)).
    { apply eq_true_iff_eq. rewrite orb_true_iff, !bool_decide_eq_true, elem_of_cons. done. }
    rewrite Hin. clear Hin. destruct (decide (x = y)) as [->|Hne].
    + rewrite (bool_decide_eq_true_2 (y = y)) by done. cbn [orb].
      destruct (files w !! y) as [c|] eqn:E.
      * destruct (unlink_fails e y) eqn:F; rewrite IH, ?F; cbn [say files negb].
        -- by rewrite andb_false_r.
        -- rewrite lookup_delete_eq. by destruct (_ && _).
      * rewrite IH, E. by do 2 destruct (_ && _).
    + rewrite (bool_decide_eq_false_2 (x = y)) by done. cbn [orb].
      destruct (files w !! y) as [c|] eqn:E; [|apply IH].
      destruct (unlink_fails e y) eqn:F; rewrite IH; cbn [say files]; [done|].
      by rewrite lookup_delete_ne.
Qed.

Lemma swept_stdout_mono e names n w msg :
  msg ∈ stdout w → msg ∈ stdout (snd (swept e names n w)).
Proof.
  revert n w. induction names as [|y names IH]; intros n w H; cbn [swept]; [done|].
  destruct (files w !! y); [|by apply IH].
  destruct (unlink_fails e y); apply IH; cbn [say stdout]; apply elem_of_app; by left.
Qed.

Lemma swept_reports e names n w x :
  x ∈ names → is_Some (files w !! x) → unlink_fails e x = true →
  FailedToRemove x ∈ stdout (snd (swept e names n w)).
Proof.
  revert n w. induction names as [|y names IH]; intros n w Hin Hx Hf; cbn [swept].
  - by apply elem_of_nil in Hin.
  - destruct (decide (x = y)) as [->|Hne].
    + destruct Hx as [c Hc]. rewrite Hc, Hf. apply swept_stdout_mono.
      cbn [say stdout]. apply elem_of_app. right. by left.
    + apply elem_of_cons in Hin as [?|Hin]; [done|].
      destruct (files w !! y) as [c|] eqn:E; [|by apply IH].
      destruct (unlink_fails e y); apply IH; try done.
      cbn [files]. by rewrite lookup_delete_ne.
Qed.

Lemma files_cleaned e w :
  files (cleaned e w) = files (snd (swept e files_to_remove 0 (say [CleaningUp] w))).
Proof.
  unfold cleaned. generalize (swept e files_to_remove 0 (say [CleaningUp] w)).
  intros [n w']. cbn [fst snd]. by destruct (0 <? n)%nat.
Qed.

Lemma stdout_cleaned e w msg :
  msg ∈ stdout (snd (swept e files_to_remove 0 (say [CleaningUp] w))) →
  msg ∈ stdout (cleaned e w).
Proof.
  unfold cleaned. generalize (swept e files_to_remove 0 (say [CleaningUp] w)).
  intros [n w']. cbn [fst snd]. intros H.
  destruct (0 <? n)%nat; cbn [say stdout]; apply elem_of_app; by left.
Qed.

Lemma mp4_not_removed name : ends_with ".mp4" name = true → name ∉ files_to_remove.
Proof.
  intros H Hin. unfold files_to_remove in Hin.
  repeat (apply elem_of_cons in Hin as [->|Hin]; [by vm_compute in H|]).
  by apply elem_of_nil in Hin.
Qed.

(** *** Command lines without NUL *)

Lemma no_null_app (a b : string) : no_null (a +:+ b) = no_null a && no_null b.
Proof. unfold no_null. rewrite any_char_app. by destruct (any_char _ a). Qed.

Lemma no_null_digits s : all_chars is_digit s = true → no_null s = true.
Proof.
  unfold no_null. induction s as [|c s IH]; cbn [all_chars any_char]; [done|].
  intros H. apply andb_prop in H as [Hc Hs]. apply IH in Hs.
  apply negb_true_iff in Hs. rewrite Hs, orb_false_r.
  destruct (Ascii.eqb "000" c) eqn:E; [|done]. apply Ascii.eqb_eq in E. by subst c.
Qed.

Lemma no_null_fmt02d n : no_null (fmt02d n) = true.
Proof.
  destruct (fmt02d_cases n) as [[-> _]|[-> _]].
  - apply no_null_digits, str_digits.
  - apply no_null_digits. cbn [all_chars]. by rewrite str_digits.
Qed.

Lemma no_null_prefix i s : no_null s = true → no_null (substring 0 i s) = true.
Proof.
  unfold no_null. revert s. induction i as [|i IH]; intros [|c s]; cbn [substring any_char];
    try done.
  intros H. apply negb_true_iff, orb_false_iff in H as [Hc Hs].
  rewrite Hc. cbn [orb]. apply IH. by rewrite Hs.
Qed.

Lemma no_null_stem name : no_null name = true → no_null (stem name) = true.
Proof.
  intros H. unfold stem, split_suffix. destruct (rfind_dot name) as [i|]; [|done].
  destruct (_ && _); [|done]. cbn [fst]. by apply no_null_prefix.
Qed.

Lemma no_null_with_suffix name new_suffix :
  no_null name = true → no_null new_suffix = true →
  no_null (with_suffix name new_suffix) = true.
Proof.
  intros H1 H2. unfold with_suffix. by rewrite no_null_app, no_null_stem, H2.
Qed.

Lemma no_null_extract f tag : extract_episode_number f = Some tag → no_null tag = true.
Proof.
  rewrite extract_ladder. intros H.
  repeat match type of H with match ?r with _ => _ end = _ => destruct r end;
    try discriminate H; injection H as <-;
    unfold season_episode_tag, season_one_tag, episode_tag;
    by rewrite !no_null_app, !no_null_fmt02d.
Qed.

Lemma embedded_null_app (a b : list string) :
  embedded_null (a ++ b) = embedded_null a || embedded_null b.
Proof. apply existsb_app. Qed.

Lemma metadata_command_plain video_path metadata temp_path :
  no_null video_path = true → no_null temp_path = true →
  (∀ key value, (key, value) ∈ metadata → no_null key = true ∧ no_null value = true) →
  embedded_null (metadata_command video_path metadata temp_path) = false.
Proof.
  intros Hv Ht Hmd. unfold metadata_command. rewrite !embedded_null_app.
  apply negb_true_iff in Hv, Ht.
  assert (Hargs : embedded_null
            (concat (map (λ kv, ["-metadata"; fst kv +:+ "=" +:+ snd kv]) metadata)) = false).
  { induction metadata as [|[key value] md IH]; [done|].
    cbn [map concat]. rewrite embedded_null_app, IH.
    - destruct (Hmd key value) as [Hk Hval]; [by left|].
      unfold embedded_null. cbn [existsb fst snd any_char orb].
      assert (Ha : no_null (key +:+ "=" +:+ value) = true)
        by (by rewrite !no_null_app, Hk, Hval).
      apply negb_true_iff in Ha. by rewrite Ha.
    - intros k v0 Hin. apply Hmd. by right. }
  rewrite Hargs. unfold embedded_null. cbn [existsb any_char orb]. by rewrite Hv, Ht.
Qed.

Lemma movie_command_plain v :
  no_null v = true → embedded_null (tag_command v (movie_metadata v)) = false.
Proof.
  intros Hv. apply metadata_command_plain; [done|by apply no_null_with_suffix|].
  intros key value Hin. unfold movie_metadata in Hin.
  repeat (apply elem_of_cons in Hin as [[= -> ->]|Hin]; [by rewrite ?no_null_stem|]).
  by apply elem_of_nil in Hin.
Qed.

Lemma tv_metadata_entries show_name video_file :
  tv_metadata show_name video_file
  = ([("title", stem video_file); ("album", show_name); ("show", show_name)]
     ++ match extract_episode_number (stem video_file) with
        | Some tag => [("episode_id", tag)]
        | None => []
        end)%list.
Proof.
  unfold tv_metadata. rewrite truthy_extract.
  destruct (extract_episode_number (stem video_file)) as [tag|]; [|done].
  rewrite bool_decide_eq_true_2 by eauto. reflexivity.
Qed.

Lemma tv_command_plain show_name v :
  no_null show_name = true → no_null v = true →
  embedded_null (tag_command v (tv_metadata show_name v)) = false.
Proof.
  intros Hs Hv. apply metadata_command_plain; [done|by apply no_null_with_suffix|].
  intros key value Hin. rewrite tv_metadata_entries in Hin.
  apply elem_of_app in Hin as [Hin|Hin].
  - repeat (apply elem_of_cons in Hin as [[= -> ->]|Hin]; [by rewrite ?no_null_stem|]).
    by apply elem_of_nil in Hin.
  - destruct (extract_episode_number (stem v)) as [tag|] eqn:E; [|by apply elem_of_nil in Hin].
    apply list_elem_of_singleton in Hin as [= -> ->]. split; [done|].
    by apply no_null_extract in E.
Qed.

(** *** One video of a batch *)

Section OneVideo.
Variables (e : env) (thumbnail_path : option string).
Variables (metadata : string → dict) (announce : string → list message).

Local Abbreviation turn := (step e thumbnail_path metadata announce).

Lemma stdout_with_sidecar_mono v w msg :
  msg ∈ stdout w → msg ∈ stdout (with_sidecar e v thumbnail_path w).
Proof.
  intros H. unfold with_sidecar. destruct thumbnail_path as [t|]; [|done].
  destruct (files w !! t); [|done].
  destruct (copy2_fails e t _); cbn [say stdout]; apply elem_of_app; by left.
Qed.

Lemma stdout_tagged_mono v md w msg :
  msg ∈ stdout w → msg ∈ stdout (tagged e v md w).
Proof.
  intros H. unfold tagged. destruct (embedded_null _); [done|].
  destruct (ffmpeg e _ _); cbn [stdout]; try done.
  apply elem_of_app; by left.
Qed.

Lemma stdout_finished_mono v md w msg :
  msg ∈ stdout w → msg ∈ stdout (finished e thumbnail_path v md w).
Proof.
  intros H. unfold finished. destruct (tag_result e v md w) as [[|]|ex].
  - apply stdout_with_sidecar_mono. cbn [say stdout]. apply elem_of_app. left.
    by apply stdout_tagged_mono.
  - cbn [say stdout]. apply elem_of_app. left. by apply stdout_tagged_mono.
  - by apply stdout_tagged_mono.
Qed.

Lemma spawned_fold_step videos w :
  spawned (fold_left turn videos w)
  = (spawned w ++ map (λ v, tag_command v (metadata v)) videos)%list.
Proof.
  revert w. induction videos as [|v videos IH]; intros w; cbn [fold_left map].
  - by rewrite app_nil_r.
  - rewrite IH. unfold step. rewrite spawned_finished. cbn [say spawned].
    by rewrite <- List.app_assoc.
Qed.

(** On a quiet system the tagger returns, with these worlds. *)
Hypothesis Hquiet : quiet e.

Lemma tagged_exit0 v md w out :
  embedded_null (tag_command v md) = false →
  ffmpeg e (files w) (tag_command v md) = Exit0 out →
  tag_result e v md w = inl true
  ∧ tagged e v md w
    = World (<[v := out]> (delete (temp_of v) (files w))) (stdout w)
        (spawned w ++ [tag_command v md]).
Proof.
  intros Hn Hf. destruct Hquiet as (_ & Hren & _).
  pose proof (temp_path_fresh v) as Hne. fold (temp_of v) in Hne.
  unfold tag_result, tagged. rewrite Hn, Hf. cbn [transcoded].
  unfold move_raises, moved. rewrite lookup_insert_eq, Hren. cbn [andb].
  split; [done|]. f_equal.
  rewrite delete_insert_ne by done. by rewrite delete_insert_eq.
Qed.

Lemma tagged_nonzero v md w partial :
  embedded_null (tag_command v md) = false →
  ffmpeg e (files w) (tag_command v md) = ExitNonZero partial →
  tag_result e v md w = inl false
  ∧ tagged e v md w
    = World (delete (temp_of v) (files w)) (stdout w ++ [ErrorAddingMetadata v])
        (spawned w ++ [tag_command v md]).
Proof.
  intros Hn Hf. destruct Hquiet as (_ & _ & Hdel).
  unfold tag_result, tagged. rewrite Hn, Hf. unfold temp_of. rewrite Hdel.
  rewrite andb_false_r. split; [done|]. f_equal.
  destruct partial as [part|]; cbn [transcoded]; [|done]. by rewrite delete_insert_eq.
Qed.

Lemma step_returns w v :
  embedded_null (tag_command v (metadata v)) = false →
  step_result e metadata announce w v = inl ().
Proof.
  intros Hn. unfold step_result, finish_result.
  destruct (ffmpeg e (files (say (announce v) w)) (tag_command v (metadata v)))
    as [out| |partial] eqn:Hf.
  - by destruct (tagged_exit0 _ _ _ _ Hn Hf) as [-> _].
  - by destruct Hquiet as (Hout & _ & _); destruct (Hout _ _ Hf).
  - by destruct (tagged_nonzero _ _ _ _ Hn Hf) as [-> _].
Qed.

Lemma finished_exit0 v md w out :
  embedded_null (tag_command v md) = false →
  ffmpeg e (files w) (tag_command v md) = Exit0 out →
  MetadataAdded v ∈ stdout (finished e thumbnail_path v md w)
  ∧ (thm_of v ≠ v → files (finished e thumbnail_path v md w) !! v = Some out)
  ∧ ∀ thumbnail c,
      thumbnail_path = Some thumbnail →
      <[v := out]> (delete (temp_of v) (files w)) !! thumbnail = Some c →
      copy2_fails e thumbnail (thm_of v) = false →
      files (finished e thumbnail_path v md w) !! thm_of v = Some c
      ∧ ThumbnailCreated v ∈ stdout (finished e thumbnail_path v md w).
Proof.
  intros Hn Hf. unfold finished. destruct (tagged_exit0 _ _ _ _ Hn Hf) as [-> ->].
  split; [|split].
  - apply stdout_with_sidecar_mono. cbn [say stdout]. apply elem_of_app. right. by left.
  - intros Hne. unfold with_sidecar. destruct thumbnail_path as [t|]; cbn [say files].
    + destruct (_ !! t) as [c|]; cbn [say files].
      * destruct (copy2_fails e t _); cbn [say files].
        -- by rewrite lookup_insert_eq.
        -- rewrite lookup_insert_ne by done. by rewrite lookup_insert_eq.
      * by rewrite lookup_insert_eq.
    + by rewrite lookup_insert_eq.
  - intros t c -> Ht Hc. unfold with_sidecar. cbn [say files]. rewrite Ht, Hc.
    cbn [files stdout]. rewrite lookup_insert_eq. split; [done|].
    apply elem_of_app. right. by left.
Qed.

Lemma finished_nonzero v md w partial :
  embedded_null (tag_command v md) = false →
  ffmpeg e (files w) (tag_command v md) = ExitNonZero partial →
  MetadataFailed v ∈ stdout (finished e thumbnail_path v md w)
  ∧ files (finished e thumbnail_path v md w) = delete (temp_of v) (files w).
Proof.
  intros Hn Hf. unfold finished. destruct (tagged_nonzero _ _ _ _ Hn Hf) as [-> ->].
  cbn [say stdout files].
  split; [|done]. apply elem_of_app. right. by left.
Qed.

(** The loop over videos whose command lines have no NUL. *)
Lemma for_each_quiet (body : string → M unit) videos w :
  (∀ v w0, body v w0 = (step_result e metadata announce w0 v, turn w0 v)) →
  (∀ v, v ∈ videos → embedded_null (tag_command v (metadata v)) = false) →
  for_each videos body w = (inl (), fold_left turn videos w).
Proof.
  intros Hbody Hn. rewrite (for_each_run _ _ _ _ _ Hbody).
  assert (Hr : loop_result (step_result e metadata announce) turn videos w = inl ()).
  { apply loop_returns. intros v w0 Hv. apply step_returns. by apply Hn. }
  by rewrite Hr, reached_all.
Qed.

Lemma body_isolated (body : string → M unit) :
  (∀ v, Processing v ∈ announce v) →
  (∀ v w, body v w = (step_result e metadata announce w v, turn w v)) →
  (∀ v, no_null v = true → embedded_null (tag_command v (metadata v)) = false) →
  isolated e thumbnail_path body metadata.
Proof.
  intros Hann Hbody Hplain videos w Hvideos.
  assert (Hn : ∀ v, v ∈ videos → embedded_null (tag_command v (metadata v)) = false).
  { intros v Hv. by apply Hplain, Hvideos. }
  rewrite (for_each_quiet body videos w Hbody Hn). cbn [fst snd].
  split; [done|]. split; [apply spawned_fold_step|].
  intros before video after ->.
  assert (Hnb : ∀ v, v ∈ before → embedded_null (tag_command v (metadata v)) = false).
  { intros v Hv. apply Hn, elem_of_app. by left. }
  assert (Hna : ∀ v, v ∈ after → embedded_null (tag_command v (metadata v)) = false).
  { intros v Hv. apply Hn, elem_of_app. right. by right. }
  assert (Hnv : embedded_null (tag_command video (metadata video)) = false).
  { apply Hn, elem_of_app. right. by left. }
  rewrite (for_each_quiet body before w Hbody Hnb), Hbody. cbn [snd].
  rewrite (for_each_quiet body after _ Hbody Hna). cbn [snd].
  rewrite fold_left_app. cbn [fold_left]. split; [done|].
  set (w1 := fold_left turn before w).
  fold (temp_of video) (thm_of video). fold (tag_command video (metadata video)).
  split.
  { apply stdout_finished_mono. cbn [say stdout]. apply elem_of_app. right. apply Hann. }
  split.
  - intros out Hf. by apply (finished_exit0 _ _ (say (announce video) w1)) in Hf.
  - intros partial Hf.
    apply (finished_nonzero _ _ (say (announce video) w1)) in Hf as [H1 H2]; [|done].
    split; [exact H1|]. unfold step. rewrite H2. cbn [say files].
    apply lookup_delete_ne. apply temp_path_fresh.
Qed.
End OneVideo.

(** *** Names in the directory across a run *)

Lemma elem_of_listing e w v :
  v ∈ listing e w ↔
  ends_with ".mp4" v = true ∧ is_Some (files w !! v) ∧ v ∈ scandir e (files w).
Proof. unfold listing. rewrite list_elem_of_filter. tauto. Qed.

Lemma cover_not_mp4 p : p ∈ cover_patterns → ends_with ".mp4" p = false.
Proof.
  intros Hp. destruct (ends_with ".mp4" p) eqn:E; [|done].
  apply mp4_not_removed in E. destruct E. by right.
Qed.

Lemma files_cleaned_some e w n :
  is_Some (files (cleaned e w) !! n) → is_Some (files w !! n).
Proof.
  rewrite files_cleaned, swept_files. cbn [say files].
  destruct (_ && _); [|done]. by intros [? ?].
Qed.

Lemma files_cleaned_keeps e w n :
  n ∉ files_to_remove → files (cleaned e w) !! n = files w !! n.
Proof.
  intros Hn. rewrite files_cleaned, swept_files. by rewrite bool_decide_eq_false_2.
Qed.

Lemma files_prepared e w n :
  n ≠ "thumbnail.jpg" → files (snd (prepared e w)) !! n = files w !! n.
Proof.
  intros Hne. unfold prepared. destruct (first_existing _ _) as [cover|]; [|done].
  destruct (ffmpeg e _ _) as [out| |[part|]]; cbn [snd files]; by rewrite ?lookup_insert_ne.
Qed.

Lemma files_prepared_keeps e w n :
  is_Some (files w !! n) → is_Some (files (snd (prepared e w)) !! n).
Proof.
  intros H. unfold prepared. destruct (first_existing _ _) as [cover|]; [|done].
  destruct (ffmpeg e _ _) as [out| |[part|]]; cbn [snd files]; try done;
    apply lookup_insert_is_Some'; by right.
Qed.

Lemma listing_prepared e w v :
  v ∈ listing e (snd (prepared e w)) → ends_with ".mp4" v = true ∧ is_Some (files w !! v).
Proof.
  intros Hv. apply elem_of_listing in Hv as (Hm & Hs & _). split; [done|].
  rewrite files_prepared in Hs; [done|]. intros ->. discriminate Hm.
Qed.

(** *** The whole run *)

Section WholeRunShape.
Variables (e : env) (metadata : string → dict) (announce : string → list message).
Variable (first_message : message).

(** The world after a run is the world after the turns of some videos of
    the listing, cleaned up when the loop has returned. *)
Lemma batch_world w :
  let p := prepared e (say [first_message] w) in
  let w_loop := say [FoundMp4Files (length (listing e (snd p)))] (snd p) in
  ∃ turns,
    (∀ v, v ∈ turns → v ∈ listing e (snd p))
    ∧ (snd (batch_done e metadata announce first_message w)
       = cleaned e (fold_left (step e (fst p) metadata announce) turns w_loop)
       ∨ snd (batch_done e metadata announce first_message w)
         = fold_left (step e (fst p) metadata announce) turns w_loop).
Proof.
  intros p w_loop. unfold batch_done. fold p. fold w_loop.
  set (result := step_result e metadata announce).
  set (turn := step e (fst p) metadata announce).
  exists (reached result turn (listing e (snd p)) w_loop).
  split; [intros v; apply reached_elem|].
  destruct (loop_result result turn (listing e (snd p)) w_loop) as [[]|ex];
    [by left|by right].
Qed.

(** When the run has returned, every video of the listing had its turn,
    and cleanup has taken place. *)
Lemma batch_returned w :
  let p := prepared e (say [first_message] w) in
  let w_loop := say [FoundMp4Files (length (listing e (snd p)))] (snd p) in
  fst (batch_done e metadata announce first_message w) = inl () →
  snd (batch_done e metadata announce first_message w)
  = cleaned e (fold_left (step e (fst p) metadata announce) (listing e (snd p)) w_loop).
Proof.
  intros p w_loop. unfold batch_done. fold p. fold w_loop.
  destruct (loop_result _ _ _ _) as [[]|ex] eqn:Hl; [|done]. intros _. cbn [snd].
  by rewrite reached_all.
Qed.

(** On a quiet system, with names without NUL, the run returns. *)
Lemma batch_quiet w :
  quiet e →
  (∀ v, no_null v = true → embedded_null (tag_command v (metadata v)) = false) →
  (∀ name, is_Some (files w !! name) → no_null name = true) →
  let p := prepared e (say [first_message] w) in
  let w_loop := say [FoundMp4Files (length (listing e (snd p)))] (snd p) in
  batch_done e metadata announce first_message w
  = (inl (), cleaned e (fold_left (step e (fst p) metadata announce) (listing e (snd p)) w_loop))
  ∧ ∀ body : string → M unit,
      (∀ v w0, body v w0
               = (step_result e metadata announce w0 v, step e (fst p) metadata announce w0 v)) →
      for_each (listing e (snd p)) body w_loop
      = (inl (), fold_left (step e (fst p) metadata announce) (listing e (snd p)) w_loop).
Proof.
  intros Hq Hplain Hnames p w_loop.
  assert (Hn : ∀ v, v ∈ listing e (snd p) →
                    embedded_null (tag_command v (metadata v)) = false).
  { intros v Hv. apply Hplain, Hnames. apply listing_prepared in Hv as [_ Hs].
    by cbn [say files] in Hs. }
  assert (Hr : loop_result (step_result e metadata announce)
                 (step e (fst p) metadata announce) (listing e (snd p)) w_loop = inl ()).
  { apply loop_returns. intros v w0 Hv. apply step_returns; [done|]. by apply Hn. }
  split.
  - unfold batch_done. fold p. fold w_loop. by rewrite Hr, reached_all.
  - intros body Hbody. by apply for_each_quiet.
Qed.
End WholeRunShape.

Lemma quiet_without_faults f scan :
  (∀ dir cmd, f dir cmd ≠ Exit0NoOutput) →
  quiet (Env f (λ _ _, false) (λ _, false) scan (λ _ _, false)).
Proof. intros H. by repeat split. Qed.




(** An entry at "a.temp.mp4" that cannot be removed, a transcoder that
    fails on "a.mp4": the loop ends at "a.mp4" with an exception,
    "b.mp4", which the transcoder would accept, is not processed, and
    cleanup is not reached. *)
Example batch_stops_when_delete_is_refused :
  let e := Env (λ _ cmd, if String.eqb (nth 2 cmd "") "a.mp4"
                       then ExitNonZero None else Exit0 "tagged")
               (λ _ _, false) (λ path, String.eqb path "a.temp.mp4")
               (λ _, ["a.mp4"; "b.mp4"]) (λ _ _, false) in
  let w := World (<["a.mp4" := "video a"]> (<["b.mp4" := "video b"]>
                    (<["a.temp.mp4" := "kept"]> ∅))) [] [] in
  fst (process_movies e w) = inr OSError
  ∧ files (snd (process_movies e w)) !! "b.mp4" = Some "video b"
  ∧ stdout (snd (process_movies e w))
    = [ProcessingMovies; NoCoverImage; FoundMp4Files 2;
       Processing "a.mp4"; ErrorAddingMetadata "a.mp4"]
  ∧ spawned (snd (process_movies e w))
    = [metadata_command "a.mp4" [("title", "a"); ("album", "Movies")] "a.temp.mp4"].
Proof. intros e w. repeat split; vm_compute; reflexivity. Qed.

(** *** Files a run keeps *)

Lemma files_with_sidecar_keeps e v thumbnail_path w n :
  is_Some (files w !! n) → is_Some (files (with_sidecar e v thumbnail_path w) !! n).
Proof.
  intros H. unfold with_sidecar. destruct thumbnail_path as [t|]; [|done].
  destruct (files w !! t) as [c|]; [|done].
  destruct (copy2_fails e t _); cbn [say files]; [done|].
  apply lookup_insert_is_Some'. by right.
Qed.

Lemma files_finished_keeps e thumbnail_path v md w n :
  n ≠ temp_of v → is_Some (files w !! n) →
  is_Some (files (finished e thumbnail_path v md w) !! n).
Proof.
  intros Hne H. unfold finished.
  destruct (tag_result e v md w) as [[|]|ex]; cbn [say files];
    try apply files_with_sidecar_keeps; cbn [say files]; by apply files_tagged_keeps.
Qed.

Lemma files_fold_keeps e thumbnail_path metadata announce videos w n :
  (∀ v, v ∈ videos → n ≠ temp_of v) → is_Some (files w !! n) →
  is_Some (files (fold_left (step e thumbnail_path metadata announce) videos w) !! n).
Proof.
  revert w. induction videos as [|v videos IH]; intros w Hv H; cbn [fold_left]; [done|].
  apply IH.
  - intros v' Hv'. apply Hv. by right.
  - unfold step. apply files_finished_keeps; [apply Hv; by left|done].
Qed.

Section WholeRun.
Variables (e : env) (metadata : string → dict) (announce : string → list message).
Variable (first_message : message).

Lemma run_keeps w n :
  is_Some (files w !! n) → n ∉ files_to_remove →
  (∀ v, ends_with ".mp4" v = true → is_Some (files w !! v) →
        n ≠ with_suffix v ".temp.mp4") →
  is_Some (files (snd (batch_done e metadata announce first_message w)) !! n).
Proof.
  intros Hn Hrm Htemp.
  destruct (batch_world e metadata announce first_message w) as (turns & Hturns & Hw).
  assert (Hfold : is_Some (files (fold_left
            (step e (fst (prepared e (say [first_message] w))) metadata announce) turns
            (say [FoundMp4Files (length (listing e (snd (prepared e (say [first_message] w)))))]
               (snd (prepared e (say [first_message] w))))) !! n)).
  { apply files_fold_keeps.
    - intros v Hv. apply Hturns, listing_prepared in Hv as [Hm Hs]. cbn [say files] in Hs.
      by apply Htemp.
    - cbn [say files]. by apply files_prepared_keeps. }
  destruct Hw as [-> | ->]; [|done]. by rewrite files_cleaned_keeps.
Qed.
End WholeRun.

Lemma process_movies_keeps e w n :
  is_Some (files w !! n) → n ∉ files_to_remove →
  (∀ v, ends_with ".mp4" v = true → is_Some (files w !! v) →
      n ≠ with_suffix v ".temp.mp4") →
  is_Some (files (snd (process_movies e w)) !! n).
Proof. intros. rewrite process_movies_run. by apply run_keeps. Qed.

Lemma process_tv_show_keeps e show_name w n :
  is_Some (files w !! n) → n ∉ files_to_remove →
  (∀ v, ends_with ".mp4" v = true → is_Some (files w !! v) →
      n ≠ with_suffix v ".temp.mp4") →
  is_Some (files (snd (process_tv_show e show_name w)) !! n).
Proof. intros. rewrite process_tv_show_run. by apply run_keeps. Qed.

(** *** Two runs of the movie variant *)

Lemma files_finished_some e v md w n :
  quiet e → embedded_null (tag_command v md) = false →
  is_Some (files (finished e None v md w) !! n) → is_Some (files w !! n) ∨ n = v.
Proof.
  intros Hq Hn. unfold finished, with_sidecar.
  destruct (ffmpeg e (files w) (tag_command v md)) as [out| |partial] eqn:Hf.
  - destruct (tagged_exit0 e Hq _ _ _ _ Hn Hf) as [-> ->]. cbn [say files].
    destruct (decide (n = v)) as [->|Hne]; [by right|].
    rewrite lookup_insert_ne by done. intros H. left.
    destruct (decide (n = temp_of v)) as [->|Hne'].
    + rewrite lookup_delete_eq in H. by destruct H.
    + by rewrite lookup_delete_ne in H.
  - by destruct Hq as (Hout & _ & _); destruct (Hout _ _ Hf).
  - destruct (tagged_nonzero e Hq _ _ _ _ Hn Hf) as [-> ->]. cbn [say files].
    intros H. left. destruct (decide (n = temp_of v)) as [->|Hne'].
    + rewrite lookup_delete_eq in H. by destruct H.
    + by rewrite lookup_delete_ne in H.
Qed.

Lemma files_fold_movie_some e videos w n :
  quiet e → (∀ v, v ∈ videos → no_null v = true) →
  is_Some (files (fold_left (movie_step e None) videos w) !! n) →
  is_Some (files w !! n) ∨ n ∈ videos.
Proof.
  intros Hq. revert w. induction videos as [|v videos IH]; intros w Hv; cbn [fold_left];
    [by left|].
  intros H. apply IH in H as [H|H]; [|right; by right|intros v' Hv'; apply Hv; by right].
  unfold movie_step, step in H. apply files_finished_some in H as [H| ->]; [by left| |done|].
  - right. by left.
  - apply movie_command_plain, Hv. by left.
Qed.

Lemma prepared_cover_free e w :
  first_existing (files w) cover_patterns = None → prepared e w = (None, say [NoCoverImage] w).
Proof. intros H. unfold prepared. by rewrite H. Qed.

Lemma spawned_cleaned e w : spawned (cleaned e w) = spawned w.
Proof.
  unfold cleaned.
  assert (Hs : ∀ names n w0, spawned (snd (swept e names n w0)) = spawned w0).
  { induction names as [|y names IH]; intros n w0; cbn [swept]; [done|].
    destruct (files w0 !! y); [|apply IH]. destruct (unlink_fails e y); by rewrite IH. }
  specialize (Hs files_to_remove 0%nat (say [CleaningUp] w)).
  revert Hs. generalize (swept e files_to_remove 0 (say [CleaningUp] w)).
  intros [n w']. cbn [fst snd]. intros Hs. by destruct (0 <? n)%nat.
Qed.

Section CoverFree.
Variables (e : env) (w : world).
Hypothesis Hquiet : quiet e.
Hypothesis Hnames : ∀ name, is_Some (files w !! name) → no_null name = true.
Hypothesis Hcover : first_existing (files w) cover_patterns = None.

Lemma movies_done_cover_free :
  movies_done e w
  = (inl (),
     cleaned e
       (fold_left (movie_step e None) (listing e w)
          (say [FoundMp4Files (length (listing e w))]
             (say [NoCoverImage] (say [ProcessingMovies] w))))).
Proof.
  unfold movies_done.
  destruct (batch_quiet e movie_metadata (λ v, [Processing v]) ProcessingMovies w Hquiet)
    as [-> _]; [by intros; apply movie_command_plain|done|].
  by rewrite prepared_cover_free.
Qed.

Lemma spawned_movies_done :
  spawned (snd (movies_done e w))
  = (spawned w ++ map (λ v, tag_command v (movie_metadata v)) (listing e w))%list.
Proof.
  rewrite movies_done_cover_free. cbn [snd]. rewrite spawned_cleaned.
  change (movie_step e None) with (step e None movie_metadata (λ v, [Processing v])).
  by rewrite spawned_fold_step.
Qed.

Lemma files_movies_done_some n :
  is_Some (files (snd (movies_done e w)) !! n) → is_Some (files w !! n) ∨ n ∈ listing e w.
Proof.
  rewrite movies_done_cover_free. cbn [snd]. intros Hn.
  apply files_cleaned_some, files_fold_movie_some in Hn; [done..|].
  intros v Hv. apply Hnames. by apply elem_of_listing in Hv as (_ & Hs & _).
Qed.

Lemma files_movies_done_keeps v :
  (∀ v', v' ∈ listing e w → files w !! temp_of v' = None) →
  v ∈ listing e w → is_Some (files (snd (movies_done e w)) !! v).
Proof.
  intros Htemp Hv. rewrite movies_done_cover_free. cbn [snd].
  apply elem_of_listing in Hv as (Hm & Hs & Hscan).
  rewrite files_cleaned_keeps by by apply mp4_not_removed.
  apply files_fold_keeps; [|done].
  intros v' Hv' ->. rewrite (Htemp v' Hv') in Hs. by destruct Hs.
Qed.
End CoverFree.



(** X1: the cleanup stage.  It never fails; it removes each of the sixteen names
    ("thumbnail.jpg" and the fifteen cover candidates) unless the delete
    of that name is refused, which it reports; it leaves every other name,
    and so every video, as it found it.  Both batch variants end with it
    when their loop has returned: after a run that returns the sixteen
    names are gone; and after any run, returned or not, a file that is
    not one of them and does not bear the temporary name of a video of the
    directory is still there under its name. *)
Theorem cleanup_removes_only_covers :
  files_to_remove = "thumbnail.jpg" :: cover_patterns
  ∧ length files_to_remove = 16%nat
  ∧ (∀ e w,
       fst (cleanup_for_psp e w) = inl ()
       ∧ (∀ name, name ∈ files_to_remove → unlink_fails e name = false →
            files (snd (cleanup_for_psp e w)) !! name = None)
       ∧ (∀ name, name ∈ files_to_remove → is_Some (files w !! name) →
            unlink_fails e name = true →
            files (snd (cleanup_for_psp e w)) !! name = files w !! name
            ∧ FailedToRemove name ∈ stdout (snd (cleanup_for_psp e w)))
       ∧ (∀ name, name ∉ files_to_remove →
            files (snd (cleanup_for_psp e w)) !! name = files w !! name)
       ∧ (∀ name, ends_with ".mp4" name = true →
            files (snd (cleanup_for_psp e w)) !! name = files w !! name))
  ∧ (∀ e w,
       (fst (process_movies e w) = inl () →
        ∀ name, name ∈ files_to_remove → unlink_fails e name = false →
          files (snd (process_movies e w)) !! name = None)
       ∧ (∀ name, is_Some (files w !! name) → name ∉ files_to_remove →
            (∀ v, ends_with ".mp4" v = true → is_Some (files w !! v) →
                  name ≠ with_suffix v ".temp.mp4") →
            is_Some (files (snd (process_movies e w)) !! name)))
  ∧ (∀ e show_name w,
       (fst (process_tv_show e show_name w) = inl () →
        ∀ name, name ∈ files_to_remove → unlink_fails e name = false →
          files (snd (process_tv_show e show_name w)) !! name = None)
       ∧ (∀ name, is_Some (files w !! name) → name ∉ files_to_remove →
            (∀ v, ends_with ".mp4" v = true → is_Some (files w !! v) →
                  name ≠ with_suffix v ".temp.mp4") →
            is_Some (files (snd (process_tv_show e show_name w)) !! name))).
Proof.
  assert (Hgone : ∀ e w name, name ∈ files_to_remove → unlink_fails e name = false →
            files (cleaned e w) !! name = None).
  { intros e w name Hin Hf. rewrite files_cleaned, swept_files, Hf.
    by rewrite bool_decide_eq_true_2. }
  split; [reflexivity|]. split; [reflexivity|]. split; [|split].
  - intros e w. rewrite cleanup_for_psp_run. cbn [fst snd].
    split; [done|]. split; [by apply Hgone|]. split; [|split].
    + intros name Hin Hx Hf. split.
      * rewrite files_cleaned, swept_files, Hf. cbn. by rewrite andb_false_r.
      * apply stdout_cleaned. by apply swept_reports.
    + apply files_cleaned_keeps.
    + intros name Hn. apply files_cleaned_keeps. by apply mp4_not_removed.
  - intros e w. split.
    + rewrite process_movies_run. intros Hr name. unfold movies_done in *.
      rewrite batch_returned by done. apply Hgone.
    + intros name. apply process_movies_keeps.
  - intros e show_name w. split.
    + rewrite process_tv_show_run. intros Hr name. unfold tv_show_done in *.
      rewrite batch_returned by done. apply Hgone.
    + intros name. apply process_tv_show_keeps.
Qed.

(** A directory with a cover and one video: the cover is removed, the
    video stays. *)
Example cleanup_removes_only_covers_example :
  let e := Env (λ _ _, Exit0 "out") (λ _ _, false) (λ _, false)
               (λ dir, elements (dom dir)) (λ _ _, false) in
  let w := World (<["cover.jpg" := "image"]> (<["a.mp4" := "video"]> ∅)) [] [] in
  files (snd (cleanup_for_psp e w)) !! "cover.jpg" = None
  ∧ files (snd (cleanup_for_psp e w)) !! "a.mp4" = files w !! "a.mp4"
  ∧ files (snd (process_movies e w)) !! "cover.jpg" = None
  ∧ is_Some (files (snd (process_movies e w)) !! "a.mp4").
Proof.
  intros e w.
  destruct cleanup_removes_only_covers as (_ & _ & Hclean & Hrun & _).
  destruct (Hclean e w) as (_ & Hgone & _ & _ & Hmp4).
  destruct (Hrun e w) as (Hgone' & Hkeep).
  assert (Hin : "cover.jpg" ∈ files_to_remove).
  { apply (list_elem_of_lookup_2 _ 1%nat). reflexivity. }
  split; [by apply Hgone|]. split; [by apply Hmp4|].
  split; [apply Hgone'; [vm_compute; reflexivity|done..]|].
  apply Hkeep.
  - unfold w. cbn [files]. rewrite lookup_insert_ne by done. rewrite lookup_insert_eq. eauto.
  - by apply mp4_not_removed.
  - intros v _ _ Heq. apply (f_equal String.length) in Heq.
    unfold with_suffix in Heq. rewrite sapp_length in Heq. simpl in Heq. lia.
Defined.

(** C8: a directory that holds "a.mp4" and "a.temp.mp4", a transcoder
    that succeeds exactly on the inputs that exist, the movie variant: the
    tagged copy of "a.mp4" is written to "a.temp.mp4" and renamed onto
    "a.mp4", so that "a.temp.mp4" is no longer in the directory after the
    run, whichever of the two is listed first.  The claim has every
    original video still there; the cleanup stage, for its part, removes
    nothing but its sixteen names. *)
Theorem temp_name_clash_loses_video :
  let transcoder := λ (dir : directory) (cmd : list string),
    match dir !! nth 2 cmd "" with
    | Some content => Exit0 ("tagged " +:+ content)
    | None => ExitNonZero None
    end in
  let e1 := Env transcoder (λ _ _, false) (λ _, false) (λ _, ["a.mp4"; "a.temp.mp4"])
              (λ _ _, false) in
  let e2 := Env transcoder (λ _ _, false) (λ _, false) (λ _, ["a.temp.mp4"; "a.mp4"])
              (λ _ _, false) in
  let w := World (<["a.mp4" := "video a"]> (<["a.temp.mp4" := "video temp"]> ∅)) [] [] in
  files w !! "a.temp.mp4" = Some "video temp"
  ∧ fst (process_movies e1 w) = inl ()
  ∧ files (snd (process_movies e1 w)) !! "a.temp.mp4" = None
  ∧ files (snd (process_movies e1 w)) !! "a.mp4" = Some "tagged video a"
  ∧ stdout (snd (process_movies e1 w))
    = [ProcessingMovies; NoCoverImage; FoundMp4Files 2;
       Processing "a.mp4"; MetadataAdded "a.mp4";
       Processing "a.temp.mp4"; ErrorAddingMetadata "a.temp.mp4";
       MetadataFailed "a.temp.mp4"; CleaningUp; NothingToCleanUp]
  ∧ fst (process_movies e2 w) = inl ()
  ∧ files (snd (process_movies e2 w)) !! "a.temp.mp4" = None
  ∧ files (snd (process_movies e2 w)) !! "a.mp4" = Some "tagged video a"
  ∧ (∀ e w name, ends_with ".mp4" name = true →
       files (snd (cleanup_for_psp e w)) !! name = files w !! name).
Proof.
  intros transcoder e1 e2 w.
  repeat (split; [vm_compute; reflexivity|]).
  intros e w0 name Hn. rewrite cleanup_for_psp_run. cbn [snd].
  apply files_cleaned_keeps. by apply mp4_not_removed.
Qed.

(* ===================================================================== *)
(** ** The rules and the tags of the extractor *)
(* ===================================================================== *)

(** X2: the extractor leaves its own tags alone.  Whatever tag it reads
    from a filename, reading that tag again gives the same tag: a file
    renamed to its tag keeps its episode id. *)
Theorem extracted_tag_is_fixed_point :
  (∀ f tag, extract_episode_number f = Some tag → extract_episode_number tag = Some tag)
  ∧ extract_episode_number "Show.s1e2" = Some "S01E02"
  ∧ extract_episode_number "S01E02" = Some "S01E02"
  ∧ extract_episode_number "a 1080 b 7" = Some "E1080"
  ∧ extract_episode_number "E1080" = Some "E1080".
Proof.
  split; [|repeat split; reflexivity].
  intros f tag H. by apply is_tag_fixed, (extract_is_tag f).
Qed.

Lemma extracted_tag_is_fixed_point_witness :
  extract_episode_number "S03E123" = Some "S03E123".
Proof.
  apply (proj1 extracted_tag_is_fixed_point "show 3x123 " "S03E123"). reflexivity.
Defined.

(** X3: the format of a tag.  Every tag the extractor returns is
    S<season>E<episode> or E<episode>, each number written with two
    digits, or with more and then without a leading zero; and the strings of
    that format are exactly the ones the extractor returns unchanged. *)
Theorem tags_have_the_format :
  (∀ f tag, extract_episode_number f = Some tag → is_tag tag = true)
  ∧ (∀ tag, is_tag tag = true ↔ extract_episode_number tag = Some tag)
  ∧ (∀ n, padded (fmt02d n) = true ∧ int (fmt02d n) = n)
  ∧ (∀ d, padded d = true → fmt02d (int d) = d)
  ∧ is_tag "S01E02" = true ∧ is_tag "E100" = true
  ∧ is_tag "S1E2" = false ∧ is_tag "E007" = false ∧ is_tag "s01e02" = false.
Proof.
  split; [apply extract_is_tag|]. split.
  { intros tag. split; [apply is_tag_fixed|apply extract_is_tag]. }
  split; [intros n; split; [apply fmt02d_padded|apply int_fmt02d]|].
  split; [apply fmt02d_int|]. repeat split; reflexivity.
Qed.

Lemma tags_have_the_format_witness :
  is_tag "S03E123" = true ∧ fmt02d (int "07") = "07".
Proof.
  split.
  - apply (proj1 tags_have_the_format "show 3x123 " "S03E123"). reflexivity.
  - apply (proj1 (proj2 (proj2 (proj2 tags_have_the_format))) "07"). reflexivity.
Defined.

(** X4: the rule <digits>x<digits>.  A filename without S<d>E<d> that
    contains digits, an x in either case and digits yields
    S{season:02d}E{episode:02d} for the leftmost such occurrence; a
    resolution such as 1920x1080 is read that way. *)
Theorem s_x_e_rule :
  (∀ f, ¬ contains s_e_shape f → contains s_x_e_shape f →
     ∃ season episode, leftmost s_x_e_shape f [season; episode] ∧
       extract_episode_number f
       = Some ("S" +:+ fmt02d (int season) +:+ "E" +:+ fmt02d (int episode)))
  ∧ (∀ f, has_letter "x" f = false → ¬ contains s_x_e_shape f)
  ∧ extract_episode_number "Show 3X07" = Some "S03E07"
  ∧ extract_episode_number "Movie 1920x1080" = Some "S1920E1080"
  ∧ extract_episode_number "Movie 1920x1080 Ep 4" = Some "S1920E1080".
Proof.
  split; [|split; [|repeat split; reflexivity]].
  - intros f H1 Hc. apply rule1_none in H1.
    destruct (contains_leftmost _ _ s_x_e_at_some s_x_e_extend f Hc) as [g Hg].
    assert (∃ season episode, g = [season; episode]) as (season & episode & ->).
    { destruct Hg as (pre & t & post & _ & H & _). by apply s_x_e_two_groups in H. }
    exists season, episode. split; [done|]. apply rule2_some in Hg.
    rewrite extract_ladder, H1, Hg. reflexivity.
  - intros f Hx Hc. apply s_x_e_needs_x in Hc. congruence.
Qed.

Lemma s_x_e_rule_witness :
  ∃ season episode, leftmost s_x_e_shape "12 34x56" [season; episode] ∧
    extract_episode_number "12 34x56"
    = Some ("S" +:+ fmt02d (int season) +:+ "E" +:+ fmt02d (int episode)).
Proof.
  apply (proj1 s_x_e_rule "12 34x56").
  - apply rule1_none. reflexivity.
  - exists "12 ", "34x56", ["34"; "56"], "". split; [reflexivity|].
    exists "34", "x"%char, "56". repeat split; reflexivity.
Defined.

(** X5: the rule Episode<blanks><digits>.  When the four rules before it
    find nothing, a filename that contains the word Episode in any case,
    blanks or none, and digits yields E{n:02d} for the number after the
    leftmost such word. *)
Theorem episode_word_rule :
  (∀ f, ¬ contains s_e_shape f → ¬ contains s_x_e_shape f → ¬ contains ep_shape f →
     ¬ (∃ g, dash_shape f g) →
     contains (word_blank_number_shape "Episode") f →
     ∃ d, leftmost (word_blank_number_shape "Episode") f [d] ∧
       extract_episode_number f = Some ("E" +:+ fmt02d (int d)))
  ∧ extract_episode_number "Pilot Episode 3" = Some "E03"
  ∧ extract_episode_number "2 EPISODE12 of 20" = Some "E12"
  ∧ extract_episode_number "2-Episode 3" = Some "S01E02".
Proof.
  split; [|repeat split; reflexivity].
  intros f H1 H2 H3 H4 Hc.
  apply rule1_none in H1. apply rule2_none in H2. apply rule3_none in H3.
  apply rule4_none in H4.
  destruct (contains_leftmost _ _ (word_blank_number_at_some "Episode")
              (word_blank_number_extend "Episode") f Hc) as [g Hg].
  destruct (leftmost_one_group _ _ _ (word_one_group "Episode") Hg) as [d ->].
  exists d. split; [done|]. apply rule5_some in Hg.
  rewrite extract_ladder, H1, H2, H3, H4, Hg. reflexivity.
Qed.

Lemma episode_word_rule_witness :
  ∃ d, leftmost (word_blank_number_shape "Episode") "2 episode  07" [d] ∧
    extract_episode_number "2 episode  07" = Some ("E" +:+ fmt02d (int d)).
Proof.
  apply (proj1 episode_word_rule "2 episode  07").
  - apply rule1_none. reflexivity.
  - apply rule2_none. reflexivity.
  - apply rule3_none. reflexivity.
  - apply rule4_none. reflexivity.
  - exists "2 ", "episode  07", ["07"], "". split; [reflexivity|].
    exists "episode", "  ", "07". repeat split; reflexivity.
Defined.

(* ===================================================================== *)
(** ** More on a batch *)
(* ===================================================================== *)

Import Batch.

Lemma filter_ext_elem {A} (P Q : A → Prop) `{∀ x, Decision (P x)} `{∀ x, Decision (Q x)}
    (l : list A) :
  (∀ x, x ∈ l → P x ↔ Q x) → filter P l = filter Q l.
Proof.
  induction l as [|x l IH]; intros Hl; [done|].
  rewrite !filter_cons. rewrite IH by (intros y Hy; apply Hl; by right).
  destruct (decide (P x)) as [Hp|Hp], (decide (Q x)) as [Hq|Hq]; try done.
  - destruct Hq. apply Hl; [by left|done].
  - destruct Hp. apply Hl; [by left|done].
Qed.

Lemma flat_map_ext_elem {A B} (f g : A → list B) (l : list A) :
  (∀ x, x ∈ l → f x = g x) → flat_map f l = flat_map g l.
Proof.
  induction l as [|x l IH]; intros Hl; [done|]. simpl.
  rewrite (Hl x) by (by left). rewrite IH; [done|]. intros y Hy. apply Hl. by right.
Qed.

(** The loop of cleanup over names without repetition: the count it
    returns, what it prints and what it leaves. *)
Lemma swept_closed e names n w :
  NoDup names →
  fst (swept e names n w) = n + length (removable e (files w) names)
  ∧ stdout (snd (swept e names n w)) = (stdout w ++ flat_map (report e (files w)) names)%list
  ∧ size (files w) = size (files (snd (swept e names n w))) + length (removable e (files w) names).
Proof.
  revert n w. induction names as [|y names IH]; intros n w Hnd.
  - cbn. rewrite app_nil_r. repeat split; lia.
  - apply NoDup_cons in Hnd as [Hy Hnd]. cbn [swept flat_map].
    assert (Hcons : removable e (files w) (y :: names)
                    = if decide (is_Some (files w !! y) ∧ unlink_fails e y = false)
                      then y :: removable e (files w) names
                      else removable e (files w) names).
    { unfold removable. by rewrite filter_cons. }
    rewrite Hcons. clear Hcons. unfold report at 1.
    destruct (files w !! y) as [c|] eqn:E.
    + destruct (unlink_fails e y) eqn:F.
      * destruct (IH n (say [FailedToRemove y] w) Hnd) as (H1 & H2 & H3).
        cbn [say files stdout] in *. rewrite decide_False by (intros [_ ?]; discriminate).
        rewrite H1, H2, <- H3. by rewrite <- List.app_assoc.
      * set (w' := World (delete y (files w)) (stdout w ++ [Removed y]) (spawned w)).
        destruct (IH (n + 1) w' Hnd) as (H1 & H2 & H3).
        assert (Hf : removable e (files w') names = removable e (files w) names).
        { apply filter_ext_elem. intros x Hx. unfold w'. cbn [files].
          rewrite lookup_delete_ne; [done|]. by intros ->. }
        assert (Hr : flat_map (report e (files w')) names
                     = flat_map (report e (files w)) names).
        { apply flat_map_ext_elem. intros x Hx. unfold report, w'. cbn [files].
          rewrite lookup_delete_ne; [done|]. by intros ->. }
        rewrite decide_True by eauto.
        rewrite H1, H2, Hf, Hr. cbn [length]. split; [lia|]. split.
        -- unfold w'. cbn [stdout]. by rewrite <- List.app_assoc.
        -- rewrite <- Hf, Nat.add_succ_r, <- H3. unfold w'. cbn [files].
           rewrite map_size_delete_Some by eauto.
           assert (size (files w) ≠ 0).
           { intros Hz. apply map_size_empty_inv in Hz. rewrite Hz in E.
             by rewrite lookup_empty in E. }
           lia.
    + rewrite decide_False by (intros [[? ?] _]; done).
      apply (IH n w Hnd).
Qed.

Lemma files_to_remove_NoDup : NoDup files_to_remove.
Proof. apply (bool_decide_unpack _). by vm_compute. Qed.

(** X6: the count of cleanup.  [cleanup_for_psp] removes exactly the names
    of its list that are in the directory and whose delete is not refused;
    the count it prints is the number of files that are gone, it prints one
    line for each name it found, in the order of the list, and it says that
    there was nothing to clean up exactly when it removed nothing. *)
Theorem cleanup_counts_what_it_removes (e : env) (w : world) :
  let w' := snd (cleanup_for_psp e w) in
  let removed := removable e (files w) files_to_remove in
  size (files w) = size (files w') + length removed
  ∧ (∀ name, files w' !! name
             = if bool_decide (name ∈ removed) then None else files w !! name)
  ∧ stdout w'
    = (stdout w ++ [CleaningUp] ++ flat_map (report e (files w)) files_to_remove
       ++ (if (0 <? length removed)%nat
           then [CleanedUp (length removed); NowCompatible]
           else [NothingToCleanUp]))%list.
Proof.
  intros w' removed. subst w'. rewrite cleanup_for_psp_run. cbn [snd].
  destruct (swept_closed e files_to_remove 0 (say [CleaningUp] w) files_to_remove_NoDup)
    as (H1 & H2 & H3).
  cbn [say files stdout] in H1, H2, H3. fold removed in H1, H3.
  split; [|split].
  - by rewrite files_cleaned.
  - intros name. rewrite files_cleaned, swept_files. cbn [say files].
    subst removed.
    assert (Hin : name ∈ removable e (files w) files_to_remove
                  ↔ (is_Some (files w !! name) ∧ unlink_fails e name = false)
                    ∧ name ∈ files_to_remove).
    { unfold removable. by rewrite list_elem_of_filter. }
    destruct (files w !! name) as [c|] eqn:E.
    + destruct (unlink_fails e name) eqn:F; cbn [negb].
      * rewrite andb_false_r, bool_decide_eq_false_2; [done|].
        rewrite Hin. intros [[_ ?] _]. congruence.
      * rewrite andb_true_r.
        rewrite (bool_decide_ext (name ∈ removable e (files w) files_to_remove)
                   (name ∈ files_to_remove)); [done|].
        rewrite Hin. split; [by intros [_ ?]|eauto].
    + by destruct (bool_decide _ && _), (bool_decide _).
  - unfold cleaned. revert H1 H2.
    generalize (swept e files_to_remove 0 (say [CleaningUp] w)). intros [n w0].
    cbn [fst snd]. intros -> H2. cbn [Nat.add].
    destruct (0 <? length removed)%nat; cbn [say stdout]; rewrite H2;
      by rewrite <- !List.app_assoc.
Qed.

(** *** Files a run does not touch *)

Lemma files_with_sidecar_frame e v tp w n :
  tp = None ∨ n ≠ thm_of v → files (with_sidecar e v tp w) !! n = files w !! n.
Proof.
  intros H. unfold with_sidecar. destruct tp as [t|]; [|done].
  destruct H as [H|H]; [done|].
  destruct (files w !! t); [|done].
  destruct (copy2_fails e t _); cbn [say files]; [done|]. by rewrite lookup_insert_ne.
Qed.

Lemma files_finished_frame e tp v md w n :
  n ≠ v → n ≠ temp_of v → tp = None ∨ n ≠ thm_of v →
  files (finished e tp v md w) !! n = files w !! n.
Proof.
  intros H1 H2 H3. unfold finished. destruct (tag_result e v md w) as [[|]|ex].
  - rewrite files_with_sidecar_frame by done. cbn [say files].
    by apply files_tagged_frame.
  - cbn [say files]. by apply files_tagged_frame.
  - by apply files_tagged_frame.
Qed.

Lemma files_fold_frame e tp md ann videos w n :
  (∀ v, v ∈ videos → n ≠ v ∧ n ≠ temp_of v ∧ (tp = None ∨ n ≠ thm_of v)) →
  files (fold_left (step e tp md ann) videos w) !! n = files w !! n.
Proof.
  revert w. induction videos as [|v videos IH]; intros w Hv; cbn [fold_left]; [done|].
  rewrite IH by (intros v' Hv'; apply Hv; by right).
  destruct (Hv v) as (H1 & H2 & H3); [by left|].
  unfold step. rewrite files_finished_frame by done. done.
Qed.

Lemma not_mp4_not_video n v :
  ends_with ".mp4" n = false → ends_with ".mp4" v = true → n ≠ v ∧ n ≠ temp_of v.
Proof.
  intros Hn Hv. split; intros ->; [congruence|].
  unfold temp_of in Hn. by rewrite temp_path_mp4 in Hn.
Qed.

Lemma fst_prepared_say e msgs w : fst (prepared e (say msgs w)) = fst (prepared e w).
Proof.
  unfold prepared. cbn [say files]. destruct (first_existing _ _); [|done].
  by destruct (ffmpeg e _ _).
Qed.

Section WholeRunFrame.
Variables (e : env) (metadata : string → dict) (announce : string → list message).
Variable (first_message : message).

Lemma run_frame w n :
  ends_with ".mp4" n = false → n ∉ files_to_remove →
  (fst (prepared e w) = None
   ∨ ∀ v, ends_with ".mp4" v = true → is_Some (files w !! v) → n ≠ thm_of v) →
  files (snd (batch_done e metadata announce first_message w)) !! n = files w !! n.
Proof.
  intros Hn Hrm Hthm.
  destruct (batch_world e metadata announce first_message w) as (turns & Hturns & Hw).
  set (p := prepared e (say [first_message] w)) in *.
  assert (Hfold : files (fold_left (step e (fst p) metadata announce) turns
                           (say [FoundMp4Files (length (listing e (snd p)))] (snd p))) !! n
                  = files w !! n).
  { rewrite files_fold_frame.
    - cbn [say files]. unfold p. rewrite files_prepared; [done|].
      intros ->. apply Hrm. by left.
    - intros v Hv. apply Hturns, listing_prepared in Hv as [Hm Hs]. cbn [say files] in Hs.
      destruct (not_mp4_not_video n v Hn Hm) as [H1 H2]. split; [done|]. split; [done|].
      unfold p. rewrite fst_prepared_say. destruct Hthm as [Hthm|Hthm]; [by left|right].
      by apply Hthm. }
  destruct Hw as [-> | ->]; [|done]. by rewrite files_cleaned_keeps.
Qed.
End WholeRunFrame.

Lemma prepare_thumbnail_none e w :
  fst (prepare_thumbnail e w) = inl None ↔ fst (prepared e w) = None.
Proof.
  rewrite prepare_thumbnail_run. cbn [fst]. split; [by intros [= ->]|by intros ->].
Qed.

(** X7: what a run leaves alone.  A file that is no .mp4 file, is not one
    of the sixteen names of cleanup and is not the sidecar <stem>.THM of a
    video of the directory has after a whole run, of either variant, the
    content it had; and when there is no thumbnail to copy, because no cover
    was found or because its conversion failed, no sidecar is written
    either, so that the last condition falls away. *)
Theorem run_leaves_other_files :
  (∀ e w,
     fst (prepare_thumbnail e w) = inl None
     ↔ match first_existing (files w) cover_patterns with
       | Some cover =>
           ∃ partial,
             ffmpeg e (files w)
               ["ffmpeg"; "-i"; cover; "-vf"; "scale=160:120"; "-q:v"; "2"; "-y";
                "thumbnail.jpg"]
             = ExitNonZero partial
       | None => True
       end)
  ∧ (∀ e w name,
       ends_with ".mp4" name = false → name ∉ files_to_remove →
       (fst (prepare_thumbnail e w) = inl None
        ∨ ∀ v, ends_with ".mp4" v = true → is_Some (files w !! v) →
               name ≠ with_suffix v ".THM") →
       files (snd (process_movies e w)) !! name = files w !! name
       ∧ ∀ show_name, files (snd (process_tv_show e show_name w)) !! name = files w !! name).
Proof.
  split.
  - intros e w. rewrite prepare_thumbnail_none. unfold prepared.
    destruct (first_existing _ _) as [cover|]; [|done].
    fold (thumbnail_command cover).
    destruct (ffmpeg e _ _) as [out| |partial]; cbn [fst]; split; try done; eauto;
      by intros [? ?].
  - intros e w name Hn Hrm Hthm. rewrite prepare_thumbnail_none in Hthm. split.
    + rewrite process_movies_run. by apply run_frame.
    + intros show_name. rewrite process_tv_show_run. by apply run_frame.
Qed.

Lemma run_leaves_other_files_witness :
  let e := Env (λ _ _, Exit0 "out") (λ _ _, false) (λ _, false) (λ _, ["a.mp4"])
             (λ _ _, false) in
  let w := World (<["notes.txt" := "notes"]> (<["a.mp4" := "video"]> ∅)) [] [] in
  files (snd (process_movies e w)) !! "notes.txt" = files w !! "notes.txt"
  ∧ ∀ show_name, files (snd (process_tv_show e show_name w)) !! "notes.txt"
                 = files w !! "notes.txt".
Proof.
  intros e w. apply (proj2 run_leaves_other_files e w "notes.txt").
  - reflexivity.
  - intros Hin. unfold files_to_remove in Hin.
    repeat (apply elem_of_cons in Hin as [Hin|Hin]; [discriminate Hin|]).
    by apply elem_of_nil in Hin.
  - left. vm_compute. reflexivity.
Defined.

(** *** Sidecars *)

Lemma thm_path_thm name : ends_with ".THM" (with_suffix name ".THM") = true.
Proof. unfold with_suffix. by rewrite ends_with_app. Qed.

Lemma thm_not_removed name : ends_with ".THM" name = true → name ∉ files_to_remove.
Proof.
  intros H Hin. unfold files_to_remove in Hin.
  repeat (apply elem_of_cons in Hin as [->|Hin]; [by vm_compute in H|]).
  by apply elem_of_nil in Hin.
Qed.

Lemma stdout_fold_mono e tp md ann videos w msg :
  msg ∈ stdout w → msg ∈ stdout (fold_left (step e tp md ann) videos w).
Proof.
  revert w. induction videos as [|v videos IH]; intros w H; cbn [fold_left]; [done|].
  apply IH. unfold step. apply stdout_finished_mono. cbn [say stdout].
  apply elem_of_app. by left.
Qed.

Lemma stdout_cleaned_mono e w msg : msg ∈ stdout w → msg ∈ stdout (cleaned e w).
Proof.
  intros H. apply stdout_cleaned, swept_stdout_mono. cbn [say stdout].
  apply elem_of_app. by left.
Qed.

Section Sidecars.
Variables (e : env) (metadata : string → dict) (announce : string → list message).
Variable thumb : string.

Local Abbreviation turn := (step e (Some "thumbnail.jpg") metadata announce).

Lemma thumbnail_survives_turn w v :
  ends_with ".mp4" v = true →
  files (turn w v) !! "thumbnail.jpg" = files w !! "thumbnail.jpg".
Proof.
  intros Hv. unfold step.
  destruct (not_mp4_not_video "thumbnail.jpg" v eq_refl Hv) as [H1 H2].
  rewrite files_finished_frame; [done..|]. right. intros E.
  pose proof (thm_path_thm v) as H. fold (thm_of v) in H. by rewrite <- E in H.
Qed.

Lemma thumbnail_survives_fold videos w :
  (∀ v, v ∈ videos → ends_with ".mp4" v = true) →
  files (fold_left turn videos w) !! "thumbnail.jpg" = files w !! "thumbnail.jpg".
Proof.
  revert w. induction videos as [|v videos IH]; intros w Hv; cbn [fold_left]; [done|].
  rewrite IH by (intros v' Hv'; apply Hv; by right).
  apply thumbnail_survives_turn, Hv. by left.
Qed.

Lemma sidecar_survives_turn w v v' :
  ends_with ".mp4" v' = true →
  files w !! "thumbnail.jpg" = Some thumb →
  files w !! thm_of v = Some thumb →
  files (turn w v') !! thm_of v = Some thumb.
Proof.
  intros Hv' Ht Hs.
  destruct (not_mp4_not_video (thm_of v) v' (thm_path_not_mp4 v) Hv') as [H1 H2].
  assert (Htag : ∀ w0, files w0 = files w →
            files (tagged e v' (metadata v') w0) !! thm_of v = Some thumb
            ∧ files (tagged e v' (metadata v') w0) !! "thumbnail.jpg" = Some thumb).
  { intros w0 E. destruct (not_mp4_not_video "thumbnail.jpg" v' eq_refl Hv') as [H3 H4].
    rewrite !files_tagged_frame by done. by rewrite E. }
  unfold step, finished.
  destruct (Htag (say (announce v') w) eq_refl) as [Hs' Ht'].
  destruct (tag_result _ _ _ _) as [[|]|ex]; cbn [say files]; [|done..].
  unfold with_sidecar. cbn [say files]. rewrite Ht'.
  destruct (copy2_fails e _ _); cbn [say files]; [done|].
  destruct (decide (thm_of v = thm_of v')) as [->|Hne].
  - by rewrite lookup_insert_eq.
  - by rewrite lookup_insert_ne.
Qed.

Lemma sidecar_survives_fold videos w v :
  (∀ v', v' ∈ videos → ends_with ".mp4" v' = true) →
  files w !! "thumbnail.jpg" = Some thumb →
  files w !! thm_of v = Some thumb →
  files (fold_left turn videos w) !! thm_of v = Some thumb.
Proof.
  revert w. induction videos as [|v' videos IH]; intros w Hv Ht Hs; cbn [fold_left]; [done|].
  apply IH.
  - intros v'' Hv''. apply Hv. by right.
  - rewrite thumbnail_survives_turn; [done|]. apply Hv. by left.
  - apply sidecar_survives_turn; [|done..]. apply Hv. by left.
Qed.

Hypothesis Hquiet : quiet e.

Lemma sidecar_of_turn w v out :
  ends_with ".mp4" v = true →
  embedded_null (tag_command v (metadata v)) = false →
  files w !! "thumbnail.jpg" = Some thumb →
  ffmpeg e (files w) (tag_command v (metadata v)) = Exit0 out →
  if copy2_fails e "thumbnail.jpg" (thm_of v)
  then ThumbnailFailed v ∈ stdout (turn w v)
  else files (turn w v) !! thm_of v = Some thumb ∧ ThumbnailCreated v ∈ stdout (turn w v).
Proof.
  intros Hv Hn Ht Hf. unfold step, finished.
  destruct (tagged_exit0 e Hquiet v (metadata v) (say (announce v) w) out Hn Hf) as [-> ->].
  cbn [say files].
  destruct (not_mp4_not_video "thumbnail.jpg" v eq_refl Hv) as [H1 H2].
  unfold with_sidecar. cbn [say files stdout spawned].
  rewrite lookup_insert_ne, lookup_delete_ne, Ht by done.
  destruct (copy2_fails e _ _); cbn [say files stdout].
  - apply elem_of_app. right. by right; left.
  - rewrite lookup_insert_eq. split; [done|]. apply elem_of_app. right. by left.
Qed.

(** The loop and the cleanup after it. *)
Lemma sidecars_of_run (body : string → M unit) w_loop mp4_files :
  (∀ v w, body v w = (step_result e metadata announce w v, turn w v)) →
  (∀ v, v ∈ mp4_files → ends_with ".mp4" v = true) →
  (∀ v, v ∈ mp4_files → embedded_null (tag_command v (metadata v)) = false) →
  files w_loop !! "thumbnail.jpg" = Some thumb →
  sidecars e body metadata thumb w_loop mp4_files
    (cleaned e (fold_left turn mp4_files w_loop)).
Proof.
  intros Hbody Hmp4 Hplain Ht before v after -> w1 out Hf.
  assert (Hrun : for_each before body w_loop = (inl (), fold_left turn before w_loop)).
  { apply for_each_quiet; [done..|]. intros v' Hv'. apply Hplain, elem_of_app. by left. }
  subst w1. rewrite Hrun in Hf. cbn [snd] in Hf.
  rewrite fold_left_app. cbn [fold_left].
  set (w1 := fold_left turn before w_loop) in *.
  assert (Hb : ∀ v', v' ∈ before → ends_with ".mp4" v' = true).
  { intros v' Hv'. apply Hmp4, elem_of_app. by left. }
  assert (Ha : ∀ v', v' ∈ after → ends_with ".mp4" v' = true).
  { intros v' Hv'. apply Hmp4, elem_of_app. right. by right. }
  assert (Hv : ends_with ".mp4" v = true).
  { apply Hmp4, elem_of_app. right. by left. }
  assert (Ht1 : files w1 !! "thumbnail.jpg" = Some thumb).
  { unfold w1. by rewrite thumbnail_survives_fold. }
  fold (temp_of v) in Hf. fold (tag_command v (metadata v)) in Hf. fold (thm_of v).
  assert (Hnv : embedded_null (tag_command v (metadata v)) = false).
  { apply Hplain, elem_of_app. right. by left. }
  pose proof (sidecar_of_turn w1 v out Hv Hnv Ht1 Hf) as Hs.
  destruct (copy2_fails e "thumbnail.jpg" (thm_of v)).
  - by apply stdout_cleaned_mono, stdout_fold_mono.
  - destruct Hs as [Hs Hm]. split.
    + rewrite files_cleaned_keeps by (apply thm_not_removed, thm_path_thm).
      apply sidecar_survives_fold; [done| |done].
      by rewrite thumbnail_survives_turn.
    + by apply stdout_cleaned_mono, stdout_fold_mono.
Qed.
End Sidecars.

Lemma prepared_converted e w cover thumb :
  first_existing (files w) cover_patterns = Some cover →
  ffmpeg e (files w) (thumbnail_command cover) = Exit0 thumb →
  fst (prepared e w) = Some "thumbnail.jpg"
  ∧ files (snd (prepared e w)) = <["thumbnail.jpg" := thumb]> (files w).
Proof. intros Hc Hf. unfold prepared. by rewrite Hc, Hf. Qed.



Lemma sapp_inv_r (a b t : string) : a +:+ t = b +:+ t → a = b.
Proof.
  intros H. assert (Hl : String.length a = String.length b).
  { apply (f_equal String.length) in H. rewrite !sapp_length in H. lia. }
  rewrite <- (substring_prefix a t), <- (substring_prefix b t), H, Hl. done.
Qed.

Lemma ends_with_mp4 v : ends_with ".mp4" v = true ↔ ∃ s, v = s +:+ ".mp4".
Proof.
  split.
  - unfold ends_with. intros H. apply andb_prop in H as [Hl H].
    apply Nat.leb_le in Hl. apply String.eqb_eq in H. cbn [String.length] in *.
    destruct (substring_split (String.length v - 4) v) as (pre & rest & E & Hp & _ & Hr); [lia|].
    exists pre. replace (String.length v - (String.length v - 4)) with 4 in Hr by lia.
    congruence.
  - intros [s ->]. by rewrite ends_with_app.
Qed.

Lemma stem_mp4 s : s ≠ "" → stem (s +:+ ".mp4") = s.
Proof.
  intros Hs.
  assert (Hr : rfind_dot (s +:+ ".mp4") = Some (String.length s)).
  { rewrite rfind_dot_app. change (rfind_dot ".mp4") with (Some 0). f_equal. lia. }
  unfold stem, split_suffix. rewrite Hr, sapp_length. cbn [String.length].
  assert (0 < String.length s) by (destruct s; [done|simpl; lia]).
  replace ((0 <? String.length s)%nat && (String.length s <? String.length s + 4 - 1)%nat)
    with true.
  - cbn [fst]. apply substring_prefix.
  - symmetry. apply andb_true_iff. split; apply Nat.ltb_lt; lia.
Qed.

(** X9: the names derived from a video.  The glob *.mp4 lists the names
    s.mp4; for a non-empty s the title is s, the temporary file is
    s.temp.mp4 and the sidecar is s.THM, so that different videos have
    different temporary files and sidecars; the temporary name is itself
    matched by *.mp4 and differs from the video, the sidecar name is not
    matched.  The file named ".mp4" has no suffix to cut: it shares its
    temporary file and its sidecar with ".mp4.mp4". *)
Theorem paths_of_a_video :
  (∀ v, ends_with ".mp4" v = true ↔ ∃ s, v = s +:+ ".mp4")
  ∧ (∀ s, s ≠ "" →
       stem (s +:+ ".mp4") = s
       ∧ with_suffix (s +:+ ".mp4") ".temp.mp4" = s +:+ ".temp.mp4"
       ∧ with_suffix (s +:+ ".mp4") ".THM" = s +:+ ".THM"
       ∧ movie_metadata (s +:+ ".mp4") = [("title", s); ("album", "Movies")])
  ∧ (∀ s1 s2, s1 ≠ "" → s2 ≠ "" →
       (with_suffix (s1 +:+ ".mp4") ".THM" = with_suffix (s2 +:+ ".mp4") ".THM" → s1 = s2)
       ∧ (with_suffix (s1 +:+ ".mp4") ".temp.mp4" = with_suffix (s2 +:+ ".mp4") ".temp.mp4"
          → s1 = s2))
  ∧ (∀ v, ends_with ".mp4" (with_suffix v ".temp.mp4") = true
          ∧ with_suffix v ".temp.mp4" ≠ v
          ∧ ends_with ".mp4" (with_suffix v ".THM") = false)
  ∧ stem ".mp4" = ".mp4"
  ∧ with_suffix ".mp4" ".THM" = with_suffix ".mp4.mp4" ".THM"
  ∧ with_suffix ".mp4" ".temp.mp4" = with_suffix ".mp4.mp4" ".temp.mp4".
Proof.
  split; [apply ends_with_mp4|]. split; [|split; [|split]].
  - intros s Hs. unfold movie_metadata, with_suffix. by rewrite stem_mp4.
  - intros s1 s2 H1 H2. unfold with_suffix. rewrite !stem_mp4 by done.
    split; apply sapp_inv_r.
  - intros v. split; [apply temp_path_mp4|]. split; [apply temp_path_fresh|].
    apply thm_path_not_mp4.
  - repeat split; reflexivity.
Qed.

Lemma paths_of_a_video_witness :
  stem ("Show.s1e2" +:+ ".mp4") = "Show.s1e2"
  ∧ with_suffix ("Show.s1e2" +:+ ".mp4") ".temp.mp4" = "Show.s1e2" +:+ ".temp.mp4"
  ∧ with_suffix ("Show.s1e2" +:+ ".mp4") ".THM" = "Show.s1e2" +:+ ".THM"
  ∧ movie_metadata ("Show.s1e2" +:+ ".mp4") = [("title", "Show.s1e2"); ("album", "Movies")].
Proof. apply (proj1 (proj2 paths_of_a_video) "Show.s1e2"). discriminate. Defined.

(** *** Videos without a name clash *)

Section Videos.
Variables (e : env) (thumbnail_path : option string).
Variables (metadata : string → dict) (announce : string → list message).
Hypothesis Hquiet : quiet e.

Local Abbreviation turn := (step e thumbnail_path metadata announce).

Lemma turn_self w v :
  ends_with ".mp4" v = true →
  embedded_null (tag_command v (metadata v)) = false →
  (∀ out, ffmpeg e (files w) (tag_command v (metadata v)) = Exit0 out →
          files (turn w v) !! v = Some out)
  ∧ (∀ partial, ffmpeg e (files w) (tag_command v (metadata v)) = ExitNonZero partial →
                files (turn w v) !! v = files w !! v).
Proof.
  intros Hv Hn. unfold step, finished. split.
  - intros out Hf.
    destruct (tagged_exit0 e Hquiet v (metadata v) (say (announce v) w) out Hn Hf) as [-> ->].
    rewrite files_with_sidecar_frame.
    + cbn [say files]. apply lookup_insert_eq.
    + right. intros E. pose proof (thm_path_not_mp4 v) as H. fold (thm_of v) in H.
      rewrite <- E in H. congruence.
  - intros partial Hf.
    destruct (tagged_nonzero e Hquiet v (metadata v) (say (announce v) w) partial Hn Hf)
      as [-> ->].
    cbn [say files]. apply lookup_delete_ne, temp_path_fresh.
Qed.

Lemma turn_other w v n :
  ends_with ".mp4" n = true → n ≠ v →
  embedded_null (tag_command v (metadata v)) = false →
  files (turn w v) !! n = if decide (n = temp_of v) then None else files w !! n.
Proof.
  intros Hn Hne Hnull.
  assert (Hthm : thumbnail_path = None ∨ n ≠ thm_of v).
  { right. intros ->. unfold thm_of in Hn. by rewrite thm_path_not_mp4 in Hn. }
  unfold step, finished.
  destruct (ffmpeg e (files (say (announce v) w)) (tag_command v (metadata v)))
    as [out| |partial] eqn:Hf.
  - destruct (tagged_exit0 e Hquiet v (metadata v) _ out Hnull Hf) as [-> ->].
    rewrite files_with_sidecar_frame by done. cbn [say files].
    rewrite lookup_insert_ne by done.
    destruct (decide (n = temp_of v)) as [->|Hne']; [apply lookup_delete_eq|].
    by apply lookup_delete_ne.
  - by destruct Hquiet as (Hout & _ & _); destruct (Hout _ _ Hf).
  - destruct (tagged_nonzero e Hquiet v (metadata v) _ partial Hnull Hf) as [-> ->].
    cbn [say files].
    destruct (decide (n = temp_of v)) as [->|Hne']; [apply lookup_delete_eq|].
    by apply lookup_delete_ne.
Qed.

(** A .mp4 file is as it was, when the loop goes over other videos whose
    temporary names were free. *)
Lemma fold_other videos w0 w n :
  ends_with ".mp4" n = true → n ∉ videos →
  (∀ v, v ∈ videos → embedded_null (tag_command v (metadata v)) = false) →
  (∀ v, v ∈ videos → files w0 !! temp_of v = None) →
  files w !! n = files w0 !! n →
  files (fold_left turn videos w) !! n = files w0 !! n.
Proof.
  intros Hn. revert w. induction videos as [|v videos IH]; intros w Hin Hnull Ht Hw;
    cbn [fold_left]; [done|].
  apply not_elem_of_cons in Hin as [Hne Hin]. apply IH; [done| | |].
  - intros v' Hv'. apply Hnull. by right.
  - intros v' Hv'. apply Ht. by right.
  - rewrite turn_other; [|done..|apply Hnull; by left].
    destruct (decide (n = temp_of v)) as [->|_]; [|done].
    symmetry. apply Ht. by left.
Qed.

Lemma fold_self before v after w0 w :
  NoDup (before ++ v :: after) →
  (∀ v', v' ∈ (before ++ v :: after)%list → ends_with ".mp4" v' = true) →
  (∀ v', v' ∈ (before ++ v :: after)%list →
         embedded_null (tag_command v' (metadata v')) = false) →
  (∀ v', v' ∈ (before ++ v :: after)%list → files w0 !! temp_of v' = None) →
  is_Some (files w0 !! v) →
  (∀ n, ends_with ".mp4" n = true → files w !! n = files w0 !! n) →
  let result := ffmpeg e (files (fold_left turn before w)) (tag_command v (metadata v)) in
  (∀ out, result = Exit0 out →
          files (fold_left turn (before ++ v :: after) w) !! v = Some out)
  ∧ (∀ partial, result = ExitNonZero partial →
                files (fold_left turn (before ++ v :: after) w) !! v = files w0 !! v).
Proof.
  intros Hnd Hmp4 Hnull Ht Hv Hw result.
  apply NoDup_app in Hnd as (_ & Hb & Hnd). apply NoDup_cons in Hnd as [Ha _].
  assert (Hvm : ends_with ".mp4" v = true).
  { apply Hmp4, elem_of_app. right. by left. }
  assert (Hvn : embedded_null (tag_command v (metadata v)) = false).
  { apply Hnull, elem_of_app. right. by left. }
  rewrite fold_left_app. cbn [fold_left].
  set (w1 := fold_left turn before w) in *.
  assert (Hw1 : files w1 !! v = files w0 !! v).
  { apply fold_other; [done| | | |by apply Hw].
    - intros Hin. by apply (Hb v Hin); left.
    - intros v' Hv'. apply Hnull, elem_of_app. by left.
    - intros v' Hv'. apply Ht, elem_of_app. by left. }
  assert (Hrest : files (fold_left turn after (turn w1 v)) !! v = files (turn w1 v) !! v).
  { apply files_fold_frame. intros v' Hv'.
    assert (Hv'm : ends_with ".mp4" v' = true).
    { apply Hmp4, elem_of_app. right. by right. }
    split; [by intros ->|]. split.
    + intros E. destruct Hv as [c Hc]. rewrite E, Ht in Hc; [done|].
      apply elem_of_app. right. by right.
    + right. intros E. pose proof (thm_path_not_mp4 v') as H. fold (thm_of v') in H.
      rewrite <- E in H. congruence. }
  rewrite Hrest. destruct (turn_self w1 v Hvm Hvn) as [H0 H1]. split.
  - intros out Hf. by apply H0.
  - intros partial Hf. rewrite <- Hw1. by apply (H1 partial).
Qed.

Lemma videos_of_run (body : string → M unit) w w_loop mp4_files :
  (∀ v w0, body v w0 = (step_result e metadata announce w0 v, turn w0 v)) →
  NoDup mp4_files →
  (∀ v, v ∈ mp4_files →
        ends_with ".mp4" v = true ∧ is_Some (files w !! v)
        ∧ embedded_null (tag_command v (metadata v)) = false) →
  (∀ v, ends_with ".mp4" v = true → is_Some (files w !! v) →
        files w !! temp_of v = None) →
  (∀ n, ends_with ".mp4" n = true → files w_loop !! n = files w !! n) →
  tagged_or_kept e body metadata w w_loop mp4_files
    (cleaned e (fold_left turn mp4_files w_loop)).
Proof.
  intros Hbody Hnd Hlist Htemp Hloop.
  assert (Hfree : ∀ v, v ∈ mp4_files → files w !! temp_of v = None).
  { intros v Hv. destruct (Hlist v Hv) as (? & ? & _). by apply Htemp. }
  split.
  - intros before v after -> w1. subst w1.
    rewrite (for_each_quiet e thumbnail_path metadata announce Hquiet body before w_loop Hbody)
      by (intros v' Hv'; apply Hlist, elem_of_app; by left).
    cbn [snd].
    assert (Hv : ends_with ".mp4" v = true ∧ is_Some (files w !! v)).
    { destruct (Hlist v) as (? & ? & _); [|done]. apply elem_of_app. right. by left. }
    destruct Hv as [Hvm Hvs].
    rewrite files_cleaned_keeps by by apply mp4_not_removed.
    fold (temp_of v). fold (tag_command v (metadata v)).
    apply fold_self; try done; intros v' Hv'; by apply Hlist.
  - intros n Hn Hin. rewrite files_cleaned_keeps by by apply mp4_not_removed.
    apply fold_other; try done; [|by apply Hloop]. intros v Hv. by apply Hlist.
Qed.
End Videos.

Lemma NoDup_listing e w : NoDup (scandir e (files w)) → NoDup (listing e w).
Proof. apply NoDup_filter. Qed.

Lemma mp4_prepared e w n :
  ends_with ".mp4" n = true → files (snd (prepared e w)) !! n = files w !! n.
Proof. intros Hn. apply files_prepared. intros ->. discriminate Hn. Qed.



(* ===================================================================== *)
(** ** The console *)
(* ===================================================================== *)

Module ConsoleFacts.
Import Text Shape ReFacts Fs Writer Console.

(** *** [str.strip] *)

Lemma rstrip_blank s : all_chars is_space s = true → rstrip s = "".
Proof.
  induction s as [|c s IH]; [done|]. simpl. intros H. apply andb_prop in H as [Hc Hs].
  by rewrite (IH Hs), Hc.
Qed.

Lemma rstrip_empty s : rstrip s = "" → all_chars is_space s = true.
Proof.
  induction s as [|c s IH]; [done|]. simpl.
  destruct (rstrip s) as [|c' r]; [|done].
  destruct (is_space c); [|done]. intros _. by rewrite IH.
Qed.

(** What [rstrip] cuts off is blank. *)
Lemma rstrip_split s : ∃ t, s = rstrip s +:+ t ∧ all_chars is_space t = true.
Proof.
  induction s as [|c s (t & E & Ht)]; [by exists ""|]. simpl.
  destruct (rstrip s) as [|c' r] eqn:Er.
  - destruct (is_space c) eqn:Ec.
    + exists (String c s). split; [done|]. simpl. rewrite Ec.
      apply rstrip_empty in Er. done.
    + exists t. rewrite sapp_nil_l in E. subst t. by rewrite sapp_cons, sapp_nil_l.
  - exists t. by rewrite sapp_cons, <- E.
Qed.

Lemma rstrip_idem s : rstrip (rstrip s) = rstrip s.
Proof.
  induction s as [|c s IH]; [done|]. simpl.
  destruct (rstrip s) as [|c' r] eqn:Er.
  - destruct (is_space c) eqn:Ec; [done|]. simpl. by rewrite Ec.
  - change (rstrip (String c (String c' r)))
      with (match rstrip (String c' r) with
            | EmptyString => if is_space c then EmptyString else String c EmptyString
            | String c0 r0 => String c (String c0 r0)
            end).
    by rewrite IH.
Qed.

Lemma starts_with_rstrip f s :
  starts_with f (rstrip s) = true → starts_with f s = true.
Proof.
  destruct s as [|c s]; [done|]. simpl.
  destruct (rstrip s); [|done]. by destruct (is_space c).
Qed.

Lemma drop_while_id f s : starts_with f s = false → drop_while f s = s.
Proof. destruct s as [|c s]; [done|]. simpl. by intros ->. Qed.

Lemma strip_no_blank_ends s :
  starts_with is_space (strip s) = false ∧ rstrip (strip s) = strip s.
Proof.
  unfold strip. split; [|apply rstrip_idem].
  destruct (starts_with is_space (rstrip _)) eqn:E; [|done].
  apply starts_with_rstrip in E. by rewrite drop_while_starts in E.
Qed.

Lemma strip_idem s : strip (strip s) = strip s.
Proof.
  destruct (strip_no_blank_ends s) as [H1 H2].
  unfold strip at 1. by rewrite drop_while_id.
Qed.

Lemma strip_split s :
  ∃ l t, s = l +:+ strip s +:+ t
    ∧ all_chars is_space l = true ∧ all_chars is_space t = true.
Proof.
  destruct (rstrip_split (drop_while is_space s)) as (t & E & Ht).
  exists (take_while is_space s), t. unfold strip. rewrite <- E, take_drop_while.
  split; [done|]. split; [apply all_take_while|done].
Qed.

Lemma all_chars_app p (a b : string) :
  all_chars p (a +:+ b) = all_chars p a && all_chars p b.
Proof.
  induction a as [|c a IH]; [done|]. rewrite sapp_cons. simpl. rewrite IH.
  by rewrite andb_assoc.
Qed.

Lemma all_chars_drop_while p s : all_chars p s = true → drop_while p s = "".
Proof.
  induction s as [|c s IH]; [done|]. simpl. intros H. apply andb_prop in H as [-> Hs]. auto.
Qed.

Lemma strip_blank s : strip s = "" ↔ all_chars is_space s = true.
Proof.
  split.
  - intros H. destruct (strip_split s) as (l & t & E & Hl & Ht).
    rewrite H in E. rewrite E, sapp_nil_l, all_chars_app, Hl, Ht. done.
  - intros H. unfold strip. by rewrite all_chars_drop_while.
Qed.

(** *** [str.upper] *)

Lemma upper_char_plain c w :
  is_capital_or_space w = true → lower c = lower w → upper_char c = [code w].
Proof.
  intros Hw. destruct w as [[] [] [] [] [] [] [] []];
    vm_compute in Hw; try discriminate Hw; clear Hw; by_cases_on c.
Qed.

Lemma upper_char_single c w :
  is_capital_or_space w = true → upper_char c = [code w] → lower c = lower w.
Proof.
  intros Hw. destruct w as [[] [] [] [] [] [] [] []];
    vm_compute in Hw; try discriminate Hw; clear Hw; by_cases_on c.
Qed.

Lemma upper_char_cases c : (∃ n, upper_char c = [n]) ∨ upper_char c = [83; 83]%N.
Proof. by_cases_on c; eauto. Qed.

Lemma code_inj a b : code a = code b → a = b.
Proof.
  unfold code. intros H. by rewrite <- (ascii_N_embedding a), <- (ascii_N_embedding b), H.
Qed.

Lemma upper_plain t : ∀ w,
  plain_word w = true → upper t = code_points w ↔ lower_str t = lower_str w.
Proof.
  unfold plain_word. induction t as [|c t IH]; intros w Hw.
  - destruct w; simpl; split; done.
  - apply andb_prop in Hw as [Hc Hs]. cbn [upper lower_str]. split.
    + intros H. destruct (upper_char_cases c) as [[n Hn]|Hss].
      * rewrite Hn in H. destruct w as [|a w]; [done|]. cbn in H. injection H as -> H.
        cbn in Hc, Hs. apply andb_prop in Hc as [Ha Hc]. apply andb_prop in Hs as [_ Hs].
        cbn [lower_str]. f_equal.
        -- by apply upper_char_single.
        -- apply IH; [by rewrite Hc, Hs|done].
      * rewrite Hss in H. destruct w as [|a [|b w]]; try done. cbn in H.
        injection H as H1 H2 _.
        apply (code_inj "S" a) in H1 as <-. apply (code_inj "S" b) in H2 as <-.
        cbn in Hs. done.
    + intros H. destruct w as [|a w]; [done|]. cbn [lower_str] in H. injection H as Ha H.
      cbn in Hc, Hs. apply andb_prop in Hc as [Hca Hc]. apply andb_prop in Hs as [_ Hs].
      rewrite (upper_char_plain c a) by done. cbn. f_equal.
      apply IH; [by rewrite Hc, Hs|done].
Qed.

End ConsoleFacts.

Module DialogueFacts.
Import Text Shape ReFacts Fs Writer Console ConsoleFacts.

Lemma is_in_plain t words :
  Forall (λ w, plain_word w = true) words →
  is_in (upper t) words = true ↔ lower_str t ∈ lower_str <$> words.
Proof.
  intros Hw. unfold is_in. rewrite bool_decide_eq_true, !list_elem_of_fmap.
  split; intros (w & E & Hin); exists w; (split; [|done]);
    apply (upper_plain t w); try done;
    by apply (proj1 (Forall_forall _ _) Hw).
Qed.

Lemma content_type_of_movie text :
  content_type_of text = Some "movie" ↔ lower_str (strip text) ∈ ["m"; "movie"].
Proof.
  unfold content_type_of. cbv zeta.
  rewrite <- (is_in_plain (strip text) ["M"; "MOVIE"]) by (repeat constructor).
  destruct (is_in _ ["M"; "MOVIE"]); [done|].
  by destruct (is_in _ _).
Qed.

Lemma content_type_of_tv_show text :
  content_type_of text = Some "tv_show"
  ↔ lower_str (strip text) ∈ ["t"; "tv"; "tv show"; "show"].
Proof.
  unfold content_type_of. cbv zeta.
  rewrite <- (is_in_plain (strip text) ["T"; "TV"; "TV SHOW"; "SHOW"])
    by (repeat constructor).
  destruct (is_in _ ["M"; "MOVIE"]) eqn:Em.
  2:{ destruct (is_in _ ["T"; "TV"; "TV SHOW"; "SHOW"]); split; intros H;
        first [done|discriminate H]. }
  apply (is_in_plain (strip text) ["M"; "MOVIE"]) in Em; [|repeat constructor].
  split; [done|]. intros Et.
  apply (is_in_plain (strip text) ["T"; "TV"; "TV SHOW"; "SHOW"]) in Et;
    [|repeat constructor].
  cbn in Em, Et.
  repeat (apply elem_of_cons in Em as [Em|Em];
    [rewrite Em in Et;
     repeat (apply elem_of_cons in Et as [Et|Et]; [discriminate Et|]);
     by apply elem_of_nil in Et|]).
  by apply elem_of_nil in Em.
Qed.

Lemma content_type_of_values text r :
  content_type_of text = Some r → r = "movie" ∨ r = "tv_show".
Proof.
  unfold content_type_of. destruct (is_in _ _); [intros [= <-]; by left|].
  destruct (is_in _ _); [intros [= <-]; by right|done].
Qed.

(** *** The loops that ask *)

Lemma IO_bind_run {A B} (m : IO A) (k : A → IO B) s :
  (m ≫= k) s = match m s with
               | (inl a, s') => k a s'
               | (inr ex, s') => (inr ex, s')
               end.
Proof. reflexivity. Qed.

Lemma told_told l1 l2 s : told l2 (told l1 s) = told (l1 ++ l2) s.
Proof. unfold told. cbn. by rewrite <- List.app_assoc. Qed.

Lemma told_nil s : told [] s = s.
Proof. unfold told. destruct s. cbn. by rewrite app_nil_r. Qed.

Section Asking.
Context {A : Type} (p : prompt) (body : string → IO (option A)).
Variable verdict : gmap string node → string → option A.
Variable said : gmap string node → string → list notice.
Hypothesis body_run : ∀ text s,
  body text s = (inl (verdict (disk s) text), told (Told <$> said (disk s) text) s).

Local Abbreviation turn d := (λ text, Asked p :: (Told <$> said d text)).

Lemma asking_next text rest s :
  asking p body (Line text :: rest) s
  = match verdict (disk s) text with
    | Some a => (inl a, Session rest (terminal s ++ turn (disk s) text) (disk s) (processes s))
    | None => asking p body rest
                (Session rest (terminal s ++ turn (disk s) text) (disk s) (processes s))
    end.
Proof.
  cbn [asking]. rewrite body_run. unfold told, prompted. cbn [stdin terminal disk processes].
  rewrite <- List.app_assoc. cbn [app]. by destruct (verdict _ _).
Qed.

Lemma asking_accepts rejected text a rest s :
  Forall (λ t, verdict (disk s) t = None) rejected →
  verdict (disk s) text = Some a →
  asking p body ((Line <$> rejected) ++ Line text :: rest) s
  = (inl a, Session rest (terminal s ++ flat_map (turn (disk s)) (rejected ++ [text]))
              (disk s) (processes s)).
Proof.
  revert s. induction rejected as [|t rejected IH]; intros s Hr Ha.
  - cbn [fmap list_fmap app flat_map]. rewrite asking_next, Ha. by rewrite app_nil_r.
  - apply Forall_cons in Hr as [Ht Hr]. cbn [fmap list_fmap app]. rewrite asking_next, Ht.
    rewrite IH by done. cbn [disk terminal processes flat_map].
    by rewrite <- List.app_assoc.
Qed.

Lemma asking_eof rejected s :
  Forall (λ t, verdict (disk s) t = None) rejected →
  asking p body (Line <$> rejected) s
  = (inr EOFError,
     Session [] (terminal s ++ flat_map (turn (disk s)) rejected ++ [Asked p])
       (disk s) (processes s)).
Proof.
  revert s. induction rejected as [|t rejected IH]; intros s Hr.
  - reflexivity.
  - apply Forall_cons in Hr as [Ht Hr]. cbn [fmap list_fmap]. rewrite asking_next, Ht.
    rewrite IH by done. cbn [disk terminal processes flat_map].
    by rewrite <- !List.app_assoc.
Qed.

Lemma asking_interrupted rejected rest s :
  Forall (λ t, verdict (disk s) t = None) rejected →
  asking p body ((Line <$> rejected) ++ Interrupt :: rest) s
  = (inr KeyboardInterrupt,
     Session rest (terminal s ++ flat_map (turn (disk s)) rejected ++ [Asked p])
       (disk s) (processes s)).
Proof.
  revert s. induction rejected as [|t rejected IH]; intros s Hr.
  - reflexivity.
  - apply Forall_cons in Hr as [Ht Hr]. cbn [fmap list_fmap app]. rewrite asking_next, Ht.
    rewrite IH by done. cbn [disk terminal processes flat_map].
    by rewrite <- !List.app_assoc.
Qed.

(** The input, up to the first answer that is taken or to the interrupt. *)
Lemma pending_cases d pending :
  ∃ rejected, Forall (λ t, verdict d t = None) rejected ∧
    (pending = (Line <$> rejected)
     ∨ (∃ rest, pending = ((Line <$> rejected) ++ Interrupt :: rest)%list)
     ∨ (∃ text a rest, pending = ((Line <$> rejected) ++ Line text :: rest)%list
                       ∧ verdict d text = Some a)).
Proof.
  induction pending as [|ev pending (rejected & Hr & IH)].
  - exists []. split; [done|]. by left.
  - destruct ev as [text|].
    + destruct (verdict d text) as [a|] eqn:E.
      * exists []. split; [done|]. right. right. by exists text, a, pending.
      * exists (text :: rejected). split; [by constructor|].
        destruct IH as [->|[[rest ->]|(t & a & rest & -> & Ha)]].
        -- by left.
        -- right. left. by exists rest.
        -- right. right. by exists t, a, rest.
    + exists []. split; [done|]. right. left. by exists pending.
Qed.

(** Whatever the input, the loop leaves the disk and the processes alone,
    adds lines of the dialogue to the terminal, and ends with an answer it
    has taken, with the end of the input or with the interrupt. *)
Lemma asking_outcome s :
  let r := while_true_input p body s in
  disk (snd r) = disk s ∧ processes (snd r) = processes s
  ∧ (∃ lines, terminal (snd r) = (terminal s ++ lines)%list
              ∧ Forall (λ l, is_dialogue l = true) lines)
  ∧ match fst r with
    | inl a => ∃ text, Line text ∈ stdin s ∧ verdict (disk s) text = Some a
    | inr EOFError => stdin (snd r) = []
    | inr KeyboardInterrupt => True
    | inr _ => False
    end.
Proof.
  assert (Hturns : ∀ d ts, Forall (λ l, is_dialogue l = true) (flat_map (turn d) ts)).
  { intros d ts. induction ts as [|t ts IH]; [done|]. cbn [flat_map].
    apply Forall_app. split; [|done]. constructor; [done|].
    apply Forall_fmap, Forall_true. done. }
  unfold while_true_input.
  destruct (pending_cases (disk s) (stdin s))
    as (rejected & Hr & [E|[[rest E]|(text & a & rest & E & Ha)]]); rewrite E.
  - rewrite asking_eof by done. cbn [fst snd disk processes terminal stdin].
    repeat split; try done. eexists. split; [done|].
    apply Forall_app. split; [apply Hturns|by constructor].
  - rewrite asking_interrupted by done. cbn [fst snd disk processes terminal stdin].
    repeat split; try done. eexists. split; [done|].
    apply Forall_app. split; [apply Hturns|by constructor].
  - rewrite (asking_accepts rejected text a) by done.
    cbn [fst snd disk processes terminal stdin].
    repeat split; try done.
    + eexists. split; [done|]. apply Hturns.
    + exists text. split; [|done]. apply elem_of_app. right. by left.
Qed.
End Asking.

(** *** The three questions *)

Lemma get_content_type_body text s :
  match content_type_of text with
  | Some content_type => mret (Some content_type)
  | None => tell InvalidContentType ;; mret None
  end s
  = (inl (fst (content_type_answer text)), told (Told <$> snd (content_type_answer text)) s).
Proof.
  unfold content_type_answer. destruct (content_type_of text); cbn [fst snd fmap list_fmap].
  - by rewrite told_nil.
  - reflexivity.
Qed.

Lemma get_tv_show_name_body text s :
  (let show_name := strip text in
   if negb (String.eqb show_name "") then mret (Some show_name)
   else tell EnterValidShowName ;; mret None) s
  = (inl (fst (show_name_answer text)), told (Told <$> snd (show_name_answer text)) s).
Proof.
  unfold show_name_answer. cbv zeta. destruct (negb _); cbn [fst snd fmap list_fmap].
  - by rewrite told_nil.
  - reflexivity.
Qed.

Lemma get_directory_body h e text s :
  (let directory := strip text in
   if String.eqb directory "" then tell EnterValidDirectory ;; mret None
   else
     let directory := expanduser h directory in
     path ← stat directory;
     match path with
     | None => tell (DoesNotExist directory) ;; mret None
     | Some IsFile => tell (IsNotADirectory directory) ;; mret None
     | Some (IsDir content) =>
         let mp4_files := glob_mp4_in e content in
         match mp4_files with
         | [] => tell (NoMp4FilesIn directory) ;; mret None
         | _ => tell (FoundMp4FilesIn (length mp4_files) directory) ;;
                mret (Some directory)
         end
     end) s
  = (inl (fst (directory_answer h e (disk s) text)),
     told (Told <$> snd (directory_answer h e (disk s) text)) s).
Proof.
  unfold directory_answer. cbv zeta. destruct (String.eqb _ _); [reflexivity|].
  rewrite IO_bind_run. unfold stat.
  destruct (disk s !! expanduser h (strip text)) as [[|content]|]; try reflexivity.
  by destruct (glob_mp4_in e content).
Qed.

Lemma directory_answer_some h e d text a :
  fst (directory_answer h e d text) = Some a →
  strip text ≠ "" ∧ a = expanduser h (strip text)
  ∧ ∃ content, d !! a = Some (IsDir content) ∧ glob_mp4_in e content ≠ [].
Proof.
  unfold directory_answer. cbv zeta. destruct (String.eqb _ _) eqn:E; [done|].
  apply String.eqb_neq in E.
  destruct (d !! expanduser h (strip text)) as [[|content]|] eqn:Ed; try done.
  destruct (glob_mp4_in e content) eqn:Eg; [done|]. cbn [fst]. intros [= <-].
  split; [done|]. split; [done|]. exists content. by rewrite Eg.
Qed.

Lemma show_name_answer_some text a :
  fst (show_name_answer text) = Some a → a = strip text ∧ a ≠ "".
Proof.
  unfold show_name_answer. destruct (String.eqb _ _) eqn:E; [done|].
  apply String.eqb_neq in E. cbn. by intros [= <-].
Qed.

Lemma get_content_type_outcome s :
  let r := get_content_type s in
  disk (snd r) = disk s ∧ processes (snd r) = processes s
  ∧ (∃ lines, terminal (snd r) = (terminal s ++ lines)%list
              ∧ Forall (λ l, is_dialogue l = true) lines)
  ∧ match fst r with
    | inl a => ∃ text, Line text ∈ stdin s ∧ fst (content_type_answer text) = Some a
    | inr EOFError => stdin (snd r) = []
    | inr KeyboardInterrupt => True
    | inr _ => False
    end.
Proof.
  apply (asking_outcome _ _ (λ _ text, fst (content_type_answer text))
           (λ _ text, snd (content_type_answer text))).
  intros text s0. apply get_content_type_body.
Qed.

Lemma get_tv_show_name_outcome s :
  let r := get_tv_show_name s in
  disk (snd r) = disk s ∧ processes (snd r) = processes s
  ∧ (∃ lines, terminal (snd r) = (terminal s ++ lines)%list
              ∧ Forall (λ l, is_dialogue l = true) lines)
  ∧ match fst r with
    | inl a => ∃ text, Line text ∈ stdin s ∧ fst (show_name_answer text) = Some a
    | inr EOFError => stdin (snd r) = []
    | inr KeyboardInterrupt => True
    | inr _ => False
    end.
Proof.
  apply (asking_outcome _ _ (λ _ text, fst (show_name_answer text))
           (λ _ text, snd (show_name_answer text))).
  intros text s0. apply get_tv_show_name_body.
Qed.

Lemma get_directory_outcome h e s :
  let r := get_directory h e s in
  disk (snd r) = disk s ∧ processes (snd r) = processes s
  ∧ (∃ lines, terminal (snd r) = (terminal s ++ lines)%list
              ∧ Forall (λ l, is_dialogue l = true) lines)
  ∧ match fst r with
    | inl a => ∃ text, Line text ∈ stdin s ∧ fst (directory_answer h e (disk s) text) = Some a
    | inr EOFError => stdin (snd r) = []
    | inr KeyboardInterrupt => True
    | inr _ => False
    end.
Proof.
  apply (asking_outcome _ _ (λ d text, fst (directory_answer h e d text))
           (λ d text, snd (directory_answer h e d text))).
  intros text s0. apply get_directory_body.
Qed.

Lemma content_type_answer_some text a :
  fst (content_type_answer text) = Some a ↔ content_type_of text = Some a.
Proof. unfold content_type_answer. by destruct (content_type_of text). Qed.

Lemma content_type_answer_none text :
  fst (content_type_answer text) = None ↔ content_type_of text = None.
Proof. unfold content_type_answer. by destruct (content_type_of text). Qed.

End DialogueFacts.
Import ConsoleFacts DialogueFacts.
Import Text Shape ReFacts Fs Writer Console.

(** X10: the answers [get_content_type] takes.  With the blanks at both
    ends cut off and whatever the case of its letters, the answer m or
    movie gives 'movie', the answer t, tv, tv show or show gives 'tv_show',
    and no other text is taken, none with a character beyond ASCII
    either.  A line that is not taken gets the line "Invalid input" and
    the question again; the loop ends with one of the two values, with the
    end of the input or with the interrupt key. *)
Theorem content_type_answers :
  (∀ text, content_type_of text = Some "movie"
           ↔ lower_str (strip text) ∈ ["m"; "movie"])
  ∧ (∀ text, content_type_of text = Some "tv_show"
             ↔ lower_str (strip text) ∈ ["t"; "tv"; "tv show"; "show"])
  ∧ (∀ text r, content_type_of text = Some r → r = "movie" ∨ r = "tv_show")
  ∧ (∀ s rejected text r rest,
       stdin s = ((Line <$> rejected) ++ Line text :: rest)%list →
       Forall (λ t, content_type_of t = None) rejected →
       content_type_of text = Some r →
       get_content_type s
       = (inl r,
          Session rest
            (terminal s
             ++ flat_map (λ _, [Asked ContentTypePrompt; Told InvalidContentType]) rejected
             ++ [Asked ContentTypePrompt])
            (disk s) (processes s)))
  ∧ (∀ s, match fst (get_content_type s) with
          | inl r => r = "movie" ∨ r = "tv_show"
          | inr ex => (ex = EOFError ∧ stdin (snd (get_content_type s)) = [])
                      ∨ ex = KeyboardInterrupt
          end)
  ∧ content_type_of "  Movie " = Some "movie"
  ∧ content_type_of "tv show" = Some "tv_show"
  ∧ content_type_of "movies" = None
  ∧ content_type_of "tv  show" = None.
Proof.
  split; [apply content_type_of_movie|]. split; [apply content_type_of_tv_show|].
  split; [apply content_type_of_values|]. split; [|split; [|repeat split; reflexivity]].
  - intros s rejected text r rest Hs Hr Ha.
    unfold get_content_type, while_true_input. rewrite Hs.
    rewrite (asking_accepts _ _ (λ _ t, fst (content_type_answer t))
               (λ _ t, snd (content_type_answer t)) (λ t s0, get_content_type_body t s0)
               rejected text r rest s).
    + f_equal. f_equal. f_equal. rewrite flat_map_app. f_equal.
      * apply flat_map_ext_elem. intros t Ht.
        apply (proj1 (Forall_forall _ _) Hr) in Ht. unfold content_type_answer.
        by rewrite Ht.
      * cbn. unfold content_type_answer. by rewrite Ha.
    + eapply Forall_impl; [exact Hr|]. intros t Ht. by apply content_type_answer_none.
    + by apply content_type_answer_some.
  - intros s. destruct (get_content_type_outcome s) as (_ & _ & _ & H).
    destruct (fst (get_content_type s)) as [r|[| | | |]]; try done.
    + destruct H as (text & _ & H). apply content_type_answer_some in H.
      by apply content_type_of_values in H.
    + by left.
    + by right.
Qed.

Lemma content_type_answers_witness :
  get_content_type (Session [Line "film"; Line " m "; Line "x"] [] ∅ [])
  = (inl "movie",
     Session [Line "x"]
       [Asked ContentTypePrompt; Told InvalidContentType; Asked ContentTypePrompt] ∅ []).
Proof.
  apply (proj1 (proj2 (proj2 (proj2 content_type_answers)))
           (Session [Line "film"; Line " m "; Line "x"] [] ∅ [])
           ["film"] " m " "movie" [Line "x"]).
  - reflexivity.
  - repeat constructor.
  - reflexivity.
Defined.

(** X11: the show name.  [strip] cuts off the blanks at both ends and
    nothing else.  [get_tv_show_name] asks again, with the line "Please
    enter a valid TV show name", for every line that is empty or blank, and
    returns the first other line stripped: the name it returns is never
    empty and has no blank at either end. *)
Theorem show_name_is_stripped_and_not_empty :
  (∀ text, ∃ l t, text = l +:+ strip text +:+ t
           ∧ all_chars is_space l = true ∧ all_chars is_space t = true
           ∧ starts_with is_space (strip text) = false
           ∧ rstrip (strip text) = strip text)
  ∧ (∀ text, strip text = "" ↔ all_chars is_space text = true)
  ∧ (∀ s rejected text rest,
       stdin s = ((Line <$> rejected) ++ Line text :: rest)%list →
       Forall (λ t, all_chars is_space t = true) rejected →
       all_chars is_space text = false →
       get_tv_show_name s
       = (inl (strip text),
          Session rest
            (terminal s
             ++ flat_map (λ _, [Asked ShowNamePrompt; Told EnterValidShowName]) rejected
             ++ [Asked ShowNamePrompt])
            (disk s) (processes s)))
  ∧ (∀ s, match fst (get_tv_show_name s) with
          | inl show_name => show_name ≠ "" ∧ strip show_name = show_name
          | inr ex => (ex = EOFError ∧ stdin (snd (get_tv_show_name s)) = [])
                      ∨ ex = KeyboardInterrupt
          end).
Proof.
  split; [|split; [apply strip_blank|split]].
  - intros text. destruct (strip_split text) as (l & t & E & Hl & Ht).
    destruct (strip_no_blank_ends text) as [H1 H2]. by exists l, t.
  - intros s rejected text rest Hs Hr Ha.
    unfold get_tv_show_name, while_true_input. rewrite Hs.
    assert (Hblank : ∀ t, all_chars is_space t = true → show_name_answer t
                          = (None, [EnterValidShowName])).
    { intros t Ht. apply strip_blank in Ht. unfold show_name_answer. by rewrite Ht. }
    assert (Htext : show_name_answer text = (Some (strip text), [])).
    { unfold show_name_answer. destruct (String.eqb (strip text) "") eqn:E; [|done].
      apply String.eqb_eq, strip_blank in E. congruence. }
    rewrite (asking_accepts _ _ (λ _ t, fst (show_name_answer t))
               (λ _ t, snd (show_name_answer t)) (λ t s0, get_tv_show_name_body t s0)
               rejected text (strip text) rest s).
    + f_equal. f_equal. f_equal. rewrite flat_map_app. f_equal.
      * apply flat_map_ext_elem. intros t Ht.
        apply (proj1 (Forall_forall _ _) Hr) in Ht. by rewrite (Hblank t Ht).
      * cbn. by rewrite Htext.
    + eapply Forall_impl; [exact Hr|]. intros t Ht. cbn beta. by rewrite (Hblank t Ht).
    + cbn beta. by rewrite Htext.
  - intros s. destruct (get_tv_show_name_outcome s) as (_ & _ & _ & H).
    destruct (fst (get_tv_show_name s)) as [r|[| | | |]]; try done.
    + destruct H as (text & _ & H). apply show_name_answer_some in H as [-> H].
      split; [done|apply strip_idem].
    + by left.
    + by right.
Qed.

Lemma show_name_is_stripped_and_not_empty_witness :
  get_tv_show_name (Session [Line "  "; Line " Breaking  Bad "; Line "x"] [] ∅ [])
  = (inl "Breaking  Bad",
     Session [Line "x"]
       [Asked ShowNamePrompt; Told EnterValidShowName; Asked ShowNamePrompt] ∅ []).
Proof.
  apply (proj1 (proj2 (proj2 show_name_is_stripped_and_not_empty))
           (Session [Line "  "; Line " Breaking  Bad "; Line "x"] [] ∅ [])
           ["  "] " Breaking  Bad " [Line "x"]).
  - reflexivity.
  - repeat constructor.
  - reflexivity.
Defined.

(** X12: [get_directory] returns only the path of a directory that holds
    at least one .mp4 file, namely the expansion of a line of the input
    with its blanks cut off; it changes nothing on the disk and starts no
    process, also when it is left by the end of the input or by the
    interrupt key.  One turn of its loop: an empty answer, a path that does
    not exist, a path that is no directory and a directory without .mp4
    file are each reported, in this order of the tests, and asked for
    again. *)
Theorem get_directory_returns_a_directory_with_videos (h : host) (e : env) :
  (∀ s directory s',
     get_directory h e s = (inl directory, s') →
     (∃ content, disk s !! directory = Some (IsDir content)
                 ∧ ∃ video, video ∈ glob_mp4_in e content)
     ∧ (∃ text, Line text ∈ stdin s ∧ strip text ≠ ""
                ∧ directory = expanduser h (strip text))
     ∧ disk s' = disk s ∧ processes s' = processes s)
  ∧ (∀ s, match fst (get_directory h e s) with
          | inl _ => True
          | inr ex => ((ex = EOFError ∧ stdin (snd (get_directory h e s)) = [])
                       ∨ ex = KeyboardInterrupt)
                      ∧ disk (snd (get_directory h e s)) = disk s
                      ∧ processes (snd (get_directory h e s)) = processes s
          end)
  ∧ (∀ s text rest,
       stdin s = Line text :: rest →
       let directory := expanduser h (strip text) in
       let again := λ n, get_directory h e
                           (Session rest (terminal s ++ [Asked DirectoryPrompt; Told n])
                              (disk s) (processes s)) in
       get_directory h e s
       = if String.eqb (strip text) "" then again EnterValidDirectory
         else match disk s !! directory with
              | None => again (DoesNotExist directory)
              | Some IsFile => again (IsNotADirectory directory)
              | Some (IsDir content) =>
                  match glob_mp4_in e content with
                  | [] => again (NoMp4FilesIn directory)
                  | mp4_files =>
                      (inl directory,
                       Session rest
                         (terminal s ++ [Asked DirectoryPrompt;
                                         Told (FoundMp4FilesIn (length mp4_files) directory)])
                         (disk s) (processes s))
                  end
              end).
Proof.
  split; [|split].
  - intros s directory s' H.
    destruct (get_directory_outcome h e s) as (Hd & Hp & _ & Ha). rewrite H in *.
    cbn [fst snd] in *. destruct Ha as (text & Hin & Ha).
    apply directory_answer_some in Ha as (Hne & -> & content & Hc & Hg).
    split; [|split; [by exists text|done]].
    exists content. split; [done|]. destruct (glob_mp4_in e content) as [|v l]; [done|].
    exists v. by left.
  - intros s. destruct (get_directory_outcome h e s) as (Hd & Hp & _ & Ha).
    destruct (fst (get_directory h e s)) as [r|[| | | |]]; try done.
    + split; [by left|done].
    + split; [by right|done].
  - intros s text rest Hs directory again.
    unfold get_directory at 1, while_true_input. rewrite Hs.
    rewrite (asking_next _ _ (λ d t, fst (directory_answer h e d t))
               (λ d t, snd (directory_answer h e d t)) (λ t s0, get_directory_body h e t s0)).
    unfold directory_answer. cbv zeta. fold directory.
    destruct (String.eqb (strip text) ""); [reflexivity|].
    destruct (disk s !! directory) as [[|content]|]; try reflexivity.
    by destruct (glob_mp4_in e content).
Qed.

Lemma get_directory_returns_a_directory_with_videos_witness :
  let h := Host Answers (λ path, path) in
  let e := Env (λ _ _, Exit0 "out") (λ _ _, false) (λ _, false) (λ _, ["a.mp4"])
             (λ _ _, false) in
  let s := Session [Line ""; Line "nowhere"; Line " videos "]
             [] (<["videos" := IsDir (<["a.mp4" := "video"]> ∅)]> ∅) [] in
  (∃ content, disk s !! "videos" = Some (IsDir content)
              ∧ ∃ video, video ∈ glob_mp4_in e content)
  ∧ (∃ text, Line text ∈ stdin s ∧ strip text ≠ "" ∧ "videos" = expanduser h (strip text))
  ∧ disk (snd (get_directory h e s)) = disk s
  ∧ processes (snd (get_directory h e s)) = processes s.
Proof.
  intros h e s.
  apply (proj1 (get_directory_returns_a_directory_with_videos h e) s "videos"
           (snd (get_directory h e s))).
  vm_compute. reflexivity.
Defined.

Module RunFacts.
Import Text Shape ReFacts Fs Writer Run WriterFacts Console ConsoleFacts DialogueFacts.

Lemma try_handle_run {A} (body : IO A) handler s :
  try_handle body handler s
  = match body s with
    | (inl a, s') => (inl a, s')
    | (inr ex, s') =>
        match handler ex with
        | Some h => h s'
        | None => (inr ex, s')
        end
    end.
Proof. reflexivity. Qed.

Lemma in_directory_run {A} (m : M A) directory content s :
  disk s !! directory = Some (IsDir content) →
  let r := m (World content [] []) in
  in_directory directory m s
  = (match fst r with inl a => inl a | inr ex => inr (Failed ex) end,
     Session (stdin s) (terminal s ++ (Printed <$> stdout (snd r)))
       (<[directory := IsDir (files (snd r))]> (disk s))
       (processes s ++ filter (λ cmd, embedded_null cmd = false) (spawned (snd r)))).
Proof. intros Hd r. unfold in_directory. by rewrite Hd. Qed.

(** What the writer can raise. *)
Lemma tag_result_raises e v md w ex :
  tag_result e v md w = inr ex → ex = OSError ∨ ex = ValueError.
Proof.
  unfold tag_result. destruct (embedded_null _); [intros [= <-]; by right|].
  destruct (ffmpeg e _ _); destruct (_ : bool); intros [= <-]; by left.
Qed.

Lemma loop_result_raises e metadata announce turn videos w ex :
  loop_result (step_result e metadata announce) turn videos w = inr ex →
  ex = OSError ∨ ex = ValueError.
Proof.
  revert w. induction videos as [|v videos IH]; intros w; cbn [loop_result]; [done|].
  unfold step_result at 1, finish_result.
  destruct (tag_result e v (metadata v) (say (announce v) w)) as [ok|ex'] eqn:Ht.
  - apply IH.
  - intros [= <-]. by apply tag_result_raises in Ht.
Qed.

Lemma batch_done_raises e metadata announce first_message w ex :
  fst (batch_done e metadata announce first_message w) = inr ex →
  ex = OSError ∨ ex = ValueError.
Proof.
  unfold batch_done. destruct (loop_result _ _ _ _) as [[]|ex'] eqn:Hl; [done|].
  intros [= <-]. by apply loop_result_raises in Hl.
Qed.

Ltac ends :=
  unfold mbind, IO_bind, tell, sys_exit;
  cbn [fst snd disk processes stdin terminal app is_Exception].

Ltac concrete :=
  repeat match goal with x := _ : session |- _ => subst x end;
  cbn [disk processes stdin terminal].

(** The ways [run] ends: after the writer, at the interrupt key, at the
    end of the input. *)
Lemma run_ends h e s :
  ∃ dialogue rest, Forall (λ l, is_dialogue l = true) dialogue ∧
    ((∃ directory content r,
        disk s !! directory = Some (IsDir content)
        ∧ (∃ video, video ∈ glob_mp4_in e content)
        ∧ (r = process_movies e (World content [] [])
           ∨ ∃ show_name, show_name ≠ "" ∧ strip show_name = show_name
               ∧ r = process_tv_show e show_name (World content [] []))
        ∧ run h e s
          = (exit_of (fst r),
             Session rest
               (terminal s ++ dialogue ++ (Printed <$> stdout (snd r)) ++ closing (fst r))
               (<[directory := IsDir (files (snd r))]> (disk s))
               (processes s
                ++ filter (λ cmd, embedded_null cmd = false) (spawned (snd r)))))
     ∨ run h e s
       = (inl (),
          Session rest (terminal s ++ dialogue ++ [Told OperationCancelled])
            (disk s) (processes s))
     ∨ run h e s
       = (inr (SystemExit 1),
          Session [] (terminal s ++ dialogue ++ [Told (UnexpectedError EOFError)])
            (disk s) (processes s))).
Proof.
  set (s0 := Session (stdin s) ((terminal s ++ [Told Title]) ++ [Told Introduction])
               (disk s) (processes s)).
  set (handler := λ ex : raised,
         match ex with
         | KeyboardInterrupt => Some (tell OperationCancelled)
         | _ => if is_Exception ex
                then Some (tell (UnexpectedError ex) ;; sys_exit (A:=unit) 1)
                else None
         end).
  set (after := λ directory,
         content_type ← get_content_type;
         (if String.eqb content_type "movie"
          then in_directory directory (process_movies e)
          else show_name ← get_tv_show_name;
               in_directory directory (process_tv_show e show_name)) ;;
         tell ProcessingComplete ;; tell ReadyForPsp).
  assert (Hrun : run h e s = try_handle (get_directory h e ≫= after) handler s0)
    by reflexivity.
  assert (Hafter : ∀ directory s1, after directory s1
            = match get_content_type s1 with
              | (inl content_type, s2) =>
                  ((if String.eqb content_type "movie"
                    then in_directory directory (process_movies e)
                    else show_name ← get_tv_show_name;
                         in_directory directory (process_tv_show e show_name)) ;;
                   tell ProcessingComplete ;; tell ReadyForPsp) s2
              | (inr ex, s2) => (inr ex, s2)
              end) by reflexivity.
  rewrite Hrun, try_handle_run, IO_bind_run. clear Hrun.
  (* the question for the directory *)
  destruct (get_directory_outcome h e s0) as (Hd1 & Hp1 & (l1 & Ht1 & Hl1) & Ha1).
  destruct (get_directory h e s0) as [[directory|ex] [i1 t1 d1 p1]] eqn:E1;
    cbn [fst snd disk processes terminal stdin] in Hd1, Hp1, Ht1, Ha1; subst d1 p1 t1.
  2:{ exists ([Told Title; Told Introduction] ++ l1)%list, i1.
      split; [by repeat constructor|].
      destruct ex as [| | | |]; try done.
      - right. right. subst i1. unfold handler. ends.
        concrete.
        f_equal. f_equal. by rewrite <- !List.app_assoc.
      - right. left. unfold handler. ends.
        concrete.
        f_equal. f_equal. by rewrite <- !List.app_assoc. }
  destruct Ha1 as (text1 & _ & Ha1).
  apply directory_answer_some in Ha1 as (_ & _ & content & Hc & Hg).
  assert (Hvideo : ∃ video, video ∈ glob_mp4_in e content).
  { destruct (glob_mp4_in e content) as [|v l]; [done|]. exists v. by left. }
  rewrite Hafter. clear Hafter.
  (* the question for the kind *)
  set (s1 := Session i1 (terminal s0 ++ l1) (disk s0) (processes s0)).
  destruct (get_content_type_outcome s1) as (Hd2 & Hp2 & (l2 & Ht2 & Hl2) & Ha2).
  destruct (get_content_type s1) as [[content_type|ex] [i2 t2 d2 p2]] eqn:E2;
    cbn [fst snd disk processes terminal stdin] in Hd2, Hp2, Ht2, Ha2; subst d2 p2 t2.
  2:{ exists ([Told Title; Told Introduction] ++ l1 ++ l2)%list, i2.
      split; [repeat constructor; by apply Forall_app|].
      destruct ex as [| | | |]; try done.
      - right. right. subst i2. unfold handler. ends.
        concrete.
        f_equal. f_equal. by rewrite <- !List.app_assoc.
      - right. left. unfold handler. ends.
        concrete.
        f_equal. f_equal. by rewrite <- !List.app_assoc. }
  set (s2 := Session i2 (terminal s1 ++ l2) (disk s1) (processes s1)).
  rewrite IO_bind_run.
  destruct (String.eqb content_type "movie").
  - (* a movie *)
    rewrite (in_directory_run (process_movies e) directory content s2 Hc).
    exists ([Told Title; Told Introduction] ++ l1 ++ l2)%list, i2.
    split; [repeat constructor; by apply Forall_app|]. left.
    exists directory, content, (process_movies e (World content [] [])).
    split; [done|]. split; [done|]. split; [by left|].
    change (processes s2) with (processes s).
    destruct (fst (process_movies e (World content [] []))) as [[]|ex];
      unfold handler, exit_of, closing; ends; concrete;
      f_equal; f_equal; by rewrite <- !List.app_assoc.
  - (* a show: the question for its name *)
    rewrite IO_bind_run.
    destruct (get_tv_show_name_outcome s2) as (Hd3 & Hp3 & (l3 & Ht3 & Hl3) & Ha3).
    destruct (get_tv_show_name s2) as [[show_name|ex] [i3 t3 d3 p3]] eqn:E3;
      cbn [fst snd disk processes terminal stdin] in Hd3, Hp3, Ht3, Ha3; subst d3 p3 t3.
    2:{ exists ([Told Title; Told Introduction] ++ l1 ++ l2 ++ l3)%list, i3.
        split; [repeat constructor; repeat (apply Forall_app; split); done|].
        destruct ex as [| | | |]; try done.
        - right. right. subst i3. unfold handler. ends.
          concrete.
        f_equal. f_equal. by rewrite <- !List.app_assoc.
        - right. left. unfold handler. ends.
          concrete.
        f_equal. f_equal. by rewrite <- !List.app_assoc. }
    destruct Ha3 as (text3 & _ & Ha3). apply show_name_answer_some in Ha3 as [-> Hne].
    set (s3 := Session i3 (terminal s2 ++ l3) (disk s2) (processes s2)).
    rewrite (in_directory_run (process_tv_show e (strip text3)) directory content s3 Hc).
    exists ([Told Title; Told Introduction] ++ l1 ++ l2 ++ l3)%list, i3.
    split; [repeat constructor; repeat (apply Forall_app; split); done|]. left.
    exists directory, content,
      (process_tv_show e (strip text3) (World content [] [])).
    split; [done|]. split; [done|]. split.
    + right. exists (strip text3). split; [done|]. split; [apply strip_idem|done].
    + change (processes s3) with (processes s).
      destruct (fst (process_tv_show e (strip text3) (World content [] [])))
        as [[]|ex];
        unfold handler, exit_of, closing; ends; concrete;
        f_equal; f_equal; by rewrite <- !List.app_assoc.
Qed.

End RunFacts.

Import RunFacts.
Import Run WriterFacts.



(** A show name with a NUL, as a pipe can hand it to [input]: the
    transcoder is not started, the video is as it was, and the program
    leaves with status 1 after "unexpected error". *)
Example run_show_name_with_nul :
  let h := Host Answers (λ path, path) in
  let e := Env (λ _ _, Exit0 "out") (λ _ _, false) (λ _, false) (λ _, ["a.mp4"])
             (λ _ _, false) in
  let s := Session [Line "videos"; Line "tv"; Line (String "000" "x")]
             [] (<["videos" := IsDir (<["a.mp4" := "video"]> ∅)]> ∅) [] in
  fst (run h e s) = inr (SystemExit 1)
  ∧ last (terminal (snd (run h e s))) = Some (Told (UnexpectedError (Failed ValueError)))
  ∧ processes (snd (run h e s)) = []
  ∧ match disk (snd (run h e s)) !! "videos" with
    | Some (IsDir content) => content !! "a.mp4" = Some "video"
    | _ => False
    end.
Proof. intros h e s. repeat split; vm_compute; reflexivity. Qed.

(** X14: [main] checks the transcoder first.  When "ffmpeg -version"
    ends with a status other than 0, or ffmpeg is not installed, the
    program prints its four lines and leaves with status 1 before it asks
    anything: no line of the input is read and the disk is as it was.
    Otherwise it goes on with [run].  In the environment of the model
    [main] returns or leaves with status 1. *)
Theorem main_checks_the_transcoder_first (h : host) (e : env) (s : session) :
  let started :=
    Session (stdin s) (terminal s) (disk s) (processes s ++ [["ffmpeg"; "-version"]]) in
  let missing :=
    [Told FfmpegNotInstalled; Told PleaseInstall; Told InstallOnMac; Told InstallOnLinux] in
  match ffmpeg_version h with
  | Answers => _check_ffmpeg h s = (inl true, started) ∧ main h e s = run h e started
  | ExitsNonZero =>
      _check_ffmpeg h s = (inl false, started)
      ∧ main h e s
        = (inr (SystemExit 1),
           Session (stdin s) (terminal s ++ missing) (disk s) (processes started))
  | NotFound =>
      _check_ffmpeg h s = (inl false, s)
      ∧ main h e s
        = (inr (SystemExit 1),
           Session (stdin s) (terminal s ++ missing) (disk s) (processes s))
  end
  ∧ (fst (main h e s) = inl () ∨ fst (main h e s) = inr (SystemExit 1))
  ∧ (disk (snd (main h e s)) ≠ disk s → ffmpeg_version h = Answers).
Proof.
  intros started missing.
  assert (Hcases :
    match ffmpeg_version h with
    | Answers => _check_ffmpeg h s = (inl true, started) ∧ main h e s = run h e started
    | ExitsNonZero =>
        _check_ffmpeg h s = (inl false, started)
        ∧ main h e s
          = (inr (SystemExit 1),
             Session (stdin s) (terminal s ++ missing) (disk s) (processes started))
    | NotFound =>
        _check_ffmpeg h s = (inl false, s)
        ∧ main h e s
          = (inr (SystemExit 1),
             Session (stdin s) (terminal s ++ missing) (disk s) (processes s))
    end).
  { unfold main, __init__, _check_ffmpeg, subprocess_run_version, try_handle.
    unfold mbind at 1 2 3, IO_bind at 1 2 3.
    unfold mbind at 1 2, IO_bind at 1 2. fold started.
    destruct (ffmpeg_version h); (split; [reflexivity|]).
    - reflexivity.
    - unfold mbind, IO_bind, tell, sys_exit, missing, started.
      cbn [fst snd negb stdin terminal disk processes]. f_equal. f_equal.
      by rewrite <- !List.app_assoc.
    - unfold mbind, IO_bind, tell, sys_exit, missing.
      cbn [fst snd negb stdin terminal disk processes]. f_equal. f_equal.
      by rewrite <- !List.app_assoc. }
  split; [exact Hcases|].
  destruct (ffmpeg_version h); destruct Hcases as [_ ->]; cbn [fst snd disk].
  - split; [|done].
    destruct (run_ends h e started)
      as (dialogue & rest & _ & [(? & ? & writer & _ & _ & _ & ->)| [-> | ->]]); cbn [fst];
      try by (left + right).
    unfold exit_of. destruct (fst writer); by (left + right).
  - split; [by right|done].
  - split; [by right|done].
Qed.

Lemma main_checks_the_transcoder_first_witness :
  let h := Host Answers (λ path, path) in
  let e := Env (λ _ _, Exit0 "out") (λ _ _, false) (λ _, false) (λ _, ["a.mp4"])
             (λ _ _, false) in
  let s := Session [Line "videos"; Line "m"]
             [] (<["videos" := IsDir (<["a.mp4" := "video"]> ∅)]> ∅) [] in
  ffmpeg_version h = Answers.
Proof.
  intros h e s.
  apply (proj2 (proj2 (main_checks_the_transcoder_first h e s))).
  intros H.
  apply (f_equal (λ d : gmap string node,
                    match d !! "videos" with
                    | Some (IsDir content) => content !! "a.mp4"
                    | _ => None
                    end)) in H.
  vm_compute in H. discriminate H.
Defined.
